(** * bxgateway: block and transaction propagation pipeline

    A shallow embedding of the gateway's Bitcoin message converter
    ([btc_normal_message_converter.py]), its block processing service
    ([block_processing_service.py]), the relay transaction handler
    ([abstract_relay_connection.py]) and the Ethereum discovery connection
    ([eth_node_discovery_connection.py]), followed by the properties proved
    about them.

    Conventions.  Python [bytes]/[bytearray]/[memoryview] values are
    [list byte]; Python integers used as offsets and sizes are [nat], wire
    integers are [N]; a 32-byte hash object is identified with the number
    it encodes.  Exceptions are values of [exn]; code that can raise lives
    in the [result] monad (pure code) or in the state-and-exception monad
    [M] (code that mutates the node).  Wall-clock readings are exact
    rationals. *)

From Stdlib Require Import ZArith NArith List Lia QArith Qround.
From Stdlib.Strings Require Import Byte.
From stdpp Require Import base option list gmap.

Set Default Proof Using "Type".
Open Scope nat_scope.

(* ================================================================== *)
(** * Exceptions and the result monad *)
(* ================================================================== *)

Abbreviation bytes := (list byte).
Abbreviation Sha256Hash := N (only parsing).

Inductive ConversionType :=
| BLOCK_COMPRESSION
| BLOCK_DECOMPRESSION.

(** The exceptions the embedded code can raise.  [MessageConversionError]
    carries the offending message hash ([e.msg_hash]) and the conversion
    type.  [NonTermination] marks a [while] loop that ran out of fuel. *)
Inductive exn :=
| MessageConversionError (msg_hash : Sha256Hash) (conversion_type : ConversionType)
| IndexError
| KeyError
| TypeError
| StructError
| ParseError
| AttributeError
| ZeroDivisionError
| NonTermination.

Inductive result (A : Type) :=
| Ok (a : A)
| Raise (e : exn).
Arguments Ok {A} a.
Arguments Raise {A} e.

#[global] Instance result_ret : MRet result := fun _ a => Ok a.
#[global] Instance result_bind : MBind result := fun _ _ f m =>
  match m with
  | Ok a => f a
  | Raise e => Raise e
  end.

(* ================================================================== *)
(** * Buffers and [struct] *)
(* ================================================================== *)

(** Python's [b[i:j]] for [0 <= i]: out-of-range bounds are clamped. *)
Definition slice (b : bytes) (i j : nat) : bytes := take (j - i) (drop i b).

(** [bytearray(size)]: a zero-filled buffer. *)
Definition bytearray (size : nat) : bytes := replicate size Byte.x00.

(** [buf[off:next_off] = piece] on a bytearray. *)
Definition slice_assign (b : bytes) (off next_off : nat) (piece : bytes) : bytes :=
  take off b ++ piece ++ drop next_off b.

Definition byte_of_N (n : N) : byte := default Byte.x00 (Byte.of_N (n mod 256)%N).

(** Little-endian encoding on [k] bytes and its inverse. *)
Fixpoint le_bytes (k : nat) (n : N) : bytes :=
  match k with
  | O => []
  | S k' => byte_of_N n :: le_bytes k' (n / 256)%N
  end.

Fixpoint le_value (bs : bytes) : N :=
  match bs with
  | [] => 0%N
  | b :: rest => (Byte.to_N b + 256 * le_value rest)%N
  end.

(** [struct.pack("<Q", n)], [struct.pack("<L", n)]: out-of-range values
    raise [struct.error]. *)
Definition struct_pack (width : nat) (n : N) : result bytes :=
  if (n <? 256 ^ N.of_nat width)%N then Ok (le_bytes width n) else Raise StructError.

(** [struct.unpack_from(fmt, buf, off)] for one little-endian unsigned
    field of [width] bytes. *)
Definition struct_unpack_from (width : nat) (buf : bytes) (off : nat) : result N :=
  if decide (off + width ≤ length buf)
  then Ok (le_value (slice buf off (off + width)))
  else Raise StructError.

(* ================================================================== *)
(** * Constants *)
(* ================================================================== *)

(** Modelled from the spec: [bxcommon.constants] and [btc_constants] are
    absent.  The spec fixes the 8-byte little-endian offset prefix, the
    1-byte short-id indicator, sid 0 as "none" and the 24-byte Bitcoin
    message header; 80 is the size of a Bitcoin block header. *)
Definition NULL_TX_SID : N := 0.
Definition UL_ULL_SIZE_IN_BYTES : nat := 8.
Definition UL_INT_SIZE_IN_BYTES : nat := 4.
Definition BTC_HDR_COMMON_OFF : nat := 24.
Definition BTC_BLOCK_HDR_SIZE : nat := 80.
Definition BTC_SHORT_ID_INDICATOR : byte := Byte.xff.
Definition BTC_SHORT_ID_INDICATOR_AS_BYTEARRAY : bytes := [BTC_SHORT_ID_INDICATOR].
Definition BTC_SHORT_ID_INDICATOR_LENGTH : nat := 1.

(** [gateway_constants.py] *)
Definition BLOCK_RECOVERY_RECOVERY_INTERVAL_S : list Q :=
  [(1 # 10)%Q; (1 # 2)%Q; 1%Q; 2%Q; 5%Q].
Definition BLOCK_RECOVERY_MAX_RETRY_ATTEMPTS : nat :=
  length BLOCK_RECOVERY_RECOVERY_INTERVAL_S.

(** [eth_constants.py] *)
Definition P2P_PROTOCOL_VERSION : N := 4.
Definition PING_MSG_TTL_SEC : Z := 60%Z.
Definition DISCOVERY_PONG_TIMEOUT_SEC : Q := 5%Q.

(* ================================================================== *)
(** * Transaction service *)
(* ================================================================== *)

(** Modelled from the spec: [bxcommon]'s [TransactionService] is absent.
    Spec section 4.1: a map hash -> (sids, contents?), a map sid -> hash; a
    hash may have a short id while its contents are not yet known.  The
    last field is the per-block record kept by [track_seen_short_ids]. *)
Record TransactionService := {
  tx_hash_to_short_ids : gmap N (list N);
  short_id_to_tx_hash : gmap N N;
  tx_hash_to_contents : gmap N bytes;
  short_ids_seen_in_block : gmap N (list N);
  short_ids_seen_in_block_delayed : gmap N (list N)
}.

Definition empty_tx_service : TransactionService :=
  {| tx_hash_to_short_ids := ∅; short_id_to_tx_hash := ∅;
     tx_hash_to_contents := ∅; short_ids_seen_in_block := ∅;
     short_ids_seen_in_block_delayed := ∅ |}.

(** [get_short_id(hash) -> sid or NULL_SID] *)
Definition get_short_id (ts : TransactionService) (tx_hash : Sha256Hash) : N :=
  match tx_hash_to_short_ids ts !! tx_hash with
  | Some (sid :: _) => sid
  | _ => NULL_TX_SID
  end.

Definition has_transaction_short_id (ts : TransactionService) (tx_hash : Sha256Hash) : bool :=
  match tx_hash_to_short_ids ts !! tx_hash with
  | Some (_ :: _) => true
  | _ => false
  end.

Definition has_short_id (ts : TransactionService) (sid : N) : bool :=
  bool_decide (is_Some (short_id_to_tx_hash ts !! sid)).

Definition has_transaction_contents (ts : TransactionService) (tx_hash : Sha256Hash) : bool :=
  bool_decide (is_Some (tx_hash_to_contents ts !! tx_hash)).

(** [get_transaction(sid) -> (hash, contents, sid)]; unknown parts are
    [None]. *)
Definition get_transaction (ts : TransactionService) (sid : N)
  : option Sha256Hash * option bytes * N :=
  match short_id_to_tx_hash ts !! sid with
  | Some h => (Some h, tx_hash_to_contents ts !! h, sid)
  | None => (None, None, sid)
  end.

(** [get_missing_transactions(sids) -> (missing?, missing_sids,
    missing_hashes)]: the sids with no known hash, and the hashes of sids
    with a hash but no contents. *)
Fixpoint get_missing_transactions (ts : TransactionService) (sids : list N)
  : bool * list N * list Sha256Hash :=
  match sids with
  | [] => (false, [], [])
  | sid :: rest =>
    let '(missing, unknown_sids, unknown_hashes) := get_missing_transactions ts rest in
    match short_id_to_tx_hash ts !! sid with
    | Some h =>
      if has_transaction_contents ts h
      then (missing, unknown_sids, unknown_hashes)
      else (true, unknown_sids, h :: unknown_hashes)
    | None => (true, sid :: unknown_sids, unknown_hashes)
    end
  end.

(** [assign_short_id(hash, sid)]: idempotent; the null sid is ignored and
    the newer binding of a sid wins. *)
Definition assign_short_id (ts : TransactionService) (tx_hash : Sha256Hash) (sid : N)
  : TransactionService :=
  if decide (sid = NULL_TX_SID) then ts else
  let sids := default [] (tx_hash_to_short_ids ts !! tx_hash) in
  {| tx_hash_to_short_ids :=
       if decide (sid ∈ sids) then tx_hash_to_short_ids ts
       else <[tx_hash := sids ++ [sid]]> (tx_hash_to_short_ids ts);
     short_id_to_tx_hash := <[sid := tx_hash]> (short_id_to_tx_hash ts);
     tx_hash_to_contents := tx_hash_to_contents ts;
     short_ids_seen_in_block := short_ids_seen_in_block ts;
     short_ids_seen_in_block_delayed := short_ids_seen_in_block_delayed ts |}.

(** [set_transaction_contents(hash, bytes)]: first writer wins. *)
Definition set_transaction_contents (ts : TransactionService) (tx_hash : Sha256Hash)
  (contents : bytes) : TransactionService :=
  if has_transaction_contents ts tx_hash then ts else
  {| tx_hash_to_short_ids := tx_hash_to_short_ids ts;
     short_id_to_tx_hash := short_id_to_tx_hash ts;
     tx_hash_to_contents := <[tx_hash := contents]> (tx_hash_to_contents ts);
     short_ids_seen_in_block := short_ids_seen_in_block ts;
     short_ids_seen_in_block_delayed := short_ids_seen_in_block_delayed ts |}.

(** [track_seen_short_ids(block_hash, sids)] and its delayed variant mark
    the sids of a block as seen. *)
Definition track_seen_short_ids (ts : TransactionService) (block_hash : Sha256Hash)
  (sids : list N) : TransactionService :=
  {| tx_hash_to_short_ids := tx_hash_to_short_ids ts;
     short_id_to_tx_hash := short_id_to_tx_hash ts;
     tx_hash_to_contents := tx_hash_to_contents ts;
     short_ids_seen_in_block := <[block_hash := sids]> (short_ids_seen_in_block ts);
     short_ids_seen_in_block_delayed := short_ids_seen_in_block_delayed ts |}.

Definition track_seen_short_ids_delayed (ts : TransactionService) (block_hash : Sha256Hash)
  (sids : list N) : TransactionService :=
  {| tx_hash_to_short_ids := tx_hash_to_short_ids ts;
     short_id_to_tx_hash := short_id_to_tx_hash ts;
     tx_hash_to_contents := tx_hash_to_contents ts;
     short_ids_seen_in_block := short_ids_seen_in_block ts;
     short_ids_seen_in_block_delayed :=
       <[block_hash := sids]> (short_ids_seen_in_block_delayed ts) |}.

(** [on_block_cleaned_up(block_hash)]: the service forgets what it tracks
    for the block. *)
Definition on_block_cleaned_up (ts : TransactionService) (block_hash : Sha256Hash)
  : TransactionService :=
  {| tx_hash_to_short_ids := tx_hash_to_short_ids ts;
     short_id_to_tx_hash := short_id_to_tx_hash ts;
     tx_hash_to_contents := tx_hash_to_contents ts;
     short_ids_seen_in_block := delete block_hash (short_ids_seen_in_block ts);
     short_ids_seen_in_block_delayed :=
       delete block_hash (short_ids_seen_in_block_delayed ts) |}.

(* ================================================================== *)
(** * Messages and block info *)
(* ================================================================== *)

(** A message object wraps its buffer ([AbstractMessage(buf=...)]). *)
Record AbstractMessage := { buf : bytes }.

(** [BlockInfo]: the fields the pipeline reads.  The start and end
    timestamps, the duration and the floating-point compression rate of
    the Python tuple are statistics only and are left out.  Fields that
    [get_block_info] leaves [None] when no block was produced are
    options. *)
Record BlockInfo := {
  bi_block_hash : Sha256Hash;
  bi_short_ids : list N;
  bi_txn_count : N;
  bi_compressed_block_hash : option Sha256Hash;
  bi_prev_block_hash : option Sha256Hash;
  bi_original_size : option nat;
  bi_compressed_size : option nat
}.

Record BlockOffsets := {
  short_id_offset : nat;
  block_begin_offset : nat
}.

Record BlockHeaderInfo := {
  hi_block_offsets : BlockOffsets;
  hi_short_ids : list N;
  hi_short_ids_len : nat;
  hi_block_hash : Sha256Hash;
  hi_offset : nat;
  hi_txn_count : N
}.

(** The helpers of [btc_messages_util], [crypto],
    [compact_block_short_ids_serializer] and the accessors of
    [BlockBtcMessage] that the converter calls; none of them is under
    [src/], so the converter is embedded over this interface. *)
Class BtcWire := {
  get_txid : bytes → Sha256Hash;
  get_next_tx_size : bytes → nat → result nat;
  bitcoin_hash : bytes → Sha256Hash;
  double_sha256 : bytes → Sha256Hash;
  serialize_short_ids_into_bytes : list N → result bytes;
  deserialize_short_ids_from_buffer : bytes → nat → result (list N * nat);
  msg_block_hash : AbstractMessage → Sha256Hash;
  msg_header : AbstractMessage → bytes;
  msg_txns : AbstractMessage → list bytes;
  msg_prev_block_hash : AbstractMessage → Sha256Hash;
  msg_txn_count : AbstractMessage → N
}.

(** Modelled from the spec: [BtcMessage.rawbytes] is absent.  Spec section 6:
    a Bitcoin message is its 24-byte header followed by [length] payload
    bytes, [length] being the u32 at offset 16; bytes of the buffer past
    the payload are not part of the message. *)
Definition rawbytes (m : AbstractMessage) : result bytes :=
  payload_len ← struct_unpack_from 4 (buf m) 16;
  Ok (slice (buf m) 0 (N.to_nat payload_len + BTC_HDR_COMMON_OFF)).

(** Modelled from the spec: [btc_messages_util.btc_varint_to_int] is
    absent; the Bitcoin wire format's variable-length integer, returned
    with its encoded size. *)
Definition btc_varint_to_int (b : bytes) (off : nat) : result (N * nat) :=
  match b !! off with
  | None => Raise IndexError
  | Some x =>
    if Byte.eqb x Byte.xff then v ← struct_unpack_from 8 b (off + 1); Ok (v, 9)
    else if Byte.eqb x Byte.xfe then v ← struct_unpack_from 4 b (off + 1); Ok (v, 5)
    else if Byte.eqb x Byte.xfd then v ← struct_unpack_from 2 b (off + 1); Ok (v, 3)
    else Ok (Byte.to_N x, 1)
  end.

(** Modelled from the spec: [get_bx_block_offsets] is absent; the bx-block
    starts with the u64 little-endian offset of its short-ids section and
    the native block begins right after it. *)
Definition get_bx_block_offsets (bx_block : bytes) : result BlockOffsets :=
  off ← struct_unpack_from 8 bx_block 0;
  Ok {| short_id_offset := N.to_nat off; block_begin_offset := UL_ULL_SIZE_IN_BYTES |}.

(* ================================================================== *)
(** * [btc_normal_message_converter.py] *)
(* ================================================================== *)

Definition btc_block_decompression_error (block_hash : Sha256Hash) : exn :=
  MessageConversionError block_hash BLOCK_DECOMPRESSION.

Section BtcNormalMessageConverter.
Context `{BtcWire}.

Definition parse_bx_block_header (bx_block : bytes) (block_pieces : list bytes)
  : result (BlockHeaderInfo * list bytes) :=
  block_offsets ← get_bx_block_offsets bx_block;
  '(short_ids, short_ids_len) ←
    deserialize_short_ids_from_buffer bx_block (short_id_offset block_offsets);
  let block_header_size :=
    block_begin_offset block_offsets + BTC_HDR_COMMON_OFF + BTC_BLOCK_HDR_SIZE in
  let block_hash :=
    bitcoin_hash
      (slice bx_block (block_begin_offset block_offsets + BTC_HDR_COMMON_OFF)
             block_header_size) in
  let offset := block_header_size in
  '(txn_count, txn_count_size) ← btc_varint_to_int bx_block block_header_size;
  let offset := offset + txn_count_size in
  Ok ({| hi_block_offsets := block_offsets; hi_short_ids := short_ids;
         hi_short_ids_len := short_ids_len; hi_block_hash := block_hash;
         hi_offset := offset; hi_txn_count := txn_count |},
      block_pieces ++ [slice bx_block (block_begin_offset block_offsets) offset]).

(** The [while offset < block_offsets.short_id_offset] loop.  Every
    iteration reads [bx_block[offset]], so the loop body runs at most
    [len(bx_block)] times unless the tx-size walker answers 0; [fuel]
    bounds the iterations. *)
Fixpoint parse_bx_block_transactions_loop (fuel : nat) (block_hash : Sha256Hash)
  (bx_block : bytes) (short_ids : list N) (block_offsets : BlockOffsets)
  (tx_service : TransactionService)
  (offset short_tx_index output_offset : nat) (block_pieces : list bytes)
  : result (list bytes * nat) :=
  if decide (offset < short_id_offset block_offsets) then
    match fuel with
    | O => Raise NonTermination
    | S fuel' =>
      match bx_block !! offset with
      | None => Raise IndexError
      | Some b =>
        if Byte.eqb b BTC_SHORT_ID_INDICATOR then
          match short_ids !! short_tx_index with
          | None => Raise (btc_block_decompression_error block_hash)
          | Some sid =>
            match get_transaction tx_service sid with
            | (_, Some tx, _) =>
              parse_bx_block_transactions_loop fuel' block_hash bx_block short_ids
                block_offsets tx_service
                (offset + BTC_SHORT_ID_INDICATOR_LENGTH) (short_tx_index + 1)
                (output_offset + length tx) (block_pieces ++ [tx])
            | (_, None, _) => Raise TypeError
            end
          end
        else
          tx_size ← get_next_tx_size bx_block offset;
          let tx := slice bx_block offset (offset + tx_size) in
          parse_bx_block_transactions_loop fuel' block_hash bx_block short_ids
            block_offsets tx_service
            (offset + tx_size) short_tx_index
            (output_offset + length tx) (block_pieces ++ [tx])
      end
    end
  else Ok (block_pieces, output_offset).

Definition parse_bx_block_transactions (block_hash : Sha256Hash) (bx_block : bytes)
  (offset : nat) (short_ids : list N) (block_offsets : BlockOffsets)
  (tx_service : TransactionService) (block_pieces : list bytes)
  : result (list N * list Sha256Hash * nat * list bytes) :=
  let '(has_missing, unknown_tx_sids, unknown_tx_hashes) :=
    get_missing_transactions tx_service short_ids in
  if has_missing then Ok (unknown_tx_sids, unknown_tx_hashes, offset, block_pieces)
  else
    '(block_pieces, output_offset) ←
      parse_bx_block_transactions_loop (S (length bx_block)) block_hash bx_block
        short_ids block_offsets tx_service offset 0 offset block_pieces;
    Ok (unknown_tx_sids, unknown_tx_hashes, output_offset, block_pieces).

Fixpoint build_btc_block_loop (block_pieces : list bytes) (btc_block : bytes)
  (offset : nat) : bytes * nat :=
  match block_pieces with
  | [] => (btc_block, offset)
  | piece :: rest =>
    let next_offset := offset + length piece in
    build_btc_block_loop rest (slice_assign btc_block offset next_offset piece)
      next_offset
  end.

Definition build_btc_block (block_pieces : list bytes) (size : nat)
  : AbstractMessage * nat :=
  let '(btc_block, offset) := build_btc_block_loop block_pieces (bytearray size) 0 in
  ({| buf := btc_block |}, offset).

(** The [for tx in block_msg.txns()] loop of [block_to_bx_block]:
    returns the pieces appended to [buf], the recorded short ids and the
    accumulated size. *)
Fixpoint compress_txns (tx_service : TransactionService) (txns : list bytes)
  (pieces : list bytes) (short_ids : list N) (size : nat)
  : list bytes * list N * nat :=
  match txns with
  | [] => (pieces, short_ids, size)
  | tx :: rest =>
    let tx_hash := get_txid tx in
    let short_id := get_short_id tx_service tx_hash in
    if decide (short_id = NULL_TX_SID)
    then compress_txns tx_service rest (pieces ++ [tx]) short_ids (size + length tx)
    else compress_txns tx_service rest
           (pieces ++ [BTC_SHORT_ID_INDICATOR_AS_BYTEARRAY])
           (short_ids ++ [short_id]) (size + 1)
  end.

(** The [for blob in buf] loop filling [bytearray(size)]. *)
Definition assemble (pieces : list bytes) (size : nat) : bytes :=
  fst (build_btc_block_loop pieces (bytearray size) 0).

Definition btc_block_to_bx_block (block_msg : AbstractMessage)
  (tx_service : TransactionService) : result (bytes * BlockInfo) :=
  let size := 0 in
  let header := msg_header block_msg in
  let size := size + length header in
  let '(pieces, short_ids, size) :=
    compress_txns tx_service (msg_txns block_msg) [header] [] size in
  serialized_short_ids ← serialize_short_ids_into_bytes short_ids;
  let pieces := pieces ++ [serialized_short_ids] in
  let size := size + UL_ULL_SIZE_IN_BYTES in
  offset_buf ← struct_pack 8 (N.of_nat size);
  let pieces := offset_buf :: pieces in
  let size := size + length serialized_short_ids in
  let block := assemble pieces size in
  raw ← rawbytes block_msg;
  let original_size := length raw in
  if decide (original_size = 0) then Raise ZeroDivisionError else
  Ok (block,
      {| bi_block_hash := msg_block_hash block_msg;
         bi_short_ids := short_ids;
         bi_txn_count := msg_txn_count block_msg;
         bi_compressed_block_hash := Some (double_sha256 block);
         bi_prev_block_hash := Some (msg_prev_block_hash block_msg);
         bi_original_size := Some original_size;
         bi_compressed_size := Some size |}).

(** Modelled from the spec: [get_block_info] of
    [abstract_btc_message_converter] is absent; it fills the block info
    of a decompression, with the size and hash fields set only when a
    block was produced. *)
Definition get_block_info (bx_block : bytes) (block_hash : Sha256Hash)
  (short_ids : list N) (total_tx_count : N) (btc_block_msg : option AbstractMessage)
  : result BlockInfo :=
  match btc_block_msg with
  | Some m =>
    raw ← rawbytes m;
    if decide (length raw = 0) then Raise ZeroDivisionError else
    Ok {| bi_block_hash := block_hash; bi_short_ids := short_ids;
          bi_txn_count := total_tx_count;
          bi_compressed_block_hash := Some (double_sha256 bx_block);
          bi_prev_block_hash := Some (msg_prev_block_hash m);
          bi_original_size := Some (length raw);
          bi_compressed_size := Some (length bx_block) |}
  | None =>
    Ok {| bi_block_hash := block_hash; bi_short_ids := short_ids;
          bi_txn_count := total_tx_count;
          bi_compressed_block_hash := None; bi_prev_block_hash := None;
          bi_original_size := None; bi_compressed_size := None |}
  end.

Definition btc_bx_block_to_block (bx_block_msg : bytes) (tx_service : TransactionService)
  : result (option AbstractMessage * BlockInfo * list N * list Sha256Hash) :=
  let block_pieces := [] in
  '(header_info, block_pieces) ← parse_bx_block_header bx_block_msg block_pieces;
  '(unknown_tx_sids, unknown_tx_hashes, offset, block_pieces) ←
    parse_bx_block_transactions (hi_block_hash header_info) bx_block_msg
      (hi_offset header_info) (hi_short_ids header_info)
      (hi_block_offsets header_info) tx_service block_pieces;
  let total_tx_count := hi_txn_count header_info in
  let btc_block_msg :=
    match unknown_tx_sids, unknown_tx_hashes with
    | [], [] => Some (fst (build_btc_block block_pieces offset))
    | _, _ => None
    end in
  block_info ← get_block_info bx_block_msg (hi_block_hash header_info)
                 (hi_short_ids header_info) total_tx_count btc_block_msg;
  Ok (btc_block_msg, block_info, unknown_tx_sids, unknown_tx_hashes).

End BtcNormalMessageConverter.


(* ================================================================== *)
(** * The gateway node: data *)
(* ================================================================== *)

(** [ConnectionType] is a flag enumeration; a connection type is the set
    of flags it carries and [t & FLAG] is membership. *)
Inductive ConnectionTypeFlag :=
| BLOCKCHAIN_NODE
| REMOTE_BLOCKCHAIN_NODE
| RELAY_TRANSACTION
| RELAY_BLOCK
| GATEWAY.

#[global] Instance ConnectionTypeFlag_eq_dec : EqDecision ConnectionTypeFlag.
Proof. solve_decision. Defined.

Definition RELAY_ALL : list ConnectionTypeFlag := [RELAY_TRANSACTION; RELAY_BLOCK].

Record Connection := {
  fileno : N;
  network_num : N;
  peer_desc : N;
  CONNECTION_TYPE : list ConnectionTypeFlag
}.

#[global] Instance Connection_eq_dec : EqDecision Connection.
Proof. solve_decision. Defined.

Definition has_flag (t : list ConnectionTypeFlag) (f : ConnectionTypeFlag) : bool :=
  bool_decide (f ∈ t).

(** [TxMessage]: [short_id()] is [None] or an integer, [tx_val()] may be
    the empty value. *)
Record TxMessage := {
  tx_short_id : option N;
  tx_hash : Sha256Hash;
  tx_network_num : N;
  tx_val : bytes
}.

(** [TransactionInfo], the entries of a [TxsMessage] ([msg.get_txs()]). *)
Record TransactionInfo := {
  ti_hash : Sha256Hash;
  ti_contents : bytes;
  ti_short_id : N
}.

Record TxsMessage := {
  get_txs : list TransactionInfo
}.

Definition EMPTY_TX_VAL : bytes := [].

(** [BroadcastMessage] and [KeyMessage] as the service reads them. *)
Record BroadcastMessage := {
  bm_block_hash : Sha256Hash;
  bm_is_encrypted : bool;
  bm_blob : bytes
}.

Record KeyMessage := {
  km_block_hash : Sha256Hash;
  km_key : bytes
}.

(** Messages the gateway sends to its overlay peers. *)
Inductive BxMessage :=
| BlockHoldingMessage (block_hash : Sha256Hash) (network_num : N)
| BlockReceivedMessage (block_hash : Sha256Hash)
| GetTxsMessage (short_ids : list N)
| KeyMsg (msg : KeyMessage).

Inductive BlockStatEventType :=
| BLOCK_HOLD_REQUESTED
| BLOCK_HOLD_SENT_BY_GATEWAY_TO_PEERS
| BLOCK_HOLD_HELD_BLOCK
| BLOCK_HOLD_LIFTED
| BLOCK_HOLD_TIMED_OUT
| ENC_BLOCK_RECEIVED_BY_GATEWAY_FROM_NETWORK
| ENC_BLOCK_DECRYPTED_SUCCESS
| ENC_BLOCK_DECRYPTION_ERROR
| ENC_BLOCK_SENT_BLOCK_RECEIPT
| ENC_BLOCK_KEY_RECEIVED_BY_GATEWAY_FROM_NETWORK
| ENC_BLOCK_KEY_SENT_BY_GATEWAY_TO_PEERS
| BLOCK_CONVERSION_FAILED
| BLOCK_COMPRESSED
| BLOCK_TO_ENC_BLOCK_MATCH
| BLOCK_RECOVERY_COMPLETED
| BLOCK_RECOVERY_STARTED
| BLOCK_RECOVERY_REPEATED
| BLOCK_DECOMPRESSED_IGNORE_SEEN
| BLOCK_DECOMPRESSED_SUCCESS
| BLOCK_DECOMPRESSED_WITH_UNKNOWN_TXS.

Inductive TransactionStatEventType :=
| TX_RECEIVED_BY_GATEWAY_FROM_PEER
| TX_RECEIVED_BY_GATEWAY_FROM_PEER_IGNORE_SEEN
| TX_SHORT_ID_STORED_BY_GATEWAY
| TX_SHORT_ID_EMPTY_IN_MSG_FROM_RELAY
| TX_SENT_FROM_GATEWAY_TO_BLOCKCHAIN_NODE
| TX_UNKNOWN_SHORT_IDS_REQUESTED_BY_GATEWAY_FROM_RELAY
| TX_UNKNOWN_SHORT_IDS_REPLY_RECEIVED_BY_GATEWAY_FROM_RELAY
| TX_UNKNOWN_TRANSACTION_RECEIVED_BY_GATEWAY_FROM_RELAY.

Inductive GatewayTransactionStat :=
| log_duplicate_transaction_from_relay
| log_transaction_from_relay (tx_hash : Sha256Hash) (has_short_id is_compact : bool)
| log_redundant_transaction_content.

Inductive LogLevel := TRACE | INFO | WARNING | ERROR.

(** Everything the node does to the outside world, in the order it
    happens: overlay broadcasts ([node.broadcast]), blocks handed to the
    neutrality service, messages sent to the blockchain node, statistics
    events, log lines and the optional short-id mapping dump. *)
Inductive Effect :=
| Broadcast (msg : BxMessage) (broadcasting_conn : option Connection)
    (prepend_to_queue : bool) (connection_types : list ConnectionTypeFlag)
| PropagateBlockToNetwork (bx_block : bytes) (connection : Connection)
    (block_info : BlockInfo)
| SendMsgToNode (msg : AbstractMessage)
| BlockStat (block_hash : Sha256Hash) (event : BlockStatEventType)
| TxStat (tx_hash : Sha256Hash) (event : TransactionStatEventType)
| TxsStat (short_ids : list N) (event : TransactionStatEventType)
| GatewayTxStat (stat : GatewayTransactionStat)
| Log (level : LogLevel) (block_hash : option Sha256Hash)
| DumpShortIdMapping (block_hash : Sha256Hash) (mapping : list (N * Sha256Hash)).

(** [BlockHold]: the data class for holds.  [connection] is the attribute
    that [queue_block_for_processing] sets next to [block_message];
    [held_connection] is initialised to [None] by the constructor. *)
Record BlockHold := {
  hold_message_time : Q;
  holding_connection : Connection;
  block_message : option AbstractMessage;
  alarm : option nat;
  held_connection : option Connection;
  connection : option Connection
}.

Definition new_BlockHold (hold_message_time : Q) (holding_connection : Connection)
  : BlockHold :=
  {| hold_message_time := hold_message_time;
     holding_connection := holding_connection;
     block_message := None; alarm := None; held_connection := None;
     connection := None |}.

(** [BlockRecoveryInfo], the tuple handed out by
    [get_blocks_awaiting_recovery]. *)
Record BlockRecoveryInfo := {
  bri_block_hash : Sha256Hash;
  unknown_short_ids : list N;
  unknown_transaction_hashes : list Sha256Hash;
  recovery_start_time : Q
}.

(** Modelled from the spec: the alarm queue of [bxcommon] is absent.  An
    alarm is registered with a delay (and a slop when approximate) and a
    callback with its arguments; unregistering one marks it removed;
    firing one runs the callback once.  An alarm object is identified
    with its position in the queue.  Hold objects are shared between the
    holds map and the alarm's arguments, so the callback names the hold by
    its reference. *)
Inductive AlarmFn :=
| holding_timeout_fn (block_hash : Sha256Hash) (hold : nat)
| trigger_recovery_retry_fn (block_awaiting_recovery : BlockRecoveryInfo).

Inductive AlarmStatus := Pending | Removed | Fired.

#[global] Instance AlarmStatus_eq_dec : EqDecision AlarmStatus.
Proof. solve_decision. Defined.

Record Alarm := {
  fire_delay : Q;
  slop : option Q;
  alarm_fn : AlarmFn;
  alarm_status : AlarmStatus
}.

Definition set_alarm_status (st : AlarmStatus) (a : Alarm) : Alarm :=
  {| fire_delay := fire_delay a; slop := slop a; alarm_fn := alarm_fn a;
     alarm_status := st |}.

(** Modelled from the spec: the in-progress-blocks store is absent.
    Spec section 3: keyed by block hash, an entry holds an optional ciphertext
    and an optional key. *)
Record EncryptionCacheItem := {
  ciphertext : option bytes;
  key : option bytes
}.

(** Modelled from the spec: the block recovery service is absent.
    Spec section 4.4: per hash the bx-block and what is still unknown, with the
    start time and the number of attempts; blocks whose unknowns were all
    learned wait in [recovered_blocks] for a retry. *)
Record RecoveryRecord := {
  rr_bx_block : bytes;
  rr_unknown_sids : list N;
  rr_unknown_hashes : list Sha256Hash;
  rr_start_time : Q
}.

Record BlockRecoveryService := {
  recovery_records : gmap N RecoveryRecord;
  recovery_attempts_by_block : gmap N nat;
  recovered_blocks : list bytes
}.

(** Modelled from the spec: the block queuing service is absent.
    Spec section 4.5: an ordered queue of hashes, each with its block message
    or a placeholder waiting for recovery. *)
Record QueueEntry := {
  qe_block_hash : Sha256Hash;
  qe_block_msg : option AbstractMessage;
  qe_waiting_for_recovery : bool
}.

Record Opts := {
  blockchain_block_hold_timeout_s : Q;
  blockchain_block_recovery_timeout_s : Q;
  dump_short_id_mapping_compression : bool
}.

(** What a handler reads from the node without changing it. *)
Record NodeEnv := {
  opts : Opts;
  node_network_num : N;
  connection_pool : list Connection;
  node_conn : option Connection;
  remote_node_conn : option Connection
}.

(** The mutable state of the node and of its block processing service
    ([_holds] with the hold objects it refers to). *)
Record NodeState := {
  now : Q;
  blocks_seen : gset N;
  alarm_queue : list Alarm;
  in_progress_blocks : gmap N EncryptionCacheItem;
  tx_service : TransactionService;
  block_recovery_service : BlockRecoveryService;
  block_queuing_service : list QueueEntry;
  blocks_from_bdn_handling : gmap N N;
  effects : list Effect;
  holds : gmap N nat;
  hold_objects : list BlockHold
}.

Definition initial_state : NodeState :=
  {| now := 0%Q; blocks_seen := ∅; alarm_queue := [];
     in_progress_blocks := ∅; tx_service := empty_tx_service;
     block_recovery_service :=
       {| recovery_records := ∅; recovery_attempts_by_block := ∅;
          recovered_blocks := [] |};
     block_queuing_service := []; blocks_from_bdn_handling := ∅;
     effects := []; holds := ∅; hold_objects := [] |}.

Definition set_now (v : Q) (s : NodeState) : NodeState :=
  {| now := v; blocks_seen := blocks_seen s; alarm_queue := alarm_queue s;
     in_progress_blocks := in_progress_blocks s; tx_service := tx_service s;
     block_recovery_service := block_recovery_service s;
     block_queuing_service := block_queuing_service s;
     blocks_from_bdn_handling := blocks_from_bdn_handling s;
     effects := effects s; holds := holds s; hold_objects := hold_objects s |}.

Definition set_blocks_seen (v : gset N) (s : NodeState) : NodeState :=
  {| now := now s; blocks_seen := v; alarm_queue := alarm_queue s;
     in_progress_blocks := in_progress_blocks s; tx_service := tx_service s;
     block_recovery_service := block_recovery_service s;
     block_queuing_service := block_queuing_service s;
     blocks_from_bdn_handling := blocks_from_bdn_handling s;
     effects := effects s; holds := holds s; hold_objects := hold_objects s |}.

Definition set_alarm_queue (v : list Alarm) (s : NodeState) : NodeState :=
  {| now := now s; blocks_seen := blocks_seen s; alarm_queue := v;
     in_progress_blocks := in_progress_blocks s; tx_service := tx_service s;
     block_recovery_service := block_recovery_service s;
     block_queuing_service := block_queuing_service s;
     blocks_from_bdn_handling := blocks_from_bdn_handling s;
     effects := effects s; holds := holds s; hold_objects := hold_objects s |}.

Definition set_in_progress_blocks (v : gmap N EncryptionCacheItem) (s : NodeState)
  : NodeState :=
  {| now := now s; blocks_seen := blocks_seen s; alarm_queue := alarm_queue s;
     in_progress_blocks := v; tx_service := tx_service s;
     block_recovery_service := block_recovery_service s;
     block_queuing_service := block_queuing_service s;
     blocks_from_bdn_handling := blocks_from_bdn_handling s;
     effects := effects s; holds := holds s; hold_objects := hold_objects s |}.

Definition set_tx_service (v : TransactionService) (s : NodeState) : NodeState :=
  {| now := now s; blocks_seen := blocks_seen s; alarm_queue := alarm_queue s;
     in_progress_blocks := in_progress_blocks s; tx_service := v;
     block_recovery_service := block_recovery_service s;
     block_queuing_service := block_queuing_service s;
     blocks_from_bdn_handling := blocks_from_bdn_handling s;
     effects := effects s; holds := holds s; hold_objects := hold_objects s |}.

Definition set_block_recovery_service (v : BlockRecoveryService) (s : NodeState)
  : NodeState :=
  {| now := now s; blocks_seen := blocks_seen s; alarm_queue := alarm_queue s;
     in_progress_blocks := in_progress_blocks s; tx_service := tx_service s;
     block_recovery_service := v;
     block_queuing_service := block_queuing_service s;
     blocks_from_bdn_handling := blocks_from_bdn_handling s;
     effects := effects s; holds := holds s; hold_objects := hold_objects s |}.

Definition set_block_queuing_service (v : list QueueEntry) (s : NodeState) : NodeState :=
  {| now := now s; blocks_seen := blocks_seen s; alarm_queue := alarm_queue s;
     in_progress_blocks := in_progress_blocks s; tx_service := tx_service s;
     block_recovery_service := block_recovery_service s;
     block_queuing_service := v;
     blocks_from_bdn_handling := blocks_from_bdn_handling s;
     effects := effects s; holds := holds s; hold_objects := hold_objects s |}.

Definition set_blocks_from_bdn_handling (v : gmap N N) (s : NodeState) : NodeState :=
  {| now := now s; blocks_seen := blocks_seen s; alarm_queue := alarm_queue s;
     in_progress_blocks := in_progress_blocks s; tx_service := tx_service s;
     block_recovery_service := block_recovery_service s;
     block_queuing_service := block_queuing_service s;
     blocks_from_bdn_handling := v;
     effects := effects s; holds := holds s; hold_objects := hold_objects s |}.

Definition set_effects (v : list Effect) (s : NodeState) : NodeState :=
  {| now := now s; blocks_seen := blocks_seen s; alarm_queue := alarm_queue s;
     in_progress_blocks := in_progress_blocks s; tx_service := tx_service s;
     block_recovery_service := block_recovery_service s;
     block_queuing_service := block_queuing_service s;
     blocks_from_bdn_handling := blocks_from_bdn_handling s;
     effects := v; holds := holds s; hold_objects := hold_objects s |}.

Definition set_holds (v : gmap N nat) (s : NodeState) : NodeState :=
  {| now := now s; blocks_seen := blocks_seen s; alarm_queue := alarm_queue s;
     in_progress_blocks := in_progress_blocks s; tx_service := tx_service s;
     block_recovery_service := block_recovery_service s;
     block_queuing_service := block_queuing_service s;
     blocks_from_bdn_handling := blocks_from_bdn_handling s;
     effects := effects s; holds := v; hold_objects := hold_objects s |}.

Definition set_hold_objects (v : list BlockHold) (s : NodeState) : NodeState :=
  {| now := now s; blocks_seen := blocks_seen s; alarm_queue := alarm_queue s;
     in_progress_blocks := in_progress_blocks s; tx_service := tx_service s;
     block_recovery_service := block_recovery_service s;
     block_queuing_service := block_queuing_service s;
     blocks_from_bdn_handling := blocks_from_bdn_handling s;
     effects := effects s; holds := holds s; hold_objects := v |}.

(* ================================================================== *)
(** * The state-and-exception monad *)
(* ================================================================== *)

(** A handler maps a node state to the state it leaves behind and either
    its return value or the exception that escaped it; state changes made
    before a raise persist, as in Python. *)
Definition M (A : Type) : Type := NodeState → NodeState * result A.

#[global] Instance M_ret : MRet M := fun _ a s => (s, Ok a).
#[global] Instance M_bind : MBind M := fun _ _ f m s =>
  match m s with
  | (s', Ok a) => f a s'
  | (s', Raise e) => (s', Raise e)
  end.

Definition gets {A} (f : NodeState → A) : M A := fun s => (s, Ok (f s)).
Definition modify (f : NodeState → NodeState) : M unit := fun s => (f s, Ok tt).
Definition raise {A} (e : exn) : M A := fun s => (s, Raise e).
Definition lift {A} (r : result A) : M A := fun s => (s, r).
Definition ret {A} (a : A) : M A := fun s => (s, Ok a).
Definition pass : M unit := ret tt.

(** The state a handler leaves behind. *)
Definition exec {A} (m : M A) (s : NodeState) : NodeState := fst (m s).

Definition emit (e : Effect) : M unit :=
  modify (fun s => set_effects (effects s ++ [e]) s).

Definition when (b : bool) (m : M unit) : M unit := if b then m else pass.

Fixpoint for_each {A} (l : list A) (body : A → M unit) : M unit :=
  match l with
  | [] => pass
  | x :: rest => body x;; for_each rest body
  end.

(** [time.time()] *)
Definition time_time : M Q := gets now.

(** Time passes: the wall clock that [time.time()] reads moves on to
    [t]; it never runs backwards. *)
Definition clock_advance (t : Q) : M unit :=
  modify (λ s, if Qle_bool (now s) t then set_now t s else s).

(* ------------------------------------------------------------------ *)
(** ** Collaborators of the block processing service *)
(* ------------------------------------------------------------------ *)

(** Modelled from the spec: [AbstractNode.broadcast] is absent.  The
    message goes to the pooled connections of the requested types other
    than the one it came from; the connections written to are returned. *)
Definition node_broadcast (env : NodeEnv) (msg : BxMessage)
  (broadcasting_conn : option Connection) (prepend_to_queue : bool)
  (connection_types : list ConnectionTypeFlag) : M (list Connection) :=
  emit (Broadcast msg broadcasting_conn prepend_to_queue connection_types);;
  ret (filter (λ c, Some c ≠ broadcasting_conn ∧
                     Exists (λ f, f ∈ CONNECTION_TYPE c) connection_types)
               (connection_pool env)).

(** [alarm_queue.register_alarm(fire_delay, fn, *args)] returns the alarm. *)
Definition register_alarm (fire_delay : Q) (fn : AlarmFn) : M nat :=
  id ← gets (λ s, length (alarm_queue s));
  modify (λ s, set_alarm_queue
                 (alarm_queue s ++
                  [{| fire_delay := fire_delay; slop := None; alarm_fn := fn;
                      alarm_status := Pending |}]) s);;
  ret id.

Definition register_approx_alarm (fire_delay slop : Q) (fn : AlarmFn) : M nat :=
  id ← gets (λ s, length (alarm_queue s));
  modify (λ s, set_alarm_queue
                 (alarm_queue s ++
                  [{| fire_delay := fire_delay; slop := Some slop; alarm_fn := fn;
                      alarm_status := Pending |}]) s);;
  ret id.

(** [alarm_queue.unregister_alarm(alarm)] marks the alarm removed. *)
Definition unregister_alarm (alarm : nat) : M unit :=
  modify (λ s, set_alarm_queue
                 (alter (set_alarm_status Removed) alarm (alarm_queue s)) s).

(** [ExpiringDict.add]: the entry is stored in [contents].  The entry
    stays until it is deleted or until the sweep of the map,
    [holds_cleanup] below, finds that its time to live has passed. *)
Definition holds_add (block_hash : Sha256Hash) (hold : BlockHold) : M unit :=
  modify (λ s, set_holds (<[block_hash := length (hold_objects s)]> (holds s))
                 (set_hold_objects (hold_objects s ++ [hold]) s)).

(** The hold object that [_holds.contents[block_hash]] refers to. *)
Definition lookup_hold (s : NodeState) (block_hash : Sha256Hash) : option BlockHold :=
  ref ← holds s !! block_hash; hold_objects s !! ref.

Definition update_hold (ref : nat) (f : BlockHold → BlockHold) : M unit :=
  modify (λ s, set_hold_objects (alter f ref (hold_objects s)) s).

(** Modelled from the spec: the expiry of the holds map ([ExpiringDict]
    of [bxcommon] is absent).  Spec section 7: an expiring dictionary
    keeps an insertion-time index and is swept periodically; [_holds] is
    created with [blockchain_block_hold_timeout_s] as its time to live.
    A hold enters the map at the time recorded in its
    [hold_message_time]; the sweep removes the entries whose time to live
    has passed and leaves the alarm queue alone. *)
Definition hold_expired (time_to_live : Q) (s : NodeState) (ref : nat) : bool :=
  match hold_objects s !! ref with
  | Some hold => Qle_bool (hold_message_time hold + time_to_live) (now s)
  | None => false
  end.

Definition holds_cleanup (time_to_live : Q) : M unit :=
  modify (λ s, set_holds
                 (filter (λ kv, hold_expired time_to_live s kv.2 = false) (holds s)) s).

Definition has_encryption_key_for_hash (s : NodeState) (block_hash : Sha256Hash) : bool :=
  match in_progress_blocks s !! block_hash with
  | Some item => bool_decide (is_Some (key item))
  | None => false
  end.

Definition has_ciphertext_for_hash (s : NodeState) (block_hash : Sha256Hash) : bool :=
  match in_progress_blocks s !! block_hash with
  | Some item => bool_decide (is_Some (ciphertext item))
  | None => false
  end.

Definition add_ciphertext (block_hash : Sha256Hash) (c : bytes) : M unit :=
  modify (λ s, set_in_progress_blocks
    (<[block_hash :=
        {| ciphertext := Some c;
           key := item ← in_progress_blocks s !! block_hash; key item |}]>
       (in_progress_blocks s)) s).

Definition add_key (block_hash : Sha256Hash) (k : bytes) : M unit :=
  modify (λ s, set_in_progress_blocks
    (<[block_hash :=
        {| ciphertext := item ← in_progress_blocks s !! block_hash; ciphertext item;
           key := Some k |}]>
       (in_progress_blocks s)) s).

(** The symmetric cipher and hash of [bxcommon.utils.crypto]. *)
Class Crypto := {
  crypto_double_sha256 : bytes → Sha256Hash;
  symmetric_decrypt : bytes → bytes → option bytes
}.

(** The message converter of the node ([AbstractMessageConverter]) and the
    [block_hash()] accessor of the chain's block message. *)
Class AbstractMessageConverter := {
  block_hash_of : AbstractMessage → Sha256Hash;
  block_to_bx_block : AbstractMessage → TransactionService → result (bytes * BlockInfo);
  bx_block_to_block : bytes → TransactionService →
    result (option AbstractMessage * BlockInfo * list N * list Sha256Hash);
  bx_tx_to_tx : TxMessage → AbstractMessage
}.

(** Modelled from the spec: [decrypt_ciphertext]/[decrypt_and_get_payload]
    are absent.  Spec section 3: when ciphertext and key are both present the
    pair yields the plaintext and the entry is removed; a failed
    decryption keeps the entry. *)
Definition decrypt_with `{Crypto} (block_hash : Sha256Hash)
  (c : option bytes) (k : option bytes) : M (option bytes) :=
  item ← gets (λ s, in_progress_blocks s !! block_hash);
  match item with
  | None => raise KeyError
  | Some item =>
    let c := from_option Some (ciphertext item) c in
    let k := from_option Some (key item) k in
    match c, k with
    | Some cv, Some kv =>
      match symmetric_decrypt kv cv with
      | Some payload =>
        modify (λ s, set_in_progress_blocks (delete block_hash (in_progress_blocks s)) s);;
        ret (Some payload)
      | None =>
        modify (λ s, set_in_progress_blocks
                       (<[block_hash := {| ciphertext := c; key := k |}]>
                          (in_progress_blocks s)) s);;
        ret None
      end
    | _, _ =>
      modify (λ s, set_in_progress_blocks
                     (<[block_hash := {| ciphertext := c; key := k |}]>
                        (in_progress_blocks s)) s);;
      ret None
    end
  end.

Definition decrypt_ciphertext `{Crypto} (block_hash : Sha256Hash) (c : bytes)
  : M (option bytes) := decrypt_with block_hash (Some c) None.

Definition decrypt_and_get_payload `{Crypto} (block_hash : Sha256Hash) (k : bytes)
  : M (option bytes) := decrypt_with block_hash None (Some k).

Definition modify_tx_service (f : TransactionService → TransactionService) : M unit :=
  modify (λ s, set_tx_service (f (tx_service s)) s).

Definition modify_recovery (f : BlockRecoveryService → BlockRecoveryService) : M unit :=
  modify (λ s, set_block_recovery_service (f (block_recovery_service s)) s).

(** [block_recovery_service.add_block] *)
Definition recovery_add_block (bx_block : bytes) (block_hash : Sha256Hash)
  (unknown_sids : list N) (unknown_hashes : list Sha256Hash) : M unit :=
  t ← time_time;
  modify_recovery (λ r,
    {| recovery_records :=
         <[block_hash := {| rr_bx_block := bx_block; rr_unknown_sids := unknown_sids;
                            rr_unknown_hashes := unknown_hashes;
                            rr_start_time := t |}]> (recovery_records r);
       recovery_attempts_by_block := <[block_hash := 0]> (recovery_attempts_by_block r);
       recovered_blocks := recovered_blocks r |}).

(** [block_recovery_service.cancel_recovery_for_block]: the record of the
    block, attempts included, is destroyed. *)
Definition cancel_recovery_for_block (block_hash : Sha256Hash) : M unit :=
  modify_recovery (λ r,
    {| recovery_records := delete block_hash (recovery_records r);
       recovery_attempts_by_block := delete block_hash (recovery_attempts_by_block r);
       recovered_blocks := recovered_blocks r |}).

(** [recovery_attempts_by_block[block_hash]]; a block without an entry
    has made no attempt. *)
Definition recovery_attempts (s : NodeState) (block_hash : Sha256Hash) : nat :=
  default 0 (recovery_attempts_by_block (block_recovery_service s) !! block_hash).

Definition set_recovery_attempts (block_hash : Sha256Hash) (n : nat) : M unit :=
  modify_recovery (λ r,
    {| recovery_records := recovery_records r;
       recovery_attempts_by_block := <[block_hash := n]> (recovery_attempts_by_block r);
       recovered_blocks := recovered_blocks r |}).

Definition get_blocks_awaiting_recovery (s : NodeState) : list BlockRecoveryInfo :=
  (λ '(h, r), {| bri_block_hash := h; unknown_short_ids := rr_unknown_sids r;
                 unknown_transaction_hashes := rr_unknown_hashes r;
                 recovery_start_time := rr_start_time r |})
    <$> map_to_list (recovery_records (block_recovery_service s)).

(** A record with nothing left unknown is recovered: its bx-block moves to
    [recovered_blocks]. *)
Definition settle_record (r : BlockRecoveryService) (h : Sha256Hash)
  (rec : RecoveryRecord) : BlockRecoveryService :=
  match rr_unknown_sids rec, rr_unknown_hashes rec with
  | [], [] =>
    {| recovery_records := delete h (recovery_records r);
       recovery_attempts_by_block := recovery_attempts_by_block r;
       recovered_blocks := recovered_blocks r ++ [rr_bx_block rec] |}
  | _, _ =>
    {| recovery_records := <[h := rec]> (recovery_records r);
       recovery_attempts_by_block := recovery_attempts_by_block r;
       recovered_blocks := recovered_blocks r |}
  end.

(** [check_missing_sid(sid) -> bool]: true when some record was waiting
    for the sid; those records no longer wait for it. *)
Definition check_missing_sid (sid : N) : M bool :=
  waiting ← gets (λ s,
    filter (λ hr, sid ∈ rr_unknown_sids hr.2)
           (map_to_list (recovery_records (block_recovery_service s))));
  modify_recovery (λ r,
    foldl (λ r '(h, rec),
             settle_record r h
               {| rr_bx_block := rr_bx_block rec;
                  rr_unknown_sids := filter (λ x, x ≠ sid) (rr_unknown_sids rec);
                  rr_unknown_hashes := rr_unknown_hashes rec;
                  rr_start_time := rr_start_time rec |}) r waiting);;
  ret (bool_decide (waiting ≠ [])).

(** [check_missing_tx_hash(hash) -> bool], symmetric. *)
Definition check_missing_tx_hash (tx_hash : Sha256Hash) : M bool :=
  waiting ← gets (λ s,
    filter (λ hr, tx_hash ∈ rr_unknown_hashes hr.2)
           (map_to_list (recovery_records (block_recovery_service s))));
  modify_recovery (λ r,
    foldl (λ r '(h, rec),
             settle_record r h
               {| rr_bx_block := rr_bx_block rec;
                  rr_unknown_sids := rr_unknown_sids rec;
                  rr_unknown_hashes := filter (λ x, x ≠ tx_hash) (rr_unknown_hashes rec);
                  rr_start_time := rr_start_time rec |}) r waiting);;
  ret (bool_decide (waiting ≠ [])).

Definition clean_up_recovered_blocks : M unit :=
  modify_recovery (λ r,
    {| recovery_records := recovery_records r;
       recovery_attempts_by_block := recovery_attempts_by_block r;
       recovered_blocks := [] |}).

(** [block_hash in block_queuing_service] *)
Definition in_queuing_service (s : NodeState) (block_hash : Sha256Hash) : bool :=
  bool_decide (block_hash ∈ qe_block_hash <$> block_queuing_service s).

(** [block_queuing_service.push(hash, block_msg?, waiting_for_recovery)] *)
Definition queuing_push (block_hash : Sha256Hash) (block_msg : option AbstractMessage)
  (waiting_for_recovery : bool) : M unit :=
  modify (λ s, set_block_queuing_service
    (block_queuing_service s ++
     [{| qe_block_hash := block_hash; qe_block_msg := block_msg;
         qe_waiting_for_recovery := waiting_for_recovery |}]) s).

(** [block_queuing_service.update_recovered_block(hash, block_msg)] *)
Definition update_recovered_block (block_hash : Sha256Hash) (block_msg : AbstractMessage)
  : M unit :=
  modify (λ s, set_block_queuing_service
    ((λ e, if decide (qe_block_hash e = block_hash)
           then {| qe_block_hash := block_hash; qe_block_msg := Some block_msg;
                   qe_waiting_for_recovery := false |}
           else e) <$> block_queuing_service s) s).

(** [block_queuing_service.remove(hash)] *)
Definition queuing_remove (block_hash : Sha256Hash) : M unit :=
  modify (λ s, set_block_queuing_service
    (filter (λ e, qe_block_hash e ≠ block_hash) (block_queuing_service s)) s).

Definition track_block_from_bdn_handling_started (block_hash : Sha256Hash)
  (peer_desc : N) : M unit :=
  modify (λ s, set_blocks_from_bdn_handling
                 (<[block_hash := peer_desc]> (blocks_from_bdn_handling s)) s).

Definition track_block_from_bdn_handling_ended (block_hash : Sha256Hash) : M unit :=
  modify (λ s, set_blocks_from_bdn_handling
                 (delete block_hash (blocks_from_bdn_handling s)) s).

(* ================================================================== *)
(** * [block_processing_service.py] *)
(* ================================================================== *)

Section BlockProcessingService.
Context `{Crypto} `{AbstractMessageConverter}.
Variable env : NodeEnv.

Definition place_hold (block_hash : Sha256Hash) (connection : Connection) : M unit :=
  emit (BlockStat block_hash BLOCK_HOLD_REQUESTED);;
  seen ← gets (λ s, bool_decide (block_hash ∈ blocks_seen s));
  if (seen : bool) then pass else
  held ← gets (λ s, bool_decide (is_Some (holds s !! block_hash)));
  if negb held then
    t ← time_time;
    holds_add block_hash (new_BlockHold t connection);;
    conns ← node_broadcast env (BlockHoldingMessage block_hash (node_network_num env))
               (Some connection) false [RELAY_BLOCK; GATEWAY];
    when ((0 <? length conns))
         (emit (BlockStat block_hash BLOCK_HOLD_SENT_BY_GATEWAY_TO_PEERS))
  else pass.

(** [dump_short_id_mapping_compression]: the mapping sid -> hash of the
    compressed short ids, written to a file named after the block. *)
Fixpoint short_id_mapping (ts : TransactionService) (short_ids : list N)
  : result (list (N * Sha256Hash)) :=
  match short_ids with
  | [] => Ok []
  | sid :: rest =>
    match get_transaction ts sid with
    | (Some h, _, _) => m ← short_id_mapping ts rest; Ok ((sid, h) :: m)
    | (None, _, _) => Raise AttributeError
    end
  end.

Definition _process_and_broadcast_compressed_block (bx_block : bytes)
  (connection : Connection) (block_info : BlockInfo) (block_hash : Sha256Hash) : M unit :=
  emit (PropagateBlockToNetwork bx_block connection block_info);;
  modify_tx_service (λ ts, track_seen_short_ids_delayed ts block_hash
                             (bi_short_ids block_info)).

Definition _process_and_broadcast_block (block_message : AbstractMessage)
  (connection : Connection) : M unit :=
  let block_hash := block_hash_of block_message in
  r ← gets (λ s, block_to_bx_block block_message (tx_service s));
  match r with
  | Raise (MessageConversionError msg_hash _) =>
    emit (BlockStat msg_hash BLOCK_CONVERSION_FAILED);;
    emit (Log ERROR (Some msg_hash))
  | Raise e => raise e
  | Ok (bx_block, block_info) =>
    emit (BlockStat block_hash BLOCK_COMPRESSED);;
    (if dump_short_id_mapping_compression (opts env) then
       m ← gets (λ s, short_id_mapping (tx_service s) (bi_short_ids block_info));
       mapping ← lift m;
       emit (DumpShortIdMapping block_hash mapping)
     else pass);;
    _process_and_broadcast_compressed_block bx_block connection block_info block_hash
  end.

Definition queue_block_for_processing (block_message : AbstractMessage)
  (connection : Connection) : M unit :=
  let block_hash := block_hash_of block_message in
  ref ← gets (λ s, holds s !! block_hash);
  match ref with
  | Some ref =>
    hold ← gets (λ s, hold_objects s !! ref);
    match hold with
    | None => raise KeyError
    | Some hold =>
      emit (BlockStat block_hash BLOCK_HOLD_HELD_BLOCK);;
      match alarm hold with
      | None =>
        a ← register_alarm (blockchain_block_hold_timeout_s (opts env))
               (holding_timeout_fn block_hash ref);
        update_hold ref (λ hold,
          {| hold_message_time := hold_message_time hold;
             holding_connection := holding_connection hold;
             block_message := Some block_message;
             alarm := Some a;
             held_connection := held_connection hold;
             connection := Some connection |})
      | Some _ => pass
      end
    end
  | None =>
    conns ← node_broadcast env (BlockHoldingMessage block_hash (node_network_num env))
               (Some connection) true [RELAY_BLOCK; GATEWAY];
    when ((0 <? length conns))
         (emit (BlockStat block_hash BLOCK_HOLD_SENT_BY_GATEWAY_TO_PEERS));;
    _process_and_broadcast_block block_message connection
  end.

Definition cancel_hold_timeout (block_hash : Sha256Hash) (connection : Connection)
  : M unit :=
  ref ← gets (λ s, holds s !! block_hash);
  match ref with
  | Some ref =>
    emit (BlockStat block_hash BLOCK_HOLD_LIFTED);;
    hold ← gets (λ s, hold_objects s !! ref);
    match hold with
    | None => raise KeyError
    | Some hold =>
      match alarm hold with
      | Some a => unregister_alarm a
      | None => pass
      end;;
      modify (λ s, set_holds (delete block_hash (holds s)) s)
    end
  | None => pass
  end.

Definition _holding_timeout (block_hash : Sha256Hash) (hold : nat) : M unit :=
  h ← gets (λ s, hold_objects s !! hold);
  match h with
  | Some hold =>
    match connection hold with
    | Some connection =>
      emit (BlockStat block_hash BLOCK_HOLD_TIMED_OUT);;
      match block_message hold with
      | Some block_message => _process_and_broadcast_block block_message connection
      | None => raise AttributeError
      end
    | None => raise AttributeError
    end
  | None => raise KeyError
  end.

Definition start_transaction_recovery (unknown_sids : list N)
  (unknown_hashes : list Sha256Hash) (block_hash : Sha256Hash)
  (connection : option Connection) : M unit :=
  all_unknown_sids ← gets (λ s,
    unknown_sids ++ (get_short_id (tx_service s) <$> unknown_hashes));
  let get_txs_message := GetTxsMessage all_unknown_sids in
  node_broadcast env get_txs_message None false [RELAY_TRANSACTION];;
  match connection with
  | Some _ =>
    emit (TxsStat all_unknown_sids TX_UNKNOWN_SHORT_IDS_REQUESTED_BY_GATEWAY_FROM_RELAY);;
    emit (BlockStat block_hash BLOCK_RECOVERY_STARTED)
  | None => emit (BlockStat block_hash BLOCK_RECOVERY_REPEATED)
  end.

Definition _on_block_decompressed (block_msg : AbstractMessage) : M unit := pass.

Definition _handle_decrypted_block (bx_block : bytes) (connection : Connection)
  (encrypted_block_hash_hex : option Sha256Hash) (recovered : bool) : M unit :=
  if bool_decide (is_Some (node_conn env) ∨ is_Some (remote_node_conn env)) then
    r ← gets (λ s, bx_block_to_block bx_block (tx_service s));
    match r with
    | Raise (MessageConversionError msg_hash _) =>
      emit (BlockStat msg_hash BLOCK_CONVERSION_FAILED);;
      modify_tx_service (λ ts, on_block_cleaned_up ts msg_hash);;
      emit (Log WARNING (Some msg_hash))
    | Raise e => raise e
    | Ok (block_message, block_info, unknown_sids, unknown_hashes) =>
      let block_hash := bi_block_hash block_info in
      let all_sids := bi_short_ids block_info in
      when (bool_decide (is_Some encrypted_block_hash_hex))
           (emit (BlockStat block_hash BLOCK_TO_ENC_BLOCK_MATCH));;
      cancel_hold_timeout block_hash connection;;
      when recovered (emit (BlockStat block_hash BLOCK_RECOVERY_COMPLETED));;
      seen ← gets (λ s, bool_decide (block_hash ∈ blocks_seen s));
      if (seen : bool) then
        emit (BlockStat block_hash BLOCK_DECOMPRESSED_IGNORE_SEEN);;
        track_block_from_bdn_handling_ended block_hash;;
        modify_tx_service (λ ts, track_seen_short_ids ts block_hash all_sids)
      else
        emit (Log INFO (Some block_hash));;
        match block_message with
        | Some block_message =>
          emit (BlockStat block_hash BLOCK_DECOMPRESSED_SUCCESS);;
          _on_block_decompressed block_message;;
          queued ← gets (λ s, in_queuing_service s block_hash);
          (if recovered || queued
           then update_recovered_block block_hash block_message
           else queuing_push block_hash (Some block_message) false);;
          cancel_recovery_for_block block_hash;;
          modify (λ s, set_blocks_seen ({[block_hash]} ∪ blocks_seen s) s);;
          modify_tx_service (λ ts, track_seen_short_ids ts block_hash all_sids)
        | None =>
          queued ← gets (λ s, in_queuing_service s block_hash);
          if queued && negb recovered then emit (Log TRACE (Some block_hash))
          else
            recovery_add_block bx_block block_hash unknown_sids unknown_hashes;;
            emit (BlockStat block_hash BLOCK_DECOMPRESSED_WITH_UNKNOWN_TXS);;
            emit (Log WARNING (Some block_hash));;
            start_transaction_recovery unknown_sids unknown_hashes block_hash
              (Some connection);;
            if recovered then emit (Log ERROR (Some block_hash))
            else queuing_push block_hash None true
        end
    end
  else emit (Log WARNING None).

Definition process_block_broadcast (msg : BroadcastMessage) (connection : Connection)
  : M unit :=
  emit (BlockStat (bm_block_hash msg) ENC_BLOCK_RECEIVED_BY_GATEWAY_FROM_NETWORK);;
  let block_hash := bm_block_hash msg in
  let is_encrypted := bm_is_encrypted msg in
  track_block_from_bdn_handling_started block_hash (peer_desc connection);;
  if negb is_encrypted then
    let block := bm_blob msg in
    _handle_decrypted_block block connection None false
  else
    let cipherblob := bm_blob msg in
    let expected_hash := crypto_double_sha256 cipherblob in
    if negb (block_hash =? expected_hash)%N then emit (Log WARNING (Some block_hash))
    else
      has_key ← gets (λ s, has_encryption_key_for_hash s block_hash);
      if (has_key : bool) then
        emit (Log TRACE (Some block_hash));;
        block ← decrypt_ciphertext block_hash cipherblob;
        match block with
        | Some block =>
          emit (BlockStat block_hash ENC_BLOCK_DECRYPTED_SUCCESS);;
          _handle_decrypted_block block connection (Some block_hash) false
        | None => emit (BlockStat block_hash ENC_BLOCK_DECRYPTION_ERROR)
        end
      else
        emit (Log TRACE (Some block_hash));;
        add_ciphertext block_hash cipherblob;;
        let block_received_message := BlockReceivedMessage block_hash in
        (* the service passes itself as the broadcasting connection, so no
           pooled connection is excluded *)
        conns ← node_broadcast env block_received_message None false [GATEWAY];
        emit (BlockStat block_hash ENC_BLOCK_SENT_BLOCK_RECEIPT).

Definition process_block_key (msg : KeyMessage) (connection : Connection) : M unit :=
  let key := km_key msg in
  let block_hash := km_block_hash msg in
  emit (BlockStat block_hash ENC_BLOCK_KEY_RECEIVED_BY_GATEWAY_FROM_NETWORK);;
  has_key ← gets (λ s, has_encryption_key_for_hash s block_hash);
  if (has_key : bool) then pass else
  has_ciphertext ← gets (λ s, has_ciphertext_for_hash s block_hash);
  (if (has_ciphertext : bool) then
     emit (Log TRACE (Some block_hash));;
     block ← decrypt_and_get_payload block_hash key;
     match block with
     | Some block =>
       emit (BlockStat block_hash ENC_BLOCK_DECRYPTED_SUCCESS);;
       _handle_decrypted_block block connection (Some block_hash) false
     | None => emit (BlockStat block_hash ENC_BLOCK_DECRYPTION_ERROR)
     end
   else
     emit (Log TRACE (Some block_hash));;
     add_key block_hash key);;
  conns ← node_broadcast env (KeyMsg msg) (Some connection) false [GATEWAY];
  when ((0 <? length conns))
       (emit (BlockStat block_hash ENC_BLOCK_KEY_SENT_BY_GATEWAY_TO_PEERS)).

Definition retry_broadcast_recovered_blocks (connection : Connection) : M unit :=
  blocks ← gets (λ s, recovered_blocks (block_recovery_service s));
  match blocks with
  | [] => pass
  | _ =>
    for_each blocks (λ msg, _handle_decrypted_block msg connection None true);;
    clean_up_recovered_blocks
  end.

Definition _compute_hold_timeout (block_message : AbstractMessage) : Q :=
  blockchain_block_hold_timeout_s (opts env).

Definition schedule_recovery_retry (block_awaiting_recovery : BlockRecoveryInfo)
  : M unit :=
  let block_hash := bri_block_hash block_awaiting_recovery in
  recovery_attempts ← gets (λ s, recovery_attempts s block_hash);
  t ← time_time;
  let recovery_timed_out :=
    Qle_bool (blockchain_block_recovery_timeout_s (opts env))
             (t - recovery_start_time block_awaiting_recovery) in
  if (BLOCK_RECOVERY_MAX_RETRY_ATTEMPTS <=? recovery_attempts)
     || recovery_timed_out then
    emit (Log ERROR (Some block_hash));;
    cancel_recovery_for_block block_hash;;
    queuing_remove block_hash
  else
    match BLOCK_RECOVERY_RECOVERY_INTERVAL_S !! recovery_attempts with
    | None => raise IndexError
    | Some delay =>
      register_approx_alarm delay (delay / 2)%Q
        (trigger_recovery_retry_fn block_awaiting_recovery);;
      pass
    end.

Definition _trigger_recovery_retry (block_awaiting_recovery : BlockRecoveryInfo)
  : M unit :=
  let block_hash := bri_block_hash block_awaiting_recovery in
  n ← gets (λ s, recovery_attempts s block_hash);
  set_recovery_attempts block_hash (n + 1);;
  start_transaction_recovery (unknown_short_ids block_awaiting_recovery)
    (unknown_transaction_hashes block_awaiting_recovery) block_hash None.

(** The alarm queue fires a pending alarm: the alarm leaves the queue and
    its callback runs.  Removed and already fired alarms do nothing. *)
Definition run_alarm_fn (fn : AlarmFn) : M unit :=
  match fn with
  | holding_timeout_fn block_hash hold => _holding_timeout block_hash hold
  | trigger_recovery_retry_fn info => _trigger_recovery_retry info
  end.

Definition fire_alarm (id : nat) : M unit :=
  a ← gets (λ s, alarm_queue s !! id);
  match a with
  | Some a =>
    if decide (alarm_status a = Pending) then
      modify (λ s, set_alarm_queue
                     (alter (set_alarm_status Fired) id (alarm_queue s)) s);;
      run_alarm_fn (alarm_fn a)
    else pass
  | None => pass
  end.

(* ------------------------------------------------------------------ *)
(** ** [abstract_relay_connection.py]: the [tx] handler *)
(* ------------------------------------------------------------------ *)

(** [not short_id]: the short id is [None] or 0. *)
Definition short_id_absent (short_id : option N) : bool :=
  match short_id with
  | None => true
  | Some sid => (sid =? 0)%N
  end.

Definition send_msg_to_node (msg : AbstractMessage) : M unit := emit (SendMsgToNode msg).

Definition msg_tx (self : Connection) (msg : TxMessage) : M unit :=
  if negb (has_flag (CONNECTION_TYPE self) RELAY_TRANSACTION) then
    emit (Log ERROR None)
  else
    let short_id := tx_short_id msg in
    let tx_hash := tx_hash msg in
    let tx_val := tx_val msg in
    let is_empty := bool_decide (tx_val = EMPTY_TX_VAL) in
    seen ← gets (λ s, has_transaction_short_id (tx_service s) tx_hash &&
                         has_transaction_contents (tx_service s) tx_hash);
    if short_id_absent short_id && seen then
      emit (GatewayTxStat log_duplicate_transaction_from_relay);;
      emit (TxStat tx_hash TX_RECEIVED_BY_GATEWAY_FROM_PEER_IGNORE_SEEN);;
      emit (Log TRACE (Some tx_hash))
    else
      emit (TxStat tx_hash TX_RECEIVED_BY_GATEWAY_FROM_PEER);;
      emit (GatewayTxStat (log_transaction_from_relay tx_hash
                             (bool_decide (is_Some short_id)) is_empty));;
      attempt_recovery ←
        (if short_id_absent short_id then
           emit (TxStat tx_hash TX_SHORT_ID_EMPTY_IN_MSG_FROM_RELAY);;
           ret false
         else
           let sid := default 0%N short_id in
           modify_tx_service (λ ts, assign_short_id ts tx_hash sid);;
           was_missing ← check_missing_sid sid;
           emit (TxStat tx_hash TX_SHORT_ID_STORED_BY_GATEWAY);;
           ret was_missing);
      has_contents ← gets (λ s, has_transaction_contents (tx_service s) tx_hash);
      if (has_contents : bool) then
        emit (Log TRACE (Some tx_hash));;
        when (negb is_empty)
             (emit (TxStat tx_hash TX_RECEIVED_BY_GATEWAY_FROM_PEER_IGNORE_SEEN);;
              emit (GatewayTxStat log_redundant_transaction_content));;
        when attempt_recovery (retry_broadcast_recovered_blocks self)
      else
        attempt_recovery ←
          (if negb is_empty then
             emit (Log TRACE (Some tx_hash));;
             modify_tx_service (λ ts, set_transaction_contents ts tx_hash tx_val);;
             was_missing ← check_missing_tx_hash tx_hash;
             when (bool_decide (is_Some (node_conn env)))
                  (send_msg_to_node (bx_tx_to_tx msg));;
             emit (TxStat tx_hash TX_SENT_FROM_GATEWAY_TO_BLOCKCHAIN_NODE);;
             ret (attempt_recovery || was_missing)
           else ret attempt_recovery);
        when attempt_recovery (retry_broadcast_recovered_blocks self).

(* ------------------------------------------------------------------ *)
(** ** [abstract_relay_connection.py]: the other handlers *)
(* ------------------------------------------------------------------ *)

Definition msg_broadcast (self : Connection) (msg : BroadcastMessage) : M unit :=
  if has_flag (CONNECTION_TYPE self) RELAY_BLOCK then process_block_broadcast msg self
  else emit (Log ERROR None).

Definition msg_key (self : Connection) (msg : KeyMessage) : M unit :=
  if has_flag (CONNECTION_TYPE self) RELAY_BLOCK then process_block_key msg self
  else emit (Log ERROR None).

Definition msg_txs (self : Connection) (msg : TxsMessage) : M unit :=
  if negb (has_flag (CONNECTION_TYPE self) RELAY_TRANSACTION) then
    emit (Log ERROR None)
  else
    let transactions := get_txs msg in
    emit (TxsStat (ti_short_id <$> transactions)
            TX_UNKNOWN_SHORT_IDS_REPLY_RECEIVED_BY_GATEWAY_FROM_RELAY);;
    for_each transactions (λ transaction,
      let tx_hash := ti_hash transaction in
      let transaction_contents := ti_contents transaction in
      let short_id := ti_short_id transaction in
      check_missing_sid short_id;;
      has_sid ← gets (λ s, has_short_id (tx_service s) short_id);
      when (negb has_sid)
           (modify_tx_service (λ ts, assign_short_id ts tx_hash short_id));;
      check_missing_tx_hash tx_hash;;
      has_contents ← gets (λ s, has_transaction_contents (tx_service s) tx_hash);
      when (negb has_contents)
           (modify_tx_service (λ ts,
              set_transaction_contents ts tx_hash transaction_contents));;
      emit (TxStat tx_hash TX_UNKNOWN_TRANSACTION_RECEIVED_BY_GATEWAY_FROM_RELAY));;
    retry_broadcast_recovered_blocks self;;
    awaiting ← gets get_blocks_awaiting_recovery;
    for_each awaiting schedule_recovery_retry.

Definition msg_block_holding (self : Connection) (block_hash : Sha256Hash) : M unit :=
  place_hold block_hash self.

End BlockProcessingService.

(** The Bitcoin converter as the node's message converter.  [bx_tx_to_tx]
    belongs to the abstract converter, which is absent; a transaction
    message converts to the native message carrying its contents. *)
#[global] Instance BtcNormalMessageConverter `{BtcWire} : AbstractMessageConverter :=
  {| block_hash_of := msg_block_hash;
     block_to_bx_block := btc_block_to_bx_block;
     bx_block_to_block := btc_bx_block_to_block;
     bx_tx_to_tx := λ m, {| buf := tx_val m |} |}.

(* ================================================================== *)
(** * [eth_node_discovery_connection.py] *)
(* ================================================================== *)

Module EthDiscovery.

(** [PingEthDiscoveryMessage(None, private_key, version, from, to,
    expiration)]: the ping is signed with the given private key. *)
Record PingEthDiscoveryMessage := {
  ping_private_key : bytes;
  ping_version : N;
  ping_listen_address : N * N * N;
  ping_remote_address : N * N * N;
  ping_expiration : Z
}.

Record PongEthDiscoveryMessage := {
  pong_public_key : bytes
}.

Inductive DiscoveryAlarmFn := pong_timeout_fn.

(** The discovery connection together with the parts of the Ethereum
    gateway node its handlers touch: the node's key material, its alarm
    queue and the messages enqueued on the connection. *)
Record State := {
  (* node *)
  private_key : bytes;
  remote_public_key : option bytes;
  alarms : list (Q * DiscoveryAlarmFn * AlarmStatus);
  (* connection *)
  can_send_pings : bool;
  ping_message : option PingEthDiscoveryMessage;
  pong_message : option PongEthDiscoveryMessage;
  _pong_received : bool;
  enqueued : list PingEthDiscoveryMessage;
  marked_for_close : bool;
  warnings : nat
}.

(** Modelled from the spec: [AbstractConnection.send_ping] is absent; it
    enqueues the connection's ping message when pings are enabled and the
    connection is not closing. *)
Definition send_ping (s : State) : State :=
  match ping_message s with
  | Some ping =>
    if can_send_pings s && negb (marked_for_close s) then
      {| private_key := private_key s; remote_public_key := remote_public_key s;
         alarms := alarms s; can_send_pings := can_send_pings s;
         ping_message := ping_message s; pong_message := pong_message s;
         _pong_received := _pong_received s; enqueued := enqueued s ++ [ping];
         marked_for_close := marked_for_close s; warnings := warnings s |}
    else s
  | None => s
  end.

Definition mark_for_close (s : State) : State :=
  {| private_key := private_key s; remote_public_key := remote_public_key s;
     alarms := alarms s; can_send_pings := can_send_pings s;
     ping_message := ping_message s; pong_message := pong_message s;
     _pong_received := _pong_received s; enqueued := enqueued s;
     marked_for_close := true; warnings := warnings s |}.

Definition log_warning (s : State) : State :=
  {| private_key := private_key s; remote_public_key := remote_public_key s;
     alarms := alarms s; can_send_pings := can_send_pings s;
     ping_message := ping_message s; pong_message := pong_message s;
     _pong_received := _pong_received s; enqueued := enqueued s;
     marked_for_close := marked_for_close s; warnings := S (warnings s) |}.

Definition register_alarm (fire_delay : Q) (fn : DiscoveryAlarmFn) (s : State) : State :=
  {| private_key := private_key s; remote_public_key := remote_public_key s;
     alarms := alarms s ++ [(fire_delay, fn, Pending)];
     can_send_pings := can_send_pings s;
     ping_message := ping_message s; pong_message := pong_message s;
     _pong_received := _pong_received s; enqueued := enqueued s;
     marked_for_close := marked_for_close s; warnings := warnings s |}.

(** Modelled from the spec: [set_remote_public_key] of the Ethereum
    gateway node is absent.  Spec section 4.6: on pong the remote public key is
    recorded and the discovery connection is then closed. *)
Definition set_remote_public_key (public_key : bytes) (s : State) : State :=
  mark_for_close
    {| private_key := private_key s; remote_public_key := Some public_key;
       alarms := alarms s; can_send_pings := can_send_pings s;
       ping_message := ping_message s; pong_message := pong_message s;
       _pong_received := _pong_received s; enqueued := enqueued s;
       marked_for_close := marked_for_close s; warnings := warnings s |}.

(** [EthNodeDiscoveryConnection.__init__] on a node holding
    [node_private_key], at wall-clock time [time]. *)
Definition init (node_private_key : bytes) (external_ip external_port : N)
  (peer_ip peer_port : N) (time : Q) : State :=
  let self :=
    {| private_key := node_private_key; remote_public_key := None; alarms := [];
       can_send_pings := true;
       ping_message :=
         Some {| ping_private_key := node_private_key;
                 ping_version := P2P_PROTOCOL_VERSION;
                 ping_listen_address := (external_ip, external_port, external_port);
                 ping_remote_address := (peer_ip, peer_port, peer_port);
                 ping_expiration := (Qfloor time + PING_MSG_TTL_SEC)%Z |};
       pong_message := None; _pong_received := false; enqueued := [];
       marked_for_close := false; warnings := 0 |} in
  register_alarm DISCOVERY_PONG_TIMEOUT_SEC pong_timeout_fn (send_ping self).

Definition msg_ping (msg : PingEthDiscoveryMessage) (s : State) : State := s.

Definition msg_pong (msg : PongEthDiscoveryMessage) (s : State) : State :=
  let s := set_remote_public_key (pong_public_key msg) s in
  {| private_key := private_key s; remote_public_key := remote_public_key s;
     alarms := alarms s; can_send_pings := can_send_pings s;
     ping_message := ping_message s; pong_message := pong_message s;
     _pong_received := true; enqueued := enqueued s;
     marked_for_close := marked_for_close s; warnings := warnings s |}.

Definition _pong_timeout (s : State) : State :=
  if negb (_pong_received s) then mark_for_close (log_warning s) else s.

(** The alarm queue fires the alarm at position [id] when it is pending. *)
Definition fire_alarm (id : nat) (s : State) : State :=
  match alarms s !! id with
  | Some (d, pong_timeout_fn, Pending) =>
    _pong_timeout
      {| private_key := private_key s; remote_public_key := remote_public_key s;
         alarms := <[id := (d, pong_timeout_fn, Fired)]> (alarms s);
         can_send_pings := can_send_pings s;
         ping_message := ping_message s; pong_message := pong_message s;
         _pong_received := _pong_received s; enqueued := enqueued s;
         marked_for_close := marked_for_close s; warnings := warnings s |}
  | _ => s
  end.

End EthDiscovery.
(* ================================================================== *)
(** * Statements about the Bitcoin converter *)
(* ================================================================== *)

Section RoundTripStatements.
Context `{BtcWire}.

(** The contract of the absent short-ids serializer: it accepts every
    list of u32 short ids, and the deserializer reads back, from the
    offset where a serialized section starts, the list and the section's
    length. *)
Definition short_ids_serializer_spec : Prop :=
  (∀ sids : list N,
      Forall (λ sid, (sid < 2 ^ 32)%N) sids → (N.of_nat (length sids) < 2 ^ 32)%N →
      ∃ ser, serialize_short_ids_into_bytes sids = Ok ser) ∧
  (∀ (sids : list N) (ser pre : bytes),
      serialize_short_ids_into_bytes sids = Ok ser →
      deserialize_short_ids_from_buffer (pre ++ ser) (length pre) =
        Ok (sids, length ser)).

(** A well-formed block message: the buffer is exactly the header piece
    (message header, 80-byte block header, transaction count) followed
    by the transactions, and the payload length field of the message
    header frames the whole buffer. *)
Definition well_formed_block (B : AbstractMessage) : Prop :=
  buf B = msg_header B ++ concat (msg_txns B) ∧
  (∃ cnt vs, btc_varint_to_int (msg_header B)
               (BTC_HDR_COMMON_OFF + BTC_BLOCK_HDR_SIZE) = Ok (cnt, vs) ∧
             length (msg_header B) = BTC_HDR_COMMON_OFF + BTC_BLOCK_HDR_SIZE + vs) ∧
  (∃ payload_len, struct_unpack_from 4 (buf B) 16 = Ok payload_len ∧
                  N.to_nat payload_len + BTC_HDR_COMMON_OFF = length (buf B)) ∧
  (N.of_nat (length (msg_header B) + length (msg_txns B) + 8) < 2 ^ 64)%N ∧
  (N.of_nat (length (msg_txns B)) < 2 ^ 32)%N.

(** The transaction has a short id in the service. *)
Definition tx_has_short_id (ts : TransactionService) (tx : bytes) : Prop :=
  get_short_id ts (get_txid tx) ≠ NULL_TX_SID ∧
  (get_short_id ts (get_txid tx) < 2 ^ 32)%N.

(** The transaction has a short id and the service resolves that short
    id to the transaction's contents. *)
Definition tx_known (ts : TransactionService) (tx : bytes) : Prop :=
  tx_has_short_id ts tx ∧
  ∃ h, get_transaction ts (get_short_id ts (get_txid tx)) =
         (Some h, Some tx, get_short_id ts (get_txid tx)).

(** What the round-trip property promises for a block [B]. *)
Definition round_trips (ts : TransactionService) (B : AbstractMessage) : Prop :=
  ∃ bx info msg info',
    btc_block_to_bx_block B ts = Ok (bx, info) ∧
    btc_bx_block_to_block bx ts = Ok (Some msg, info', [], []) ∧
    rawbytes msg = rawbytes B.

Definition block_short_ids (ts : TransactionService) (txns : list bytes) : list N :=
  map (λ tx, get_short_id ts (get_txid tx)) txns.

(** The round-trip property read with "has a known short id" alone as
    its premise. *)
Definition round_trip_claim (ts : TransactionService) (B : AbstractMessage) : Prop :=
  short_ids_serializer_spec →
  well_formed_block B →
  Forall (tx_has_short_id ts) (msg_txns B) →
  round_trips ts B.

(** The contract of the absent tx-size walker that bounds the body walk:
    a transaction is never empty. *)
Definition tx_sizes_positive : Prop :=
  ∀ (b : bytes) (off size : nat), get_next_tx_size b off = Ok size → 0 < size.

(** [walk_reaches bx sids bo ts n off0 idx0 off idx]: the body walk of
    [parse_bx_block_transactions], started at offset [off0] with short-id
    index [idx0], is at offset [off] with index [idx] after [n]
    iterations. *)
Inductive walk_reaches (bx_block : bytes) (short_ids : list N)
  (block_offsets : BlockOffsets) (ts : TransactionService)
  : nat → nat → nat → nat → nat → Prop :=
| walk_here off idx :
    walk_reaches bx_block short_ids block_offsets ts 0 off idx off idx
| walk_indicator n off0 idx0 off idx sid h tx :
    off0 < short_id_offset block_offsets →
    bx_block !! off0 = Some BTC_SHORT_ID_INDICATOR →
    short_ids !! idx0 = Some sid →
    get_transaction ts sid = (h, Some tx, sid) →
    walk_reaches bx_block short_ids block_offsets ts n
      (off0 + BTC_SHORT_ID_INDICATOR_LENGTH) (idx0 + 1) off idx →
    walk_reaches bx_block short_ids block_offsets ts (S n) off0 idx0 off idx
| walk_transaction n off0 idx0 off idx b size :
    off0 < short_id_offset block_offsets →
    bx_block !! off0 = Some b →
    b ≠ BTC_SHORT_ID_INDICATOR →
    get_next_tx_size bx_block off0 = Ok size →
    walk_reaches bx_block short_ids block_offsets ts n (off0 + size) idx0 off idx →
    walk_reaches bx_block short_ids block_offsets ts (S n) off0 idx0 off idx.

(** The walk stands on a short-id indicator while every entry of the
    short-ids array has been consumed. *)
Definition index_overflow (bx_block : bytes) (short_ids : list N)
  (block_offsets : BlockOffsets) (off idx : nat) : Prop :=
  off < short_id_offset block_offsets ∧
  bx_block !! off = Some BTC_SHORT_ID_INDICATOR ∧
  length short_ids ≤ idx.

End RoundTripStatements.

(* ================================================================== *)
(** * Observations and statements about the service *)
(* ================================================================== *)

(** The overlay broadcasts among the node's effects, in order. *)
Definition is_broadcast (e : Effect) : bool :=
  match e with
  | Broadcast _ _ _ _ => true
  | _ => false
  end.

Definition broadcasts (s : NodeState) : list Effect :=
  filter (λ e, is_broadcast e) (effects s).

(** The blocks handed to the neutrality service, in order. *)
Definition propagated (s : NodeState) : list (bytes * Connection * BlockInfo) :=
  omap (λ e, match e with
             | PropagateBlockToNetwork bx c info => Some (bx, c, info)
             | _ => None
             end) (effects s).

(** The messages forwarded to the blockchain node, in order. *)
Definition sent_to_node (s : NodeState) : list AbstractMessage :=
  omap (λ e, match e with SendMsgToNode m => Some m | _ => None end) (effects s).

(** The duplicate counter of the gateway transaction statistics. *)
Definition is_duplicate_stat (e : Effect) : bool :=
  match e with
  | GatewayTxStat log_duplicate_transaction_from_relay => true
  | _ => false
  end.

Definition duplicates_from_relay (s : NodeState) : nat :=
  length (filter (λ e, is_duplicate_stat e) (effects s)).

(** The stores of the node other than the transaction service and the
    effect log. *)
Definition same_rest (s s' : NodeState) : Prop :=
  now s' = now s ∧
  blocks_seen s' = blocks_seen s ∧
  alarm_queue s' = alarm_queue s ∧
  in_progress_blocks s' = in_progress_blocks s ∧
  block_recovery_service s' = block_recovery_service s ∧
  block_queuing_service s' = block_queuing_service s ∧
  blocks_from_bdn_handling s' = blocks_from_bdn_handling s ∧
  holds s' = holds s ∧
  hold_objects s' = hold_objects s.

(** The parts of the node a handler leaves alone when all it does is
    emit effects. *)
Definition same_stores (s s' : NodeState) : Prop :=
  tx_service s' = tx_service s ∧ same_rest s s'.

(** Everything but the effect log and the record of blocks being handled
    is unchanged. *)
Definition same_but_tracking (s s' : NodeState) : Prop :=
  now s' = now s ∧
  blocks_seen s' = blocks_seen s ∧
  alarm_queue s' = alarm_queue s ∧
  in_progress_blocks s' = in_progress_blocks s ∧
  tx_service s' = tx_service s ∧
  block_recovery_service s' = block_recovery_service s ∧
  block_queuing_service s' = block_queuing_service s ∧
  holds s' = holds s ∧
  hold_objects s' = hold_objects s.

(** The effect of the optional short-id mapping dump of
    [_process_and_broadcast_block]. *)
Definition dump_effects (env : NodeEnv) (ts : TransactionService)
  (block_hash : Sha256Hash) (info : BlockInfo) : result (list Effect) :=
  if dump_short_id_mapping_compression (opts env) then
    mapping ← short_id_mapping ts (bi_short_ids info);
    Ok [DumpShortIdMapping block_hash mapping]
  else Ok [].

(** The invariant of the hold protocol: every entry of the holds map
    refers to a hold object, and every pending hold-timeout alarm belongs
    to the hold currently stored for its block hash and is the alarm
    recorded on that hold. *)
Definition hold_inv (s : NodeState) : Prop :=
  (∀ h ref, holds s !! h = Some ref → is_Some (hold_objects s !! ref)) ∧
  (∀ i a h ref,
     alarm_queue s !! i = Some a →
     alarm_status a = Pending →
     alarm_fn a = holding_timeout_fn h ref →
     holds s !! h = Some ref ∧
     ∃ hold, hold_objects s !! ref = Some hold ∧ alarm hold = Some i).

(** The alarm [i] is a hold-timeout alarm of block hash [h]. *)
Definition hold_alarm_of (h : Sha256Hash) (i : nat) (s : NodeState) : Prop :=
  ∃ a ref, alarm_queue s !! i = Some a ∧ alarm_fn a = holding_timeout_fn h ref.

(** The alarm [i] has been unregistered or has fired. *)
Definition alarm_settled (i : nat) (s : NodeState) : Prop :=
  ∃ a, alarm_queue s !! i = Some a ∧ alarm_status a ≠ Pending.

(** No hold is stored for [h] and every hold-timeout alarm of [h] is
    settled. *)
Definition hold_cancelled (h : Sha256Hash) (s : NodeState) : Prop :=
  holds s !! h = None ∧ ∀ i, hold_alarm_of h i s → alarm_settled i s.

(** Alarms are never re-armed: from [q] to [q'] every alarm keeps its
    place and its callback, and a settled alarm stays settled. *)
Definition alarm_queue_evolves (q q' : list Alarm) : Prop :=
  ∀ i a, q !! i = Some a →
    ∃ a', q' !! i = Some a' ∧ alarm_fn a' = alarm_fn a ∧
          (alarm_status a ≠ Pending → alarm_status a' ≠ Pending).

(** A handler preserves a relation between the state it starts from and
    the state it leaves behind, whether it returns or raises. *)
Definition preserves (R : relation NodeState) {A} (m : M A) : Prop :=
  ∀ s, R s (m s).1.

(** The relation of two states that agree on an observation. *)
Definition keeps {A} (obs : NodeState → A) : relation NodeState :=
  λ s s', obs s' = obs s.

(** The relation of two states of which the second satisfies an invariant
    when the first does. *)
Definition maintains (I : NodeState → Prop) : relation NodeState :=
  λ s s', I s → I s'.

(** The alarm queue only evolves. *)
Definition alarms_evolve : relation NodeState :=
  λ s s', alarm_queue_evolves (alarm_queue s) (alarm_queue s').

(** The effect log only grows. *)
Definition effects_grow : relation NodeState :=
  λ s s', ∃ new, effects s' = effects s ++ new.

(** What the handlers of the BDN side (blocks, keys and transactions
    arriving from relays and gateways) leave alone: the clock and the hold
    objects are unchanged, nothing is handed to the neutrality service,
    alarms are never re-armed, the effect log only grows and the invariant
    of the hold protocol is kept. *)
Definition bdn_frame : relation NodeState := λ s s',
  now s' = now s ∧
  hold_objects s' = hold_objects s ∧
  propagated s' = propagated s ∧
  alarm_queue_evolves (alarm_queue s) (alarm_queue s') ∧
  (∃ new, effects s' = effects s ++ new) ∧
  (hold_inv s → hold_inv s').

(** What the hold protocol leaves alone: the clock, the blocks seen, the
    encrypted-block cache, the recovery and queuing services, the record
    of blocks being handled and the messages sent to the blockchain
    node. *)
Definition hold_frame : relation NodeState := λ s s',
  now s' = now s ∧
  blocks_seen s' = blocks_seen s ∧
  in_progress_blocks s' = in_progress_blocks s ∧
  block_recovery_service s' = block_recovery_service s ∧
  block_queuing_service s' = block_queuing_service s ∧
  blocks_from_bdn_handling s' = blocks_from_bdn_handling s ∧
  sent_to_node s' = sent_to_node s.

(** What happens to the node: a message handled on a relay or gateway
    connection, a block received from the blockchain node, an alarm going
    off, time passing, the sweep of the holds map. *)
Inductive NodeEvent :=
| ev_block_holding (self : Connection) (block_hash : Sha256Hash)
| ev_block_from_node (block_message : AbstractMessage) (connection : Connection)
| ev_broadcast (self : Connection) (msg : BroadcastMessage)
| ev_key (self : Connection) (msg : KeyMessage)
| ev_tx (self : Connection) (msg : TxMessage)
| ev_txs (self : Connection) (msg : TxsMessage)
| ev_alarm (id : nat)
| ev_clock_advance (t : Q)
| ev_holds_cleanup.

Definition is_holds_cleanup_event (e : NodeEvent) : bool :=
  match e with
  | ev_holds_cleanup => true
  | _ => false
  end.

(** The operations that drive the hold protocol. *)
Inductive ServiceCall :=
| call_place_hold (block_hash : Sha256Hash) (connection : Connection)
| call_queue_block_for_processing (block_message : AbstractMessage)
    (connection : Connection)
| call_cancel_hold_timeout (block_hash : Sha256Hash) (connection : Connection)
| call_fire_alarm (id : nat)
| call_clock_advance (t : Q)
| call_holds_cleanup.

Definition is_holds_cleanup (c : ServiceCall) : bool :=
  match c with
  | call_holds_cleanup => true
  | _ => false
  end.

Section Statements.
Context `{Crypto} `{AbstractMessageConverter}.
Variable env : NodeEnv.

(** What compressing and propagating [msg], received on [conn], does to
    a state [s]: [s'] is the state left behind and [r] the outcome. *)
Definition compress_and_propagate_outcome (msg : AbstractMessage) (conn : Connection)
  (s s' : NodeState) (r : result unit) : Prop :=
  let h := block_hash_of msg in
  match block_to_bx_block msg (tx_service s) with
  | Ok (bx_block, info) =>
    match dump_effects env (tx_service s) h info with
    | Ok dumped =>
      r = Ok tt ∧
      effects s' = effects s ++ [BlockStat h BLOCK_COMPRESSED] ++ dumped ++
                   [PropagateBlockToNetwork bx_block conn info] ∧
      tx_service s' = track_seen_short_ids_delayed (tx_service s) h (bi_short_ids info) ∧
      same_rest s s'
    | Raise e =>
      r = Raise e ∧
      effects s' = effects s ++ [BlockStat h BLOCK_COMPRESSED] ∧
      same_stores s s'
    end
  | Raise (MessageConversionError msg_hash _) =>
    r = Ok tt ∧
    effects s' = effects s ++ [BlockStat msg_hash BLOCK_CONVERSION_FAILED;
                               Log ERROR (Some msg_hash)] ∧
    same_stores s s'
  | Raise e => r = Raise e ∧ s' = s
  end.

Definition run_call (c : ServiceCall) : M unit :=
  match c with
  | call_place_hold h conn => place_hold env h conn
  | call_queue_block_for_processing m conn => queue_block_for_processing env m conn
  | call_cancel_hold_timeout h conn => cancel_hold_timeout h conn
  | call_fire_alarm id => fire_alarm env id
  | call_clock_advance t => clock_advance t
  | call_holds_cleanup => holds_cleanup (blockchain_block_hold_timeout_s (opts env))
  end.

Definition run_calls (cs : list ServiceCall) (s : NodeState) : NodeState :=
  foldl (λ s c, exec (run_call c) s) s cs.

Definition run_event (e : NodeEvent) : M unit :=
  match e with
  | ev_block_holding self h => msg_block_holding env self h
  | ev_block_from_node m conn => queue_block_for_processing env m conn
  | ev_broadcast self msg => msg_broadcast env self msg
  | ev_key self msg => msg_key env self msg
  | ev_tx self msg => msg_tx env self msg
  | ev_txs self msg => msg_txs env self msg
  | ev_alarm id => fire_alarm env id
  | ev_clock_advance t => clock_advance t
  | ev_holds_cleanup => holds_cleanup (blockchain_block_hold_timeout_s (opts env))
  end.

Definition run_events (es : list NodeEvent) (s : NodeState) : NodeState :=
  foldl (λ s e, exec (run_event e) s) s es.

(** [place_hold(h, _)] called once per connection of the list. *)
Definition place_holds (block_hash : Sha256Hash) (conns : list Connection)
  (s : NodeState) : NodeState :=
  run_calls (call_place_hold block_hash <$> conns) s.

(** Hold cancellation read without a premise on the state it starts
    from: after any number of [place_hold(h, _)] calls and
    [cancel_hold_timeout(h, c)], no hold is stored for [h], every
    hold-timeout alarm of [h] is settled, and firing such an alarm hands
    nothing to the neutrality service. *)
Definition cancel_hold_claim (s : NodeState) (h : Sha256Hash) (conns : list Connection)
  (c : Connection) : Prop :=
  let s2 := exec (cancel_hold_timeout h c) (place_holds h conns s) in
  holds s2 !! h = None ∧
  (∀ i, hold_alarm_of h i s2 → alarm_settled i s2) ∧
  (∀ i, hold_alarm_of h i s2 →
     propagated (exec (fire_alarm env i) s2) = propagated s2).

(** The hold branch of [queue_block_for_processing] read without the
    guard on the hold's alarm: whenever a hold exists for the block's
    hash, after the call the message is stored on the hold and a pending
    hold-timeout alarm for it is recorded on the hold. *)
Definition queue_hold_claim (s : NodeState) (msg : AbstractMessage)
  (conn : Connection) : Prop :=
  is_Some (holds s !! block_hash_of msg) →
  let s' := exec (queue_block_for_processing env msg conn) s in
  ∃ hold id a,
    lookup_hold s' (block_hash_of msg) = Some hold ∧
    block_message hold = Some msg ∧
    alarm hold = Some id ∧
    alarm_queue s' !! id = Some a ∧
    alarm_status a = Pending.

(** The retry read as asking again for what is still missing when its
    alarm fires: the unknown short ids of the block's recovery record at
    that time, followed by the short ids of its unknown hashes. *)
Definition retry_requests_still_missing (info : BlockRecoveryInfo) (id : nat)
  (t : NodeState) : Prop :=
  ∀ rec,
    recovery_records (block_recovery_service t) !! bri_block_hash info = Some rec →
    effects (exec (fire_alarm env id) t) = effects t ++
      [Broadcast
         (GetTxsMessage (rr_unknown_sids rec ++
                         (get_short_id (tx_service t) <$> rr_unknown_hashes rec)))
         None false [RELAY_TRANSACTION];
       BlockStat (bri_block_hash info) BLOCK_RECOVERY_REPEATED].

(** The mismatch branch of [process_block_broadcast] read as a drop with
    no state change: for an encrypted message whose block hash is not the
    double SHA-256 of its ciphertext, no store of the node other than the
    effect log differs after the call. *)
Definition broadcast_mismatch_claim (s : NodeState) (msg : BroadcastMessage)
  (conn : Connection) : Prop :=
  bm_is_encrypted msg = true →
  bm_block_hash msg ≠ crypto_double_sha256 (bm_blob msg) →
  same_stores s (exec (process_block_broadcast env msg conn) s).

(** The caller of the converter read as evicting the block's recovery
    state together with its transaction state: once a conversion error
    for block hash [h] was caught, neither a recovery record nor tracked
    short ids remain for [h]. *)
Definition conversion_failure_evicts_claim (s : NodeState) (bx_block : bytes)
  (conn : Connection) (enc : option N) (recovered : bool) : Prop :=
  ∀ h ct,
    bx_block_to_block bx_block (tx_service s) = Raise (MessageConversionError h ct) →
    let s' := exec (_handle_decrypted_block env bx_block conn enc recovered) s in
    recovery_records (block_recovery_service s') !! h = None ∧
    short_ids_seen_in_block (tx_service s') !! h = None ∧
    short_ids_seen_in_block_delayed (tx_service s') !! h = None.

(** The duplicate branch of the [tx] handler read without the role gate. *)
Definition msg_tx_duplicate_claim (self : Connection) (msg : TxMessage)
  (s : NodeState) : Prop :=
  short_id_absent (tx_short_id msg) = true →
  has_transaction_short_id (tx_service s) (tx_hash msg) = true →
  has_transaction_contents (tx_service s) (tx_hash msg) = true →
  let s' := exec (msg_tx env self msg) s in
  duplicates_from_relay s' = S (duplicates_from_relay s) ∧
  tx_service s' = tx_service s ∧
  sent_to_node s' = sent_to_node s.

End Statements.

(* ================================================================== *)
(** * An executable instance of the wire interface *)
(* ================================================================== *)

(** The converter is evaluated on concrete buffers through this instance
    of [BtcWire].  Its short-ids section is a u32 count followed by u32
    short ids; its hashes read the hashed bytes as a little-endian number
    and its transactions are length-prefixed, which stand in for SHA-256
    and for the Bitcoin transaction layout. *)
Module Reference.

Fixpoint pack_short_ids (sids : list N) : result bytes :=
  match sids with
  | [] => Ok []
  | sid :: rest =>
    b ← struct_pack UL_INT_SIZE_IN_BYTES sid;
    r ← pack_short_ids rest;
    Ok (b ++ r)
  end.

Definition serialize_short_ids (sids : list N) : result bytes :=
  cnt ← struct_pack UL_INT_SIZE_IN_BYTES (N.of_nat (length sids));
  body ← pack_short_ids sids;
  Ok (cnt ++ body).

Fixpoint unpack_short_ids (n : nat) (b : bytes) (off : nat) : result (list N) :=
  match n with
  | O => Ok []
  | S n' =>
    v ← struct_unpack_from UL_INT_SIZE_IN_BYTES b off;
    r ← unpack_short_ids n' b (off + UL_INT_SIZE_IN_BYTES);
    Ok (v :: r)
  end.

Definition deserialize_short_ids (b : bytes) (off : nat) : result (list N * nat) :=
  cnt ← struct_unpack_from UL_INT_SIZE_IN_BYTES b off;
  sids ← unpack_short_ids (N.to_nat cnt) b (off + UL_INT_SIZE_IN_BYTES);
  Ok (sids, UL_INT_SIZE_IN_BYTES + UL_INT_SIZE_IN_BYTES * N.to_nat cnt).

Definition next_tx_size (b : bytes) (off : nat) : result nat :=
  match b !! off with
  | Some x => Ok (1 + N.to_nat (Byte.to_N x))
  | None => Raise ParseError
  end.

Definition header_of (m : AbstractMessage) : bytes :=
  match btc_varint_to_int (buf m) (BTC_HDR_COMMON_OFF + BTC_BLOCK_HDR_SIZE) with
  | Ok (_, vs) => slice (buf m) 0 (BTC_HDR_COMMON_OFF + BTC_BLOCK_HDR_SIZE + vs)
  | Raise _ => buf m
  end.

Definition txn_count_of (m : AbstractMessage) : N :=
  match btc_varint_to_int (buf m) (BTC_HDR_COMMON_OFF + BTC_BLOCK_HDR_SIZE) with
  | Ok (cnt, _) => cnt
  | Raise _ => 0%N
  end.

Fixpoint split_txns (n : nat) (b : bytes) (off : nat) : list bytes :=
  match n with
  | O => []
  | S n' =>
    match next_tx_size b off with
    | Ok size => slice b off (off + size) :: split_txns n' b (off + size)
    | Raise _ => []
    end
  end.

Definition txns_of (m : AbstractMessage) : list bytes :=
  split_txns (N.to_nat (txn_count_of m)) (buf m) (length (header_of m)).

#[global] Instance wire : BtcWire :=
  {| get_txid := le_value;
     get_next_tx_size := next_tx_size;
     bitcoin_hash := le_value;
     double_sha256 := le_value;
     serialize_short_ids_into_bytes := serialize_short_ids;
     deserialize_short_ids_from_buffer := deserialize_short_ids;
     msg_block_hash := λ m,
       le_value (slice (buf m) BTC_HDR_COMMON_OFF (BTC_HDR_COMMON_OFF + BTC_BLOCK_HDR_SIZE));
     msg_header := header_of;
     msg_txns := txns_of;
     msg_prev_block_hash := λ m,
       le_value (slice (buf m) (BTC_HDR_COMMON_OFF + 4) (BTC_HDR_COMMON_OFF + 36));
     msg_txn_count := txn_count_of |}.

#[global] Instance crypto : Crypto :=
  {| crypto_double_sha256 := le_value;
     symmetric_decrypt := λ k c, if decide (length k = 0) then None else Some c |}.

(** A block message: 24-byte message header whose payload length field
    (offset 16) is 84, an 80-byte block header, a transaction count of 1
    and one 3-byte transaction. *)
Definition tx0 : bytes := [Byte.x02; Byte.xaa; Byte.xbb].

Definition block0 : AbstractMessage :=
  {| buf := replicate 16 Byte.x01 ++ [Byte.x54; Byte.x00; Byte.x00; Byte.x00] ++
            replicate 4 Byte.x00 ++ replicate 80 Byte.x07 ++ [Byte.x01] ++ tx0 |}.

(** A transaction service that knows [tx0] under short id 5, with its
    contents. *)
Definition ts_known : TransactionService :=
  set_transaction_contents (assign_short_id empty_tx_service (le_value tx0) 5) (le_value tx0) tx0.

(** A transaction service that has short id 5 for [tx0] but not yet its
    contents. *)
Definition ts_sid_only : TransactionService :=
  assign_short_id empty_tx_service (le_value tx0) 5.

(** A bx-block whose body holds two short-id indicators while its
    short-ids section lists a single short id. *)
Definition bx_overflow : bytes :=
  le_bytes 8 115 ++ take 105 (buf block0) ++ [BTC_SHORT_ID_INDICATOR; BTC_SHORT_ID_INDICATOR] ++
  le_bytes 4 1 ++ le_bytes 4 5.

Definition relay_conn : Connection :=
  {| fileno := 1; network_num := 1; peer_desc := 1; CONNECTION_TYPE := RELAY_ALL |}.

Definition block_relay_conn : Connection :=
  {| fileno := 4; network_num := 1; peer_desc := 4; CONNECTION_TYPE := [RELAY_BLOCK] |}.

Definition gateway_conn : Connection :=
  {| fileno := 2; network_num := 1; peer_desc := 2; CONNECTION_TYPE := [GATEWAY] |}.

Definition blockchain_conn : Connection :=
  {| fileno := 3; network_num := 1; peer_desc := 3; CONNECTION_TYPE := [BLOCKCHAIN_NODE] |}.

Definition env0 : NodeEnv :=
  {| opts := {| blockchain_block_hold_timeout_s := (3 # 10)%Q;
                blockchain_block_recovery_timeout_s := 30%Q;
                dump_short_id_mapping_compression := false |};
     node_network_num := 1;
     connection_pool := [relay_conn; gateway_conn; blockchain_conn];
     node_conn := Some blockchain_conn;
     remote_node_conn := None |}.

(** A second block message with the hash of [block0] (same 80-byte block
    header) and another transaction. *)
Definition block0' : AbstractMessage :=
  {| buf := replicate 16 Byte.x01 ++ [Byte.x54; Byte.x00; Byte.x00; Byte.x00] ++
            replicate 4 Byte.x00 ++ replicate 80 Byte.x07 ++ [Byte.x01] ++
            [Byte.x02; Byte.xcc; Byte.xdd] |}.

(** The transaction message that repeats [tx0] without a short id
    (short id 0). *)
Definition tx0_msg : TxMessage :=
  {| tx_short_id := Some 0%N; tx_hash := le_value tx0; tx_network_num := 1;
     tx_val := tx0 |}.

(** A key message for block hash 7. *)
Definition key0_msg : KeyMessage := {| km_block_hash := 7; km_key := [Byte.x01] |}.

End Reference.

(** A node whose transaction service is [ts_known], and the header that
    [parse_bx_block_header] reads off [bx_overflow]. *)
Definition overflow_state : NodeState :=
  set_tx_service Reference.ts_known initial_state.

Definition overflow_header_info : BlockHeaderInfo :=
  {| hi_block_offsets := {| short_id_offset := 115; block_begin_offset := 8 |};
     hi_short_ids := [5%N]; hi_short_ids_len := 8;
     hi_block_hash := le_value (replicate 80 Byte.x07);
     hi_offset := 113; hi_txn_count := 1 |}.

(** A node that has already seen block hash 7. *)
Definition seen_state : NodeState := set_blocks_seen {[7%N]} initial_state.

(** A node that has received [key0_msg] and holds its key. *)
Definition keyed_state : NodeState :=
  exec (process_block_key Reference.env0 Reference.key0_msg Reference.relay_conn)
    initial_state.

(** The node after a gateway peer announced [block0] at time 0, the
    blockchain node delivered the block a tenth of a second later, so that
    its hold-timeout alarm is due at 0.4 s, and the sweep of the holds map
    ran at 0.35 s, when the hold's time to live of 0.3 s had passed. *)
Definition expired_hold_state : NodeState :=
  run_calls Reference.env0
    [call_place_hold (block_hash_of Reference.block0) Reference.gateway_conn;
     call_clock_advance (1 # 10);
     call_queue_block_for_processing Reference.block0 Reference.blockchain_conn;
     call_clock_advance (7 # 20);
     call_holds_cleanup]
    initial_state.

(** A node recovering block hash 7, whose bx-block refers to the unknown
    short ids 9 and 10, and the recovery info that
    [get_blocks_awaiting_recovery] hands out for it. *)
Definition recovering_state : NodeState :=
  exec (recovery_add_block [] 7 [9%N; 10%N] []) initial_state.

Definition recovering_info : BlockRecoveryInfo :=
  {| bri_block_hash := 7; unknown_short_ids := [9%N; 10%N];
     unknown_transaction_hashes := []; recovery_start_time := 0 |}.

(** A transaction message that brings short id 9 with its contents. *)
Definition tx9_msg : TxMessage :=
  {| tx_short_id := Some 9%N; tx_hash := 99; tx_network_num := 1;
     tx_val := [Byte.x09] |}.

(** The retry for block hash 7 is scheduled, then short id 9 arrives:
    only short id 10 is still missing while the retry alarm is pending. *)
Definition retry_pending_state : NodeState :=
  exec (msg_tx Reference.env0 Reference.relay_conn tx9_msg)
    (exec (schedule_recovery_retry Reference.env0 recovering_info) recovering_state).

(** An encrypted broadcast message that announces block hash 7 while its
    ciphertext hashes to 1. *)
Definition mismatched_msg : BroadcastMessage :=
  {| bm_block_hash := 7; bm_is_encrypted := true; bm_blob := [Byte.x01] |}.

(** A node whose transaction service is [ts_known] and tracks short id 5
    as seen in the block of [bx_overflow], and whose recovery service
    holds a record for that block hash, left by an earlier bx-block that
    referred to the unknown short id 6. *)
Definition overflow_recovering_state : NodeState :=
  exec (recovery_add_block [] (hi_block_hash overflow_header_info) [6%N] [])
    (set_tx_service
       (track_seen_short_ids_delayed Reference.ts_known
          (hi_block_hash overflow_header_info) [5%N])
       initial_state).

(** The node of [env0] when it has lost its connection to the blockchain
    node. *)
Definition env_no_node : NodeEnv :=
  {| opts := opts Reference.env0;
     node_network_num := 1;
     connection_pool := [Reference.relay_conn; Reference.gateway_conn];
     node_conn := None;
     remote_node_conn := None |}.

(** [block0] compressed under [ts_known]. *)
Definition bx_block0 : bytes :=
  match btc_block_to_bx_block Reference.block0 Reference.ts_known with
  | Ok (bx_block, _) => bx_block
  | Raise _ => []
  end.

(** A node that knows [tx0] and holds [block0], received from its
    blockchain node, for the announcement of a gateway peer. *)
Definition held_known_state : NodeState :=
  run_calls Reference.env0
    [call_place_hold (block_hash_of Reference.block0) Reference.gateway_conn;
     call_queue_block_for_processing Reference.block0 Reference.blockchain_conn]
    (set_tx_service Reference.ts_known initial_state).

(** A node whose hold on [block0] was cancelled after the block had been
    held: alarm 0 is unregistered. *)
Definition cancelled_hold_state : NodeState :=
  run_calls Reference.env0
    [call_place_hold (block_hash_of Reference.block0) Reference.gateway_conn;
     call_queue_block_for_processing Reference.block0 Reference.blockchain_conn;
     call_cancel_hold_timeout (block_hash_of Reference.block0) Reference.relay_conn]
    initial_state.

(** An encrypted broadcast message for block hash 7 whose ciphertext
    hashes to 7. *)
Definition matching_msg : BroadcastMessage :=
  {| bm_block_hash := 7; bm_is_encrypted := true; bm_blob := [Byte.x07] |}.

(** A [txs] reply that carries the transaction of short id 9. *)
Definition txs9_msg : TxsMessage :=
  {| get_txs := [{| ti_hash := 99; ti_contents := [Byte.x09]; ti_short_id := 9 |}] |}.
(* ================================================================== *)
(** * Facts about buffers *)
(* ================================================================== *)

Lemma byte_of_N_to_N (n : N) : Byte.to_N (byte_of_N n) = (n mod 256)%N.
Proof.
  unfold byte_of_N.
  destruct (Byte.of_N (n mod 256)%N) as [b|] eqn:E; simpl.
  - by apply Byte.to_of_N.
  - apply Byte.of_N_None_iff in E.
    pose proof (N.mod_upper_bound n 256). lia.
Qed.

Lemma length_le_bytes (k : nat) (n : N) : length (le_bytes k n) = k.
Proof. revert n. induction k as [|k IH]; intros n; simpl; [done|]. by rewrite IH. Qed.

Lemma le_value_le_bytes (k : nat) (n : N) :
  (n < 256 ^ N.of_nat k)%N → le_value (le_bytes k n) = n.
Proof.
  revert n. induction k as [|k IH]; intros n Hn.
  - simpl in *. lia.
  - cbn [le_bytes le_value]. rewrite byte_of_N_to_N, IH.
    + pose proof (N.div_mod n 256). lia.
    + rewrite Nat2N.inj_succ, N.pow_succ_r' in Hn.
      apply N.Div0.div_lt_upper_bound. lia.
Qed.

Lemma slice_0 (b : bytes) (j : nat) : slice b 0 j = take j b.
Proof. unfold slice. by rewrite Nat.sub_0_r. Qed.

Lemma slice_app_length (pre mid post : bytes) :
  slice (pre ++ mid ++ post) (length pre) (length pre + length mid) = mid.
Proof.
  unfold slice. rewrite drop_app_length.
  replace (length pre + length mid - length pre) with (length mid) by lia.
  by rewrite take_app_length.
Qed.

Lemma struct_unpack_pack (width : nat) (n : N) (packed pre post : bytes) :
  struct_pack width n = Ok packed →
  struct_unpack_from width (pre ++ packed ++ post) (length pre) = Ok n.
Proof.
  unfold struct_pack, struct_unpack_from. intros Hp.
  destruct (n <? 256 ^ N.of_nat width)%N eqn:Hlt; [|done].
  injection Hp as <-. apply N.ltb_lt in Hlt.
  pose proof (length_le_bytes width n) as Hlen.
  rewrite decide_True by (rewrite !length_app; lia).
  rewrite <- Hlen at 2. rewrite slice_app_length.
  by rewrite le_value_le_bytes.
Qed.

(** Filling a zeroed buffer piece by piece yields the concatenation of the
    pieces followed by whatever zero bytes are left over. *)
Lemma build_btc_block_loop_spec (pieces : list bytes) (done : bytes) (k : nat) :
  build_btc_block_loop pieces (done ++ replicate k Byte.x00) (length done) =
  (done ++ concat pieces ++ replicate (k - length (concat pieces)) Byte.x00,
   length done + length (concat pieces)).
Proof.
  revert done k. induction pieces as [|p rest IH]; intros done k.
  - simpl. by rewrite Nat.sub_0_r, Nat.add_0_r.
  - cbn [build_btc_block_loop concat]. unfold slice_assign.
    rewrite take_app_length.
    rewrite drop_app_ge by lia.
    replace (length done + length p - length done) with (length p) by lia.
    rewrite drop_replicate.
    replace (done ++ p ++ replicate (k - length p) Byte.x00)
      with ((done ++ p) ++ replicate (k - length p) Byte.x00) by by rewrite <- app_assoc.
    replace (length done + length p) with (length (done ++ p)) by by rewrite length_app.
    rewrite IH. rewrite !length_app. f_equal; [|lia].
    rewrite <- !app_assoc. do 3 f_equal. f_equal. lia.
Qed.

Lemma assemble_spec (pieces : list bytes) (size : nat) :
  assemble pieces size =
  concat pieces ++ replicate (size - length (concat pieces)) Byte.x00.
Proof.
  unfold assemble, bytearray.
  pose proof (build_btc_block_loop_spec pieces [] size) as Hs.
  simpl in Hs. by rewrite Hs.
Qed.

Lemma build_btc_block_spec (pieces : list bytes) (size : nat) :
  build_btc_block pieces size =
  ({| buf := concat pieces ++ replicate (size - length (concat pieces)) Byte.x00 |},
   length (concat pieces)).
Proof.
  unfold build_btc_block, bytearray.
  pose proof (build_btc_block_loop_spec pieces [] size) as Hs.
  rewrite app_nil_l in Hs. change (length (@nil byte)) with 0 in Hs.
  by rewrite Hs.
Qed.

#[global] Arguments le_bytes : simpl never.
#[global] Arguments le_value : simpl never.

Lemma concat_replicate_singleton {A} (n : nat) (x : A) :
  concat (replicate n [x]) = replicate n x.
Proof. induction n as [|n IH]; simpl; [done|]. by rewrite IH. Qed.

Lemma struct_unpack_from_ext (width : nat) (b pre post : bytes) (off : nat) (v : N) :
  struct_unpack_from width b off = Ok v →
  struct_unpack_from width (pre ++ b ++ post) (length pre + off) = Ok v.
Proof.
  unfold struct_unpack_from. intros Hu.
  destruct (decide (off + width ≤ length b)) as [Hle|]; [|done].
  rewrite decide_True by (rewrite !length_app; lia).
  injection Hu as <-. do 2 f_equal. unfold slice.
  rewrite drop_app_ge by lia.
  replace (length pre + off - length pre) with off by lia.
  replace (length pre + off + width - (length pre + off)) with (off + width - off) by lia.
  rewrite drop_app_le by lia.
  rewrite take_app_le; [done|]. rewrite length_drop. lia.
Qed.

Lemma btc_varint_to_int_ext (b pre post : bytes) (off : nat) (r : N * nat) :
  btc_varint_to_int b off = Ok r →
  btc_varint_to_int (pre ++ b ++ post) (length pre + off) = Ok r.
Proof.
  unfold btc_varint_to_int. intros Hv.
  destruct (b !! off) as [x|] eqn:Hx; [|done].
  assert ((pre ++ b ++ post) !! (length pre + off) = Some x) as ->.
  { rewrite lookup_app_r by lia.
    replace (length pre + off - length pre) with off by lia.
    by rewrite lookup_app_l by (by eapply lookup_lt_Some). }
  repeat match type of Hv with
  | (if ?c then _ else _) = _ => destruct c
  end; [| | |done];
  match type of Hv with
  | mbind _ ?m = _ =>
    destruct m as [v|] eqn:Hu; [|done];
    replace (length pre + off + 1) with (length pre + (off + 1)) by lia;
    by rewrite (struct_unpack_from_ext _ _ _ _ _ _ Hu)
  end.
Qed.

Section RoundTrip.
Context `{BtcWire}.

Lemma compress_txns_all_known ts txns pieces sids size :
  Forall (tx_has_short_id ts) txns →
  compress_txns ts txns pieces sids size =
  (pieces ++ replicate (length txns) BTC_SHORT_ID_INDICATOR_AS_BYTEARRAY,
   sids ++ block_short_ids ts txns, size + length txns).
Proof.
  intros Hk. revert pieces sids size.
  induction Hk as [|tx txns [Hne _] _ IH]; intros pieces sids size.
  - simpl. by rewrite !app_nil_r, Nat.add_0_r.
  - cbn [compress_txns]. rewrite decide_False by done.
    rewrite IH. cbn [length replicate block_short_ids map].
    rewrite <- !app_assoc. simpl. unfold block_short_ids.
    by replace (size + 1 + length txns) with (size + S (length txns)) by lia.
Qed.

Lemma get_missing_transactions_known ts txns :
  Forall (tx_known ts) txns →
  get_missing_transactions ts (block_short_ids ts txns) = (false, [], []).
Proof.
  induction 1 as [|tx txns [_ [h Hg]] _ IH]; [done|].
  cbn [block_short_ids map get_missing_transactions].
  fold (block_short_ids ts txns). rewrite IH.
  unfold get_transaction in Hg.
  destruct (short_id_to_tx_hash ts !! get_short_id ts (get_txid tx)) as [h'|]; [|done].
  injection Hg as -> Hc. unfold has_transaction_contents.
  by rewrite Hc, bool_decide_eq_true_2.
Qed.

(** The body walk over a run of short-id indicators resolves each of
    them through the transaction service. *)
Lemma parse_loop_indicators ts txns : ∀ fuel block_hash bx_block short_ids
    block_offsets offset idx out pieces,
  Forall (tx_known ts) txns →
  length txns ≤ fuel →
  offset + length txns = short_id_offset block_offsets →
  (∀ i, i < length txns → bx_block !! (offset + i) = Some BTC_SHORT_ID_INDICATOR) →
  (∀ i tx, txns !! i = Some tx →
           short_ids !! (idx + i) = Some (get_short_id ts (get_txid tx))) →
  parse_bx_block_transactions_loop fuel block_hash bx_block short_ids
    block_offsets ts offset idx out pieces =
  Ok (pieces ++ txns, out + length (concat txns)).
Proof.
  induction txns as [|tx txns IH];
    intros fuel bh bx sids bo offset idx out pieces Hk Hfuel Hoff Hbytes Hsids.
  - simpl in Hoff. destruct fuel; simpl;
      rewrite decide_False by lia; by rewrite app_nil_r, Nat.add_0_r.
  - simpl in Hfuel, Hoff. destruct fuel as [|fuel]; [lia|].
    cbn [parse_bx_block_transactions_loop]. rewrite decide_True by lia.
    specialize (Hbytes 0) as Hb0. rewrite Nat.add_0_r in Hb0.
    rewrite Hb0 by (simpl; lia). simpl (Byte.eqb _ _).
    specialize (Hsids 0 tx eq_refl) as Hs0. rewrite Nat.add_0_r in Hs0.
    rewrite Hs0. inversion Hk as [|? ? [_ [h Hg]] Hk']; subst.
    rewrite Hg. rewrite IH; try done.
    + cbn [concat]. rewrite length_app, <- app_assoc. f_equal. f_equal. lia.
    + lia.
    + unfold BTC_SHORT_ID_INDICATOR_LENGTH. lia.
    + intros i Hi. unfold BTC_SHORT_ID_INDICATOR_LENGTH.
      replace (offset + 1 + i) with (offset + S i) by lia.
      apply Hbytes. simpl. lia.
    + intros i tx' Hi. replace (idx + 1 + i) with (idx + S i) by lia.
      by apply Hsids.
Qed.

Lemma rawbytes_framed (m : AbstractMessage) (raw pad : bytes) (payload_len : N) :
  struct_unpack_from 4 raw 16 = Ok payload_len →
  N.to_nat payload_len + BTC_HDR_COMMON_OFF = length raw →
  buf m = raw ++ pad →
  rawbytes m = Ok raw.
Proof.
  intros Hpl Hlen Hm. unfold rawbytes. rewrite Hm.
  pose proof (struct_unpack_from_ext 4 raw [] pad 16 payload_len Hpl) as Hx.
  simpl in Hx. rewrite Hx. simpl. rewrite slice_0, Hlen.
  by rewrite take_app_length.
Qed.

Lemma block_short_ids_lookup ts txns i tx :
  txns !! i = Some tx →
  block_short_ids ts txns !! i = Some (get_short_id ts (get_txid tx)).
Proof. intros Hi. unfold block_short_ids. by rewrite list_lookup_fmap, Hi. Qed.

(** The compressed form of a block all of whose transactions have a
    short id: offset prefix, header piece, one indicator per
    transaction, short-ids section. *)
Lemma btc_block_to_bx_block_all_known ts B ser :
  well_formed_block B →
  Forall (tx_has_short_id ts) (msg_txns B) →
  serialize_short_ids_into_bytes (block_short_ids ts (msg_txns B)) = Ok ser →
  ∃ info,
    btc_block_to_bx_block B ts =
    Ok (le_bytes 8 (N.of_nat (length (msg_header B) + length (msg_txns B) + 8)) ++
        msg_header B ++
        replicate (length (msg_txns B)) BTC_SHORT_ID_INDICATOR ++ ser, info).
Proof.
  intros (Hbuf & _ & (pl & Hpl & Hpllen) & Hsize & _) Hk Hser.
  unfold btc_block_to_bx_block.
  rewrite compress_txns_all_known by done. cbn [app].
  rewrite Hser. cbn [mbind result_bind]. unfold struct_pack, UL_ULL_SIZE_IN_BYTES.
  replace (0 + length (msg_header B)) with (length (msg_header B)) by lia.
  apply N.ltb_lt in Hsize as Hsize'.
  change (256 ^ N.of_nat 8)%N with (2 ^ 64)%N. rewrite Hsize'. cbn [mbind result_bind].
  rewrite (rawbytes_framed B (buf B) [] pl) by (by rewrite ?app_nil_r).
  cbn [mbind result_bind]. rewrite decide_False.
  2:{ unfold BTC_HDR_COMMON_OFF in Hpllen. lia. }
  eexists. do 2 f_equal. rewrite assemble_spec.
  cbn [concat]. rewrite concat_app. cbn [concat].
  unfold BTC_SHORT_ID_INDICATOR_AS_BYTEARRAY.
  rewrite concat_replicate_singleton, !app_nil_r.
  rewrite !length_app, length_le_bytes, length_replicate.
  replace (_ - _) with 0 by lia. simpl replicate.
  by rewrite <- !app_assoc, app_nil_r.
Qed.

(** The amended round trip: when every transaction of the block has a
    short id that the service resolves to the transaction's contents,
    decompressing the compressed block yields the block. *)
Lemma btc_round_trip_known ts B :
  short_ids_serializer_spec →
  well_formed_block B →
  Forall (tx_known ts) (msg_txns B) →
  ∃ bx info info',
    btc_block_to_bx_block B ts = Ok (bx, info) ∧
    btc_bx_block_to_block bx ts =
      Ok (Some {| buf := buf B ++ replicate 8 Byte.x00 |}, info', [], []) ∧
    rawbytes {| buf := buf B ++ replicate 8 Byte.x00 |} = Ok (buf B) ∧
    rawbytes B = Ok (buf B).
Proof.
  intros [Htot Hrt] Hwf Hknown.
  assert (Forall (tx_has_short_id ts) (msg_txns B)) as Hsid.
  { eapply Forall_impl; [exact Hknown|]. by intros tx [? _]. }
  pose proof Hwf as (Hbuf & (cnt & vs & Hvar & Hlen) & (pl & Hpl & Hpllen) & Hsize & Hcnt).
  destruct (Htot (block_short_ids ts (msg_txns B))) as [ser Hser].
  { unfold block_short_ids. apply Forall_fmap.
    eapply Forall_impl; [exact Hsid|]. by intros tx [_ ?]. }
  { unfold block_short_ids. by rewrite length_fmap. }
  destruct (btc_block_to_bx_block_all_known ts B ser Hwf Hsid Hser) as [info Hc].
  set (n := length (msg_txns B)) in *.
  set (hdr := msg_header B) in *.
  set (pre := le_bytes 8 (N.of_nat (length hdr + n + 8))) in *.
  set (bx := pre ++ hdr ++ replicate n BTC_SHORT_ID_INDICATOR ++ ser) in *.
  assert (length pre = 8) as Hpre by apply length_le_bytes.
  assert (rawbytes B = Ok (buf B)) as HrawB.
  { apply (rawbytes_framed B (buf B) [] pl); by rewrite ?app_nil_r. }
  assert (rawbytes {| buf := buf B ++ replicate 8 Byte.x00 |} = Ok (buf B)) as Hraw.
  { by apply (rawbytes_framed _ (buf B) (replicate 8 Byte.x00) pl). }
  exists bx, info. eexists. split; [exact Hc|]. split; [|done].
  unfold btc_bx_block_to_block, parse_bx_block_header.
  (* offsets *)
  assert (get_bx_block_offsets bx =
          Ok {| short_id_offset := length hdr + n + 8;
                block_begin_offset := UL_ULL_SIZE_IN_BYTES |}) as ->.
  { unfold get_bx_block_offsets.
    pose proof (struct_unpack_pack 8 (N.of_nat (length hdr + n + 8)) pre []
                  (hdr ++ replicate n BTC_SHORT_ID_INDICATOR ++ ser)) as Hu.
    rewrite app_nil_l in Hu. change (length (@nil byte)) with 0 in Hu.
    unfold bx. rewrite Hu.
    - simpl. by rewrite Nat2N.id.
    - unfold struct_pack. apply N.ltb_lt in Hsize.
      change (256 ^ N.of_nat 8)%N with (2 ^ 64)%N. by rewrite Hsize. }
  cbn [mbind result_bind]. cbn [short_id_offset block_begin_offset].
  (* short ids *)
  assert (deserialize_short_ids_from_buffer bx (length hdr + n + 8) =
          Ok (block_short_ids ts (msg_txns B), length ser)) as ->.
  { specialize (Hrt _ ser (pre ++ hdr ++ replicate n BTC_SHORT_ID_INDICATOR) Hser).
    rewrite !length_app, length_replicate, Hpre in Hrt.
    replace (8 + (length hdr + n)) with (length hdr + n + 8) in Hrt by lia.
    rewrite <- Hrt. f_equal. unfold bx. by rewrite <- !app_assoc. }
  cbn [mbind result_bind].
  (* transaction count *)
  assert (btc_varint_to_int bx
            (UL_ULL_SIZE_IN_BYTES + BTC_HDR_COMMON_OFF + BTC_BLOCK_HDR_SIZE) =
          Ok (cnt, vs)) as ->.
  { pose proof (btc_varint_to_int_ext hdr pre
                  (replicate n BTC_SHORT_ID_INDICATOR ++ ser) _ _ Hvar) as Hx.
    rewrite Hpre in Hx. unfold bx, UL_ULL_SIZE_IN_BYTES.
    by replace (8 + BTC_HDR_COMMON_OFF + BTC_BLOCK_HDR_SIZE)
      with (8 + (BTC_HDR_COMMON_OFF + BTC_BLOCK_HDR_SIZE)) by lia. }
  cbn [mbind result_bind]. cbn [hi_block_hash hi_offset hi_short_ids hi_block_offsets].
  assert (slice bx UL_ULL_SIZE_IN_BYTES
            (UL_ULL_SIZE_IN_BYTES + BTC_HDR_COMMON_OFF + BTC_BLOCK_HDR_SIZE + vs) = hdr)
    as ->.
  { pose proof (slice_app_length pre hdr (replicate n BTC_SHORT_ID_INDICATOR ++ ser)) as Hs.
    rewrite Hpre, Hlen in Hs. unfold UL_ULL_SIZE_IN_BYTES.
    etrans; [|exact Hs]. unfold bx. f_equal; lia. }
  (* body *)
  unfold parse_bx_block_transactions.
  rewrite get_missing_transactions_known by done.
  rewrite (parse_loop_indicators ts (msg_txns B)); try done.
  - cbn [mbind result_bind]. rewrite app_nil_l.
    rewrite build_btc_block_spec.
    cbn [fst concat app]. rewrite <- Hbuf.
    replace (_ - _) with 8.
    2:{ rewrite Hbuf, length_app. unfold UL_ULL_SIZE_IN_BYTES. lia. }
    unfold get_block_info. rewrite Hraw. cbn [mbind result_bind].
    rewrite decide_False; [done|].
    rewrite Hbuf, length_app. unfold BTC_HDR_COMMON_OFF in Hlen. clear -Hlen. lia.
  - subst bx. rewrite !length_app, length_replicate. fold n. lia.
  - cbn [short_id_offset]. fold n. unfold UL_ULL_SIZE_IN_BYTES. lia.
  - intros i Hi. fold n in Hi. unfold bx.
    rewrite app_assoc, lookup_app_r.
    2:{ rewrite length_app, Hpre. unfold UL_ULL_SIZE_IN_BYTES. lia. }
    rewrite length_app, Hpre, Hlen.
    rewrite lookup_app_l.
    2:{ rewrite length_replicate. unfold UL_ULL_SIZE_IN_BYTES. lia. }
    apply lookup_replicate_2. unfold UL_ULL_SIZE_IN_BYTES. lia.
  - intros i tx Hi. simpl. by apply block_short_ids_lookup.
Qed.

(** C1 (amended).  For every well-formed Bitcoin block all of whose
    transactions have a short id that the transaction service resolves to
    the transaction's contents, compressing and then decompressing with
    the same service succeeds, returns a block message whose bytes equal
    the block's bytes, and reports no unknown short ids and no unknown
    hashes. *)
Theorem C1_round_trip_known_contents ts B :
  short_ids_serializer_spec →
  well_formed_block B →
  Forall (tx_known ts) (msg_txns B) →
  round_trips ts B.
Proof.
  intros Hser Hwf Hk.
  destruct (btc_round_trip_known ts B Hser Hwf Hk) as (bx & info & info' & Hc & Hd & Hr & HrB).
  exists bx, info, {| buf := buf B ++ replicate 8 Byte.x00 |}, info'.
  by rewrite Hr, HrB.
Qed.

(** The buffer of the decompressed message is the block followed by eight
    zero bytes: [build_btc_block] is sized with an offset that counts the
    8-byte prefix of the bx-block.  The message framing leaves them out of
    [rawbytes]. *)
Lemma btc_round_trip_buffer ts B bx info :
  short_ids_serializer_spec →
  well_formed_block B →
  Forall (tx_known ts) (msg_txns B) →
  btc_block_to_bx_block B ts = Ok (bx, info) →
  ∃ info', btc_bx_block_to_block bx ts =
             Ok (Some {| buf := buf B ++ replicate 8 Byte.x00 |}, info', [], []).
Proof.
  intros Hser Hwf Hk Hc.
  destruct (btc_round_trip_known ts B Hser Hwf Hk) as (bx' & i1 & i2 & Hc' & Hd & _).
  rewrite Hc in Hc'. injection Hc' as -> ->. eauto.
Qed.

End RoundTrip.

(* ------------------------------------------------------------------ *)
(** ** The reference serializer meets its contract *)
(* ------------------------------------------------------------------ *)

Lemma pack_short_ids_total (sids : list N) :
  Forall (λ sid, (sid < 2 ^ 32)%N) sids →
  ∃ body, Reference.pack_short_ids sids = Ok body ∧ length body = 4 * length sids.
Proof.
  induction 1 as [|sid sids Hsid _ [body [IH Hlen]]]; [by exists []|].
  exists (le_bytes 4 sid ++ body). cbn [Reference.pack_short_ids].
  unfold struct_pack, UL_INT_SIZE_IN_BYTES.
  change (256 ^ N.of_nat 4)%N with (2 ^ 32)%N.
  apply N.ltb_lt in Hsid. rewrite Hsid. cbn [mbind result_bind]. rewrite IH.
  split; [done|]. rewrite length_app, length_le_bytes, Hlen. simpl. lia.
Qed.

Lemma unpack_pack_short_ids (sids : list N) : ∀ (body pre post : bytes),
  Reference.pack_short_ids sids = Ok body →
  Reference.unpack_short_ids (length sids) (pre ++ body ++ post) (length pre) = Ok sids.
Proof.
  induction sids as [|sid sids IH]; intros body pre post Hp; [done|].
  cbn [Reference.pack_short_ids] in Hp.
  destruct (struct_pack UL_INT_SIZE_IN_BYTES sid) as [b|] eqn:Hb; [|done].
  cbn [mbind result_bind] in Hp.
  destruct (Reference.pack_short_ids sids) as [r|] eqn:Hr; [|done].
  injection Hp as <-.
  cbn [length Reference.unpack_short_ids].
  rewrite <- (app_assoc b r post).
  rewrite (struct_unpack_pack _ _ _ _ _ Hb). cbn [mbind result_bind].
  assert (length b = UL_INT_SIZE_IN_BYTES) as Hlb.
  { unfold struct_pack in Hb. destruct (_ <? _)%N; [|done].
    injection Hb as <-. apply length_le_bytes. }
  specialize (IH r (pre ++ b) post eq_refl).
  rewrite length_app, Hlb, <- app_assoc in IH. by rewrite IH.
Qed.

Lemma pack_short_ids_bounded (sids : list N) (body : bytes) :
  Reference.pack_short_ids sids = Ok body →
  length body = 4 * length sids.
Proof.
  revert body. induction sids as [|sid sids IH]; intros body Hb.
  - by injection Hb as <-.
  - cbn [Reference.pack_short_ids] in Hb.
    destruct (struct_pack UL_INT_SIZE_IN_BYTES sid) as [b|] eqn:Hp; [|done].
    cbn [mbind result_bind] in Hb.
    destruct (Reference.pack_short_ids sids) as [r|] eqn:Hr; [|done].
    injection Hb as <-.
    assert (length b = 4) as Hlb.
    { unfold struct_pack in Hp. destruct (_ <? _)%N; [|done].
      injection Hp as <-. apply length_le_bytes. }
    rewrite length_app, Hlb, (IH r eq_refl). cbn [length]. lia.
Qed.

Lemma reference_serializer_spec : @short_ids_serializer_spec Reference.wire.
Proof.
  split.
  - intros sids Hall Hlen.
    change (∃ ser, Reference.serialize_short_ids sids = Ok ser).
    unfold Reference.serialize_short_ids.
    unfold struct_pack at 1, UL_INT_SIZE_IN_BYTES.
    change (256 ^ N.of_nat 4)%N with (2 ^ 32)%N.
    apply N.ltb_lt in Hlen. rewrite Hlen. cbn [mbind result_bind].
    destruct (pack_short_ids_total sids Hall) as [body [-> _]]. eauto.
  - intros sids ser pre Hs.
    change (Reference.serialize_short_ids sids = Ok ser) in Hs.
    change (Reference.deserialize_short_ids (pre ++ ser) (length pre) =
            Ok (sids, length ser)).
    unfold Reference.serialize_short_ids in Hs.
    destruct (struct_pack UL_INT_SIZE_IN_BYTES (N.of_nat (length sids))) as [cnt|] eqn:Hc;
      [|done].
    cbn [mbind result_bind] in Hs.
    destruct (Reference.pack_short_ids sids) as [body|] eqn:Hb; [|done].
    injection Hs as <-.
    unfold Reference.deserialize_short_ids.
    rewrite (struct_unpack_pack _ _ _ _ _ Hc). cbn [mbind result_bind].
    rewrite Nat2N.id.
    assert (length cnt = UL_INT_SIZE_IN_BYTES) as Hlc.
    { unfold struct_pack in Hc. destruct (_ <? _)%N; [|done].
      injection Hc as <-. apply length_le_bytes. }
    pose proof (unpack_pack_short_ids sids body (pre ++ cnt) [] Hb) as Hu.
    rewrite length_app, Hlc, app_nil_r, <- app_assoc in Hu. rewrite Hu.
    cbn [mbind result_bind]. do 2 f_equal.
    rewrite length_app, Hlc, (pack_short_ids_bounded _ _ Hb).
    unfold UL_INT_SIZE_IN_BYTES. lia.
Qed.

Lemma reference_block0_well_formed : @well_formed_block Reference.wire Reference.block0.
Proof.
  unfold well_formed_block.
  split; [by vm_compute|].
  split; [exists 1%N, 1; by vm_compute|].
  split; [exists 84%N; by vm_compute|].
  split; by vm_compute.
Qed.

Lemma reference_tx0_known :
  Forall (@tx_known Reference.wire Reference.ts_known) (msg_txns Reference.block0).
Proof.
  constructor; [|constructor]. split; [split|].
  - by vm_compute.
  - by vm_compute.
  - eexists. by vm_compute.
Qed.

Lemma C1_round_trip_known_contents_witness :
  @short_ids_serializer_spec Reference.wire ∧
  well_formed_block Reference.block0 ∧
  Forall (tx_known Reference.ts_known) (msg_txns Reference.block0) ∧
  round_trips Reference.ts_known Reference.block0.
Proof.
  split; [exact reference_serializer_spec|].
  split; [exact reference_block0_well_formed|].
  split; [exact reference_tx0_known|].
  exact (C1_round_trip_known_contents Reference.ts_known Reference.block0
           reference_serializer_spec reference_block0_well_formed reference_tx0_known).
Defined.

(** C1 as stated fails: the transaction of [block0] has short id 5 in
    [ts_sid_only], whose entry has no contents yet; compression replaces
    the transaction by its short id and decompression reports the hash as
    unknown instead of returning the block. *)
Lemma C1_counterexample :
  ¬ round_trip_claim Reference.ts_sid_only Reference.block0.
Proof.
  intros Hclaim.
  destruct Hclaim as (bx & info & msg & info' & Hc & Hd & _).
  - exact reference_serializer_spec.
  - exact reference_block0_well_formed.
  - constructor; [|constructor]. split; by vm_compute.
  - vm_compute in Hc. injection Hc as <- <-.
    vm_compute in Hd. discriminate Hd.
Qed.

(* ================================================================== *)
(** * Short-id index overflow during decompression *)
(* ================================================================== *)

Section IndexOverflow.
Context `{BtcWire} `{Crypto}.

Lemma byte_eqb_indicator_false (b : byte) :
  b ≠ BTC_SHORT_ID_INDICATOR → Byte.eqb b BTC_SHORT_ID_INDICATOR = false.
Proof.
  intros Hne. destruct (Byte.eqb b BTC_SHORT_ID_INDICATOR) eqn:E; [|done].
  by apply Byte.byte_dec_bl in E.
Qed.

(** Once the walk stands on an indicator with the short-ids array used
    up, the loop raises the decompression error of the block, whatever
    it had accumulated; the exception passes through the iterations that
    led there. *)
Lemma parse_loop_overflow_raises bx_block short_ids block_offsets ts n off0 idx0 off idx :
  walk_reaches bx_block short_ids block_offsets ts n off0 idx0 off idx →
  index_overflow bx_block short_ids block_offsets off idx →
  ∀ fuel block_hash out pieces,
    n < fuel →
    parse_bx_block_transactions_loop fuel block_hash bx_block short_ids block_offsets
      ts off0 idx0 out pieces =
    Raise (btc_block_decompression_error block_hash).
Proof.
  induction 1 as [off idx|n off0 idx0 off idx sid h tx Hlt Hb Hs Hg _ IH
                 |n off0 idx0 off idx b size Hlt Hb Hne Hsz _ IH];
    intros Hov fuel bh out pieces Hfuel;
    (destruct fuel as [|fuel]; [lia|]); cbn [parse_bx_block_transactions_loop].
  - destruct Hov as (Hlt & Hb & Hlen).
    rewrite decide_True by done. rewrite Hb. simpl (Byte.eqb _ _).
    by rewrite (lookup_ge_None_2 short_ids idx Hlen).
  - rewrite decide_True by done. rewrite Hb. simpl (Byte.eqb _ _).
    rewrite Hs, Hg. apply IH; [done|lia].
  - rewrite decide_True by done. rewrite Hb, byte_eqb_indicator_false by done.
    rewrite Hsz. cbn [mbind result_bind]. apply IH; [done|lia].
Qed.

(** With non-empty transactions every iteration advances the offset. *)
Lemma walk_reaches_advances bx_block short_ids block_offsets ts n off0 idx0 off idx :
  tx_sizes_positive →
  walk_reaches bx_block short_ids block_offsets ts n off0 idx0 off idx →
  off0 + n ≤ off.
Proof.
  intros Hpos.
  induction 1 as [off idx|n off0 idx0 off idx sid h tx Hlt Hb Hs Hg _ IH
                 |n off0 idx0 off idx b size Hlt Hb Hne Hsz _ IH].
  - lia.
  - unfold BTC_SHORT_ID_INDICATOR_LENGTH in IH. lia.
  - apply Hpos in Hsz. lia.
Qed.

Lemma btc_bx_block_to_block_overflow bx_block ts header_info pieces n off idx :
  tx_sizes_positive →
  parse_bx_block_header bx_block [] = Ok (header_info, pieces) →
  (get_missing_transactions ts (hi_short_ids header_info)).1.1 = false →
  walk_reaches bx_block (hi_short_ids header_info) (hi_block_offsets header_info) ts
    n (hi_offset header_info) 0 off idx →
  index_overflow bx_block (hi_short_ids header_info) (hi_block_offsets header_info)
    off idx →
  btc_bx_block_to_block bx_block ts =
  Raise (MessageConversionError (hi_block_hash header_info) BLOCK_DECOMPRESSION).
Proof.
  intros Hpos Hh Hm Hw Hov.
  unfold btc_bx_block_to_block. rewrite Hh. cbn [mbind result_bind].
  unfold parse_bx_block_transactions.
  destruct (get_missing_transactions ts (hi_short_ids header_info)) as [[m us] uh].
  simpl in Hm. subst m.
  rewrite (parse_loop_overflow_raises _ _ _ _ _ _ _ _ _ Hw Hov); [done|].
  pose proof (walk_reaches_advances _ _ _ _ _ _ _ _ _ Hpos Hw) as Hadv.
  destruct Hov as (_ & Hb & _). apply lookup_lt_Some in Hb. lia.
Qed.

End IndexOverflow.

(* ================================================================== *)
(** * The block processing service *)
(* ================================================================== *)

(** Running a handler on a symbolic state: the monad and the node's
    primitive operations are unfolded and the record projections of the
    resulting state are evaluated. *)
Create HintDb mred.

#[global] Hint Unfold mbind M_bind mret M_ret gets modify raise lift pass ret emit when
  exec time_time register_alarm register_approx_alarm unregister_alarm holds_add
  update_hold add_ciphertext add_key modify_tx_service modify_recovery
  recovery_add_block cancel_recovery_for_block set_recovery_attempts
  clean_up_recovered_blocks queuing_push update_recovered_block queuing_remove
  track_block_from_bdn_handling_started track_block_from_bdn_handling_ended
  node_broadcast send_msg_to_node _on_block_decompressed : mred.

Ltac sred :=
  cbn [now blocks_seen alarm_queue in_progress_blocks tx_service block_recovery_service
       block_queuing_service blocks_from_bdn_handling effects holds hold_objects
       set_now set_blocks_seen set_alarm_queue set_in_progress_blocks set_tx_service
       set_block_recovery_service set_block_queuing_service
       set_blocks_from_bdn_handling set_effects set_holds set_hold_objects].

Ltac mred :=
  repeat (progress (autounfold with mred; cbv beta iota; cbn [fst snd]; sred)).

Lemma same_rest_refl s : same_rest s s.
Proof. by repeat split. Qed.

Lemma same_stores_refl s : same_stores s s.
Proof. by repeat split. Qed.

Lemma same_stores_set_effects s v : same_stores s (set_effects v s).
Proof. by repeat split. Qed.

Lemma same_rest_trans s1 s2 s3 : same_rest s1 s2 → same_rest s2 s3 → same_rest s1 s3.
Proof.
  unfold same_rest. intros (?&?&?&?&?&?&?&?&?) (?&?&?&?&?&?&?&?&?).
  repeat split; congruence.
Qed.

Lemma same_stores_trans s1 s2 s3 :
  same_stores s1 s2 → same_stores s2 s3 → same_stores s1 s3.
Proof.
  intros [? ?] [? ?]. split; [congruence|by eapply same_rest_trans].
Qed.

Lemma filter_is_broadcast_app (l1 l2 : list Effect) :
  filter (λ e, is_broadcast e) (l1 ++ l2) =
  filter (λ e, is_broadcast e) l1 ++ filter (λ e, is_broadcast e) l2.
Proof. apply filter_app. Qed.

Section Service.
Context `{Crypto} `{AbstractMessageConverter}.
Variable env : NodeEnv.

(** C9.  For a block hash already in [blocks_seen], [place_hold] only
    records the BLOCK_HOLD_REQUESTED statistics event: the holds map and
    the hold objects are unchanged, no hold entry is created for the hash
    and no [BlockHoldingMessage] (no message at all) is broadcast. *)
Theorem C9_place_hold_seen_is_noop (s : NodeState) (block_hash : N) (conn : Connection) :
  block_hash ∈ blocks_seen s →
  let s' := exec (place_hold env block_hash conn) s in
  place_hold env block_hash conn s = (s', Ok tt) ∧
  effects s' = effects s ++ [BlockStat block_hash BLOCK_HOLD_REQUESTED] ∧
  holds s' = holds s ∧
  hold_objects s' = hold_objects s ∧
  broadcasts s' = broadcasts s ∧
  same_stores s s'.
Proof.
  intros Hseen. unfold place_hold. mred.
  rewrite bool_decide_eq_true_2 by done. mred.
  repeat split.
  unfold broadcasts. cbn. rewrite filter_app. cbn. by rewrite app_nil_r.
Qed.

(** C10.  When the encryption key of the key message's block hash is
    already stored in [in_progress_blocks], [process_block_key] returns
    right after its statistics event: nothing is decrypted, the stored key
    and ciphertext are unchanged and the key message is not broadcast to
    the gateway peers. *)
Theorem C10_process_block_key_known_key (s : NodeState) (msg : KeyMessage)
  (conn : Connection) :
  has_encryption_key_for_hash s (km_block_hash msg) = true →
  let s' := exec (process_block_key env msg conn) s in
  process_block_key env msg conn s = (s', Ok tt) ∧
  effects s' = effects s ++
    [BlockStat (km_block_hash msg) ENC_BLOCK_KEY_RECEIVED_BY_GATEWAY_FROM_NETWORK] ∧
  in_progress_blocks s' = in_progress_blocks s ∧
  broadcasts s' = broadcasts s ∧
  same_stores s s'.
Proof.
  intros Hkey. unfold process_block_key. mred.
  assert (has_encryption_key_for_hash
            (set_effects (effects s ++
               [BlockStat (km_block_hash msg)
                  ENC_BLOCK_KEY_RECEIVED_BY_GATEWAY_FROM_NETWORK]) s)
            (km_block_hash msg) = true) as -> by exact Hkey.
  mred. repeat split.
  unfold broadcasts. cbn. rewrite filter_app. cbn. by rewrite app_nil_r.
Qed.

(** The caller of the converter: a [MessageConversionError] raised by
    decompression is caught, the transaction service forgets what it
    tracks for the offending block, and the handler returns; holds,
    recovery records, the queue and [blocks_seen] are not touched. *)
Lemma handle_decrypted_block_conversion_error (s : NodeState) (bx_block : bytes)
  (conn : Connection) (enc : option N) (recovered : bool) (h : N) (ct : ConversionType) :
  is_Some (node_conn env) ∨ is_Some (remote_node_conn env) →
  bx_block_to_block bx_block (tx_service s) = Raise (MessageConversionError h ct) →
  let s' := exec (_handle_decrypted_block env bx_block conn enc recovered) s in
  _handle_decrypted_block env bx_block conn enc recovered s = (s', Ok tt) ∧
  tx_service s' = on_block_cleaned_up (tx_service s) h ∧
  effects s' = effects s ++ [BlockStat h BLOCK_CONVERSION_FAILED; Log WARNING (Some h)] ∧
  same_rest s s'.
Proof.
  intros Hconn Hraise. unfold _handle_decrypted_block.
  rewrite bool_decide_eq_true_2 by done. mred. rewrite Hraise. mred.
  unfold modify_tx_service. mred. cbn.
  repeat split. by rewrite <- app_assoc.
Qed.



End Service.

Lemma C9_place_hold_seen_is_noop_witness :
  let s' := exec (place_hold Reference.env0 7%N Reference.gateway_conn) seen_state in
  7%N ∈ blocks_seen seen_state ∧
  place_hold Reference.env0 7%N Reference.gateway_conn seen_state = (s', Ok tt) ∧
  effects s' = effects seen_state ++ [BlockStat 7%N BLOCK_HOLD_REQUESTED] ∧
  holds s' = holds seen_state ∧
  hold_objects s' = hold_objects seen_state ∧
  broadcasts s' = broadcasts seen_state ∧
  same_stores seen_state s'.
Proof.
  assert (7%N ∈ blocks_seen seen_state) as Hseen by (by vm_compute).
  split; [exact Hseen|].
  exact (C9_place_hold_seen_is_noop Reference.env0 seen_state 7%N Reference.gateway_conn
           Hseen).
Defined.

Lemma C10_process_block_key_known_key_witness :
  let s' := exec (process_block_key Reference.env0 Reference.key0_msg
                    Reference.gateway_conn) keyed_state in
  has_encryption_key_for_hash keyed_state (km_block_hash Reference.key0_msg) = true ∧
  process_block_key Reference.env0 Reference.key0_msg Reference.gateway_conn keyed_state =
    (s', Ok tt) ∧
  effects s' = effects keyed_state ++
    [BlockStat (km_block_hash Reference.key0_msg)
       ENC_BLOCK_KEY_RECEIVED_BY_GATEWAY_FROM_NETWORK] ∧
  in_progress_blocks s' = in_progress_blocks keyed_state ∧
  broadcasts s' = broadcasts keyed_state ∧
  same_stores keyed_state s'.
Proof.
  assert (has_encryption_key_for_hash keyed_state (km_block_hash Reference.key0_msg) = true)
    as Hkey by (by vm_compute).
  split; [exact Hkey|].
  exact (C10_process_block_key_known_key Reference.env0 keyed_state Reference.key0_msg
           Reference.gateway_conn Hkey).
Defined.


(* ================================================================== *)
(** * Index overflow seen from the block processing service *)
(* ================================================================== *)


Lemma reference_tx_sizes_positive : @tx_sizes_positive Reference.wire.
Proof.
  intros b off size. cbn. unfold Reference.next_tx_size.
  destruct (b !! off); [|done]. intros [= <-]. lia.
Qed.



(* ================================================================== *)
(** * Recovery retries *)
(* ================================================================== *)

Section RecoveryRetry.
Context `{AbstractMessageConverter}.
Variable env : NodeEnv.

Lemma queuing_remove_not_in (h : N) (q : list QueueEntry) :
  h ∉ (qe_block_hash <$> filter (λ e, qe_block_hash e ≠ h) q).
Proof.
  intros Hin. apply list_elem_of_fmap in Hin as (e & -> & He).
  apply list_elem_of_filter in He as [Hne _]. done.
Qed.

(** C3 (amended).  The interval list is [0.1, 0.5, 1, 2, 5] and
    BLOCK_RECOVERY_MAX_RETRY_ATTEMPTS is its length, 5.
    [schedule_recovery_retry] gives up when the block's attempt count has
    reached 5 or when its recovery started at least
    [blockchain_block_recovery_timeout_s] ago: the recovery record is
    cancelled and the block's entry leaves the queuing service.
    Otherwise it registers an approximate alarm after the interval indexed
    by the attempt count (slop: half of it).  In whatever state that alarm
    fires, the attempt count goes up by one and a [GetTxsMessage] is
    broadcast to the transaction relays for the short ids recorded in the
    recovery info when the retry was scheduled, its unknown short ids
    followed by the short ids of its unknown hashes, whether or not some
    of them were received in the meantime. *)
Theorem C3_schedule_recovery_retry (s : NodeState) (info : BlockRecoveryInfo) :
  let h := bri_block_hash info in
  let attempts := recovery_attempts s h in
  let timed_out :=
    Qle_bool (blockchain_block_recovery_timeout_s (opts env))
             (now s - recovery_start_time info) in
  let s' := exec (schedule_recovery_retry env info) s in
  BLOCK_RECOVERY_RECOVERY_INTERVAL_S = [(1 # 10); (1 # 2); 1; 2; 5]%Q ∧
  BLOCK_RECOVERY_MAX_RETRY_ATTEMPTS = 5 ∧
  schedule_recovery_retry env info s = (s', Ok tt) ∧
  if (5 <=? attempts) || timed_out then
    recovery_records (block_recovery_service s') !! h = None ∧
    recovery_attempts_by_block (block_recovery_service s') !! h = None ∧
    (h ∉ qe_block_hash <$> block_queuing_service s') ∧
    alarm_queue s' = alarm_queue s ∧
    effects s' = effects s ++ [Log ERROR (Some h)]
  else
    ∃ delay,
      BLOCK_RECOVERY_RECOVERY_INTERVAL_S !! attempts = Some delay ∧
      alarm_queue s' = alarm_queue s ++
        [{| fire_delay := delay; slop := Some (delay / 2)%Q;
            alarm_fn := trigger_recovery_retry_fn info; alarm_status := Pending |}] ∧
      block_recovery_service s' = block_recovery_service s ∧
      block_queuing_service s' = block_queuing_service s ∧
      effects s' = effects s ∧
      let id := length (alarm_queue s) in
      ∀ t : NodeState,
        alarm_queue t !! id = alarm_queue s' !! id →
        let t' := exec (fire_alarm env id) t in
        fire_alarm env id t = (t', Ok tt) ∧
        recovery_attempts t' h = recovery_attempts t h + 1 ∧
        effects t' = effects t ++
          [Broadcast
             (GetTxsMessage (unknown_short_ids info ++
                             (get_short_id (tx_service t) <$>
                                unknown_transaction_hashes info)))
             None false [RELAY_TRANSACTION];
           BlockStat h BLOCK_RECOVERY_REPEATED].
Proof.
  cbv zeta. split; [done|]. split; [done|].
  unfold schedule_recovery_retry. mred.
  change BLOCK_RECOVERY_MAX_RETRY_ATTEMPTS with 5.
  destruct ((5 <=? recovery_attempts s (bri_block_hash info))
            || Qle_bool (blockchain_block_recovery_timeout_s (opts env))
                 (now s - recovery_start_time info)) eqn:Hcond.
  - mred. split; [done|]. cbn [recovery_records recovery_attempts_by_block].
    rewrite !lookup_delete_eq.
    repeat split. apply queuing_remove_not_in.
  - apply orb_false_iff in Hcond as [Hlt _]. apply Nat.leb_gt in Hlt.
    destruct (BLOCK_RECOVERY_RECOVERY_INTERVAL_S !! recovery_attempts s (bri_block_hash info))
      as [delay|] eqn:Hd.
    2:{ apply lookup_ge_None in Hd. cbn in Hd. lia. }
    mred. split; [done|]. exists delay.
    do 5 (split; [done|]).
    intros t Hid. rewrite lookup_app_r, Nat.sub_diag in Hid by done.
    cbn [lookup list_lookup] in Hid.
    unfold fire_alarm. mred. rewrite Hid. cbn [alarm_status].
    rewrite decide_True by done. cbn [alarm_fn run_alarm_fn].
    unfold _trigger_recovery_retry, start_transaction_recovery. mred.
    split; [done|]. split.
    + unfold recovery_attempts. sred. cbn [recovery_attempts_by_block].
      by rewrite lookup_insert_eq.
    + by rewrite <- app_assoc.
Qed.

End RecoveryRetry.

(** C3 as stated fails.  The retry for block hash 7 is scheduled while
    the short ids 9 and 10 are unknown; short id 9 then arrives in a
    [tx] message, so that the recovery record only waits for short id 10;
    the retry alarm nevertheless asks for 9 and 10 again. *)
Lemma C3_counterexample :
  ¬ retry_requests_still_missing Reference.env0 recovering_info 0 retry_pending_state.
Proof.
  intros Hclaim.
  specialize (Hclaim {| rr_bx_block := []; rr_unknown_sids := [10%N];
                        rr_unknown_hashes := []; rr_start_time := 0 |}).
  assert (recovery_records (block_recovery_service retry_pending_state)
            !! bri_block_hash recovering_info =
          Some {| rr_bx_block := []; rr_unknown_sids := [10%N];
                  rr_unknown_hashes := []; rr_start_time := 0 |}) as Hrec
    by (vm_compute; reflexivity).
  specialize (Hclaim Hrec). vm_compute in Hclaim. discriminate Hclaim.
Qed.

(* ================================================================== *)
(** * The hold protocol *)
(* ================================================================== *)

Section HoldProtocol.
Context `{AbstractMessageConverter}.
Variable env : NodeEnv.

(** What [_process_and_broadcast_block] does, case by case on the outcome
    of the converter and of the optional mapping dump. *)
Lemma process_and_broadcast_block_outcome (msg : AbstractMessage) (conn : Connection)
  (s : NodeState) :
  compress_and_propagate_outcome env msg conn s
    (_process_and_broadcast_block env msg conn s).1
    (_process_and_broadcast_block env msg conn s).2.
Proof.
  unfold compress_and_propagate_outcome, _process_and_broadcast_block, dump_effects.
  mred.
  destruct (block_to_bx_block msg (tx_service s)) as [[bx info]|e]; mred.
  - destruct (dump_short_id_mapping_compression (opts env)); mred.
    + cbn [tx_service set_effects].
      destruct (short_id_mapping (tx_service s) (bi_short_ids info)) as [mapping|e];
        cbn [mbind result_bind]; mred.
      * unfold _process_and_broadcast_compressed_block, modify_tx_service. mred. cbn.
        repeat split. by rewrite <- !app_assoc.
      * cbn. by repeat split.
    + unfold _process_and_broadcast_compressed_block, modify_tx_service. mred. cbn.
      repeat split. by rewrite <- !app_assoc.
  - destruct e; mred; cbn; try done.
    repeat split. by rewrite <- app_assoc.
Qed.



End HoldProtocol.


(* ================================================================== *)
(** * The invariant of the hold protocol and hold cancellation *)
(* ================================================================== *)

(** The observations of the effect log after effects that they do not
    count. *)
Ltac frame_effects :=
  unfold propagated, broadcasts, sent_to_node, duplicates_from_relay; sred;
  rewrite ?omap_app, ?filter_app; cbn; by rewrite ?app_nil_r.

Lemma same_rest_set_effects s v : same_rest s (set_effects v s).
Proof. by repeat split. Qed.

(** The invariant reads the holds map, the hold objects and the alarm
    queue only. *)
Lemma hold_inv_ext (s s' : NodeState) :
  holds s' = holds s → hold_objects s' = hold_objects s →
  alarm_queue s' = alarm_queue s → hold_inv s → hold_inv s'.
Proof. unfold hold_inv. intros -> -> ->. done. Qed.

Lemma hold_inv_same_rest (s s' : NodeState) : same_rest s s' → hold_inv s → hold_inv s'.
Proof. intros (_&_&?&_&_&_&_&?&?). by apply hold_inv_ext. Qed.

Lemma hold_inv_initial : hold_inv initial_state.
Proof. split; [intros h ref Hh|intros i a h ref Hi]; by cbn in *. Qed.

(** A new hold for a hash that has none. *)
Lemma hold_inv_holds_add (s : NodeState) (h : N) (hold : BlockHold) :
  holds s !! h = None → hold_inv s →
  hold_inv (set_holds (<[h := length (hold_objects s)]> (holds s))
              (set_hold_objects (hold_objects s ++ [hold]) s)).
Proof.
  intros Hnone [Hwf Hal]. split; sred.
  - intros h' ref Hh'. apply lookup_insert_Some in Hh' as [[-> <-]|[Hne Hh']].
    + rewrite lookup_app_r, Nat.sub_diag by done. by eexists.
    + destruct (Hwf _ _ Hh') as [x Hx]. exists x. by apply lookup_app_l_Some.
  - intros i a h' ref Hi Hp Hf.
    destruct (Hal _ _ _ _ Hi Hp Hf) as (Hh' & hold' & Ho & Ha).
    assert (h ≠ h') by congruence.
    rewrite lookup_insert_ne by done. split; [done|].
    exists hold'. split; [by apply lookup_app_l_Some|done].
Qed.

(** Arming the hold-timeout alarm of a hold that has none. *)
Lemma hold_inv_arm (s : NodeState) (h : N) (ref : nat) (hold : BlockHold)
  (delay : Q) (f : BlockHold → BlockHold) :
  holds s !! h = Some ref → hold_objects s !! ref = Some hold → alarm hold = None →
  alarm (f hold) = Some (length (alarm_queue s)) →
  hold_inv s →
  hold_inv (set_hold_objects (alter f ref (hold_objects s))
              (set_alarm_queue
                 (alarm_queue s ++
                  [{| fire_delay := delay; slop := None;
                      alarm_fn := holding_timeout_fn h ref; alarm_status := Pending |}])
                 s)).
Proof.
  intros Hh Ho Hnone Hf [Hwf Hal]. split; sred.
  - intros h' ref' Hh'. destruct (Hwf _ _ Hh') as [x Hx].
    rewrite list_lookup_alter, Hx. destruct (decide (ref = ref')) as [->|]; [|by eexists].
    rewrite Hx. by eexists.
  - intros i a h' ref' Hi Hp Hfn.
    apply lookup_snoc_Some in Hi as [[Hlt Hi]|[-> <-]].
    + destruct (Hal _ _ _ _ Hi Hp Hfn) as (Hh' & hold' & Ho' & Ha').
      split; [done|]. exists hold'. split; [|done].
      rewrite list_lookup_alter_ne; [done|]. intros <-. congruence.
    + injection Hfn as <- <-. split; [done|]. exists (f hold).
      rewrite list_lookup_alter_eq, Ho. done.
Qed.

(** An alarm leaves the pending state. *)
Lemma hold_inv_settle (s : NodeState) (i : nat) (st : AlarmStatus) :
  st ≠ Pending → hold_inv s →
  hold_inv (set_alarm_queue (alter (set_alarm_status st) i (alarm_queue s)) s).
Proof.
  intros Hst [Hwf Hal]. split; sred; [done|].
  intros j a h ref Hj Hp Hfn.
  rewrite list_lookup_alter in Hj. destruct (decide (i = j)) as [->|].
  - destruct (alarm_queue s !! j); [|done]. injection Hj as <-. done.
  - by eapply Hal.
Qed.

(** A hold is deleted once its alarm, if any, is settled. *)
Lemma hold_inv_delete (s : NodeState) (h : N) :
  (∀ i a ref, alarm_queue s !! i = Some a → alarm_fn a = holding_timeout_fn h ref →
     alarm_status a ≠ Pending) →
  hold_inv s → hold_inv (set_holds (delete h (holds s)) s).
Proof.
  intros Hset [Hwf Hal]. split; sred.
  - intros h' ref Hh'. apply lookup_delete_Some in Hh' as [_ Hh']. by eapply Hwf.
  - intros i a h' ref Hi Hp Hfn.
    destruct (Hal _ _ _ _ Hi Hp Hfn) as (Hh' & Hhold).
    split; [|done]. rewrite lookup_delete_ne; [done|].
    intros <-. by eapply Hset.
Qed.

(** Under the invariant, the hold-timeout alarms of a hash are all
    settled once the alarm recorded on its hold is. *)
Lemma hold_alarms_settled (s : NodeState) (h : N) (st : AlarmStatus) (x : option nat) :
  st ≠ Pending → hold_inv s →
  (∀ ref hold, holds s !! h = Some ref → hold_objects s !! ref = Some hold →
     alarm hold = x) →
  ∀ i a ref,
    from_option (λ j, alter (set_alarm_status st) j (alarm_queue s)) (alarm_queue s) x
      !! i = Some a →
    alarm_fn a = holding_timeout_fn h ref →
    alarm_status a ≠ Pending.
Proof.
  intros Hst [Hwf Hal] Hx i a ref Hi Hfn Hp.
  destruct x as [j|]; cbn [from_option] in Hi.
  - rewrite list_lookup_alter in Hi. destruct (decide (j = i)) as [->|Hne].
    + destruct (alarm_queue s !! i); [|done]. injection Hi as <-. done.
    + destruct (Hal _ _ _ _ Hi Hp Hfn) as (Hh & hold & Ho & Ha).
      specialize (Hx _ _ Hh Ho). congruence.
  - destruct (Hal _ _ _ _ Hi Hp Hfn) as (Hh & hold & Ho & Ha).
    specialize (Hx _ _ Hh Ho). congruence.
Qed.

Lemma propagated_emit (s : NodeState) (v : list Effect) :
  omap (λ e, match e with
             | PropagateBlockToNetwork bx c info => Some (bx, c, info)
             | _ => None
             end) v = [] →
  propagated (set_effects (effects s ++ v) s) = propagated s.
Proof. intros Hv. unfold propagated. sred. by rewrite omap_app, Hv, app_nil_r. Qed.

Lemma alarm_queue_evolves_refl (q : list Alarm) : alarm_queue_evolves q q.
Proof. intros i a Hi. by exists a. Qed.

Lemma alarm_queue_evolves_trans (q1 q2 q3 : list Alarm) :
  alarm_queue_evolves q1 q2 → alarm_queue_evolves q2 q3 → alarm_queue_evolves q1 q3.
Proof.
  intros H12 H23 i a Hi.
  destruct (H12 _ _ Hi) as (a2 & Hi2 & Hf2 & Hs2).
  destruct (H23 _ _ Hi2) as (a3 & Hi3 & Hf3 & Hs3).
  exists a3. split; [done|]. split; [congruence|auto].
Qed.

Lemma alarm_queue_evolves_app (q l : list Alarm) : alarm_queue_evolves q (q ++ l).
Proof. intros i a Hi. exists a. split; [by apply lookup_app_l_Some|done]. Qed.

Lemma alarm_queue_evolves_settle (q : list Alarm) (j : nat) (st : AlarmStatus) :
  st ≠ Pending → alarm_queue_evolves q (alter (set_alarm_status st) j q).
Proof.
  intros Hst i a Hi. rewrite list_lookup_alter.
  destruct (decide (j = i)) as [->|]; [|by exists a].
  rewrite Hi. by eexists.
Qed.

(** The clock does not enter the invariant. *)
Lemma clock_advance_hold_inv (t : Q) (s : NodeState) :
  hold_inv s → hold_inv (exec (clock_advance t) s).
Proof.
  intros Hinv. unfold clock_advance. mred.
  destruct (Qle_bool (now s) t); [by eapply hold_inv_ext|done].
Qed.

(** The sweep of the holds map keeps the invariant as long as it removes
    no hold whose hold-timeout alarm is pending. *)
Lemma holds_cleanup_hold_inv (time_to_live : Q) (s : NodeState) :
  (∀ h ref hold i a,
     holds s !! h = Some ref → hold_expired time_to_live s ref = true →
     hold_objects s !! ref = Some hold → alarm hold = Some i →
     alarm_queue s !! i = Some a → alarm_status a ≠ Pending) →
  hold_inv s → hold_inv (exec (holds_cleanup time_to_live) s).
Proof.
  intros Hexp [Hwf Hal]. unfold holds_cleanup. mred. split; sred.
  - intros h ref Hh. apply map_lookup_filter_Some in Hh as [Hh _]. by eapply Hwf.
  - intros i a h ref Hi Hp Hfn.
    destruct (Hal _ _ _ _ Hi Hp Hfn) as (Hh & hold & Ho & Ha).
    split; [|eauto]. apply map_lookup_filter_Some. split; [done|]. cbn.
    destruct (hold_expired time_to_live s ref) eqn:He; [|done].
    by destruct (Hexp _ _ _ _ _ Hh He Ho Ha Hi).
Qed.

Section HoldInvariant.
Context `{AbstractMessageConverter}.
Variable env : NodeEnv.

Lemma process_and_broadcast_block_same_rest (msg : AbstractMessage) (conn : Connection)
  (s : NodeState) :
  same_rest s (_process_and_broadcast_block env msg conn s).1.
Proof.
  pose proof (process_and_broadcast_block_outcome env msg conn s) as Ho.
  unfold compress_and_propagate_outcome in Ho.
  destruct (block_to_bx_block msg (tx_service s)) as [[bx info]|e].
  - destruct (dump_effects env (tx_service s) (block_hash_of msg) info).
    + by destruct Ho as (_&_&_&?).
    + by destruct Ho as (_&_&_&?).
  - destruct e; try (destruct Ho as [_ ->]; apply same_rest_refl).
    by destruct Ho as (_&_&_&?).
Qed.

(** What [place_hold] does to the hold protocol's state: nothing, or a
    new hold without message or alarm for a hash that had none. *)
Lemma place_hold_hold_state (h : N) (conn : Connection) (s : NodeState) :
  let s' := exec (place_hold env h conn) s in
  place_hold env h conn s = (s', Ok tt) ∧
  alarm_queue s' = alarm_queue s ∧
  propagated s' = propagated s ∧
  ((holds s' = holds s ∧ hold_objects s' = hold_objects s) ∨
   (holds s !! h = None ∧ (h ∉ blocks_seen s) ∧
    holds s' = <[h := length (hold_objects s)]> (holds s) ∧
    hold_objects s' = hold_objects s ++ [new_BlockHold (now s) conn])).
Proof.
  cbv zeta. unfold place_hold. mred.
  case_bool_decide as Hseen; mred.
  { repeat split; [frame_effects|by left]. }
  case_bool_decide as Hheld; cbn [negb]; mred.
  { repeat split; [frame_effects|by left]. }
  assert (holds s !! h = None) as Hnone.
  { destruct (holds s !! h) eqn:E; [|done]. destruct Hheld. by eexists. }
  match goal with
  | |- context [if ?b then _ else _] => destruct b
  end; mred.
  - repeat split; [frame_effects|by right].
  - repeat split; [frame_effects|by right].
Qed.

Lemma place_hold_hold_inv (h : N) (conn : Connection) (s : NodeState) :
  hold_inv s → hold_inv (exec (place_hold env h conn) s).
Proof.
  intros Hinv.
  destruct (place_hold_hold_state h conn s) as (_ & Hq & _ & [[Hh Ho]|(Hnone & _ & Hh & Ho)]).
  - by eapply hold_inv_ext.
  - eapply hold_inv_ext; [| | |by apply (hold_inv_holds_add s h (new_BlockHold (now s) conn))];
      sred; done.
Qed.

(** What [cancel_hold_timeout] does to the hold protocol's state, in a
    state that satisfies the invariant. *)
Lemma cancel_hold_timeout_hold_state (h : N) (c : Connection) (s : NodeState) :
  hold_inv s →
  let s' := exec (cancel_hold_timeout h c) s in
  cancel_hold_timeout h c s = (s', Ok tt) ∧
  holds s' = delete h (holds s) ∧
  hold_objects s' = hold_objects s ∧
  alarm_queue s' =
    from_option (λ j, alter (set_alarm_status Removed) j (alarm_queue s))
      (alarm_queue s) (lookup_hold s h ≫= alarm) ∧
  propagated s' = propagated s ∧
  tx_service s' = tx_service s.
Proof.
  intros [Hwf Hal]. cbv zeta. unfold cancel_hold_timeout, lookup_hold. mred.
  destruct (holds s !! h) as [ref|] eqn:Hh; mred.
  2:{ cbn. rewrite delete_id by done. done. }
  destruct (Hwf _ _ Hh) as [hold Ho]. rewrite !Ho. cbn [option_bind]. mred.
  destruct (alarm hold) as [a|] eqn:Ha; mred; rewrite ?Ho; cbn [option_bind];
    rewrite ?Ha; cbn [from_option]; repeat split; frame_effects.
Qed.

Lemma cancel_hold_timeout_settles (h : N) (c : Connection) (s : NodeState) :
  hold_inv s →
  ∀ i a ref,
    alarm_queue (exec (cancel_hold_timeout h c) s) !! i = Some a →
    alarm_fn a = holding_timeout_fn h ref →
    alarm_status a ≠ Pending.
Proof.
  intros Hinv i a ref.
  destruct (cancel_hold_timeout_hold_state h c s Hinv) as (_ & _ & _ & -> & _).
  apply hold_alarms_settled; [done|done|].
  intros ref' hold Hh Ho. unfold lookup_hold. rewrite Hh. cbn. by rewrite Ho.
Qed.

Lemma cancel_hold_timeout_hold_inv (h : N) (c : Connection) (s : NodeState) :
  hold_inv s → hold_inv (exec (cancel_hold_timeout h c) s).
Proof.
  intros Hinv.
  pose proof (cancel_hold_timeout_settles h c s Hinv) as Hset.
  destruct (cancel_hold_timeout_hold_state h c s Hinv) as (_ & Hh & Ho & Hq & _).
  set (x := lookup_hold s h ≫= alarm) in *.
  set (s1 := from_option
               (λ j, set_alarm_queue (alter (set_alarm_status Removed) j (alarm_queue s)) s)
               s x).
  assert (hold_inv s1) as Hinv1.
  { subst s1. destruct x; cbn [from_option]; [by apply hold_inv_settle|done]. }
  assert (alarm_queue s1 = alarm_queue (exec (cancel_hold_timeout h c) s)) as Hq1.
  { rewrite Hq. subst s1. by destruct x. }
  assert (holds s1 = holds s ∧ hold_objects s1 = hold_objects s) as [Hh1 Ho1].
  { subst s1. by destruct x. }
  eapply (hold_inv_ext (set_holds (delete h (holds s1)) s1)); sred.
  - by rewrite Hh, Hh1.
  - by rewrite Ho, Ho1.
  - done.
  - apply hold_inv_delete; [|done]. rewrite Hq1. exact Hset.
Qed.

Lemma cancel_hold_timeout_alarm_queue (h : N) (c : Connection) (s : NodeState) :
  alarm_queue_evolves (alarm_queue s) (alarm_queue (exec (cancel_hold_timeout h c) s)).
Proof.
  unfold cancel_hold_timeout. mred.
  destruct (holds s !! h) as [ref|]; mred; [|apply alarm_queue_evolves_refl].
  destruct (hold_objects s !! ref) as [hold|]; mred; [|apply alarm_queue_evolves_refl].
  destruct (alarm hold); mred; [|apply alarm_queue_evolves_refl].
  by apply alarm_queue_evolves_settle.
Qed.

Lemma queue_block_for_processing_hold_inv (msg : AbstractMessage) (conn : Connection)
  (s : NodeState) :
  hold_inv s → hold_inv (exec (queue_block_for_processing env msg conn) s).
Proof.
  intros Hinv. unfold queue_block_for_processing. mred.
  destruct (holds s !! block_hash_of msg) as [ref|] eqn:Hh; mred.
  - destruct (hold_objects s !! ref) as [hold|] eqn:Ho; mred; [|done].
    destruct (alarm hold) as [a|] eqn:Ha; mred.
    + by eapply hold_inv_ext.
    + eapply hold_inv_ext;
        [| | |eapply (hold_inv_arm s _ ref hold _ _ Hh Ho Ha); [|exact Hinv]]; sred; done.
  - match goal with
    | |- context [if ?b then _ else _] => destruct b
    end; mred;
      (eapply hold_inv_same_rest; [apply process_and_broadcast_block_same_rest|]);
      by eapply hold_inv_ext.
Qed.

Lemma queue_block_for_processing_alarm_queue (msg : AbstractMessage) (conn : Connection)
  (s : NodeState) :
  alarm_queue_evolves (alarm_queue s)
    (alarm_queue (exec (queue_block_for_processing env msg conn) s)).
Proof.
  unfold queue_block_for_processing. mred.
  destruct (holds s !! block_hash_of msg) as [ref|] eqn:Hh; mred.
  - destruct (hold_objects s !! ref) as [hold|] eqn:Ho; mred;
      [|apply alarm_queue_evolves_refl].
    destruct (alarm hold) as [a|] eqn:Ha; mred;
      [apply alarm_queue_evolves_refl|apply alarm_queue_evolves_app].
  - match goal with
    | |- context [if ?b then _ else _] => destruct b
    end; mred;
      match goal with
      | |- context [_process_and_broadcast_block env msg conn ?st] =>
        destruct (process_and_broadcast_block_same_rest msg conn st) as (_&_&->&_)
      end; apply alarm_queue_evolves_refl.
Qed.

(** Firing an alarm changes neither the holds map nor the hold objects;
    in the alarm queue it settles the fired alarm at most. *)
Lemma fire_alarm_hold_state (id : nat) (s : NodeState) :
  let s' := exec (fire_alarm env id) s in
  holds s' = holds s ∧ hold_objects s' = hold_objects s ∧
  (alarm_queue s' = alarm_queue s ∨
   alarm_queue s' = alter (set_alarm_status Fired) id (alarm_queue s)).
Proof.
  cbv zeta. unfold fire_alarm. mred.
  destruct (alarm_queue s !! id) as [a|] eqn:Hi; mred; [|by auto].
  destruct (decide (alarm_status a = Pending)); mred; [|by auto].
  destruct (alarm_fn a) as [h ref|info]; cbn [run_alarm_fn].
  - unfold _holding_timeout. mred.
    destruct (hold_objects s !! ref) as [hold|]; mred; [|by auto].
    destruct (connection hold) as [c|]; mred; [|by auto].
    destruct (block_message hold) as [m|]; mred; [|by auto].
    match goal with
    | |- context [_process_and_broadcast_block env m c ?st] =>
      destruct (process_and_broadcast_block_same_rest m c st) as (_&_&->&_&_&_&_&->&->)
    end. sred. auto.
  - unfold _trigger_recovery_retry, start_transaction_recovery. mred. auto.
Qed.

Lemma fire_alarm_hold_inv (id : nat) (s : NodeState) :
  hold_inv s → hold_inv (exec (fire_alarm env id) s).
Proof.
  intros Hinv. destruct (fire_alarm_hold_state id s) as (Hh & Ho & [Hq|Hq]).
  - by eapply hold_inv_ext.
  - eapply (hold_inv_ext
              (set_alarm_queue (alter (set_alarm_status Fired) id (alarm_queue s)) s));
      [done|done|done|by apply hold_inv_settle].
Qed.

Lemma fire_alarm_alarm_queue (id : nat) (s : NodeState) :
  alarm_queue_evolves (alarm_queue s) (alarm_queue (exec (fire_alarm env id) s)).
Proof.
  destruct (fire_alarm_hold_state id s) as (_ & _ & [->| ->]).
  - apply alarm_queue_evolves_refl.
  - by apply alarm_queue_evolves_settle.
Qed.

(** An alarm that is settled, or that does not exist, fires to no
    effect. *)
Lemma fire_alarm_settled (id : nat) (s : NodeState) :
  (∀ a, alarm_queue s !! id = Some a → alarm_status a ≠ Pending) →
  fire_alarm env id s = (s, Ok tt).
Proof.
  intros Hset. unfold fire_alarm. mred.
  destruct (alarm_queue s !! id) as [a|]; mred; [|done].
  specialize (Hset a eq_refl). by rewrite decide_False.
Qed.

(** The invariant holds along every run of the hold protocol, and along
    it alarms are never re-armed. *)
Lemma run_call_hold_inv (c : ServiceCall) (s : NodeState) :
  is_holds_cleanup c = false → hold_inv s → hold_inv (exec (run_call env c) s).
Proof.
  destruct c as [h conn|msg conn|h conn|id|t|]; cbn [run_call is_holds_cleanup];
    intros Hc; [..|done].
  - apply place_hold_hold_inv.
  - apply queue_block_for_processing_hold_inv.
  - apply cancel_hold_timeout_hold_inv.
  - apply fire_alarm_hold_inv.
  - apply clock_advance_hold_inv.
Qed.

Lemma run_calls_hold_inv (cs : list ServiceCall) (s : NodeState) :
  Forall (λ c, is_holds_cleanup c = false) cs →
  hold_inv s → hold_inv (run_calls env cs s).
Proof.
  intros Hcs. revert s. induction Hcs as [|c cs Hc _ IH]; intros s Hinv; [done|].
  apply IH. by apply run_call_hold_inv.
Qed.

Lemma run_call_alarm_queue (c : ServiceCall) (s : NodeState) :
  alarm_queue_evolves (alarm_queue s) (alarm_queue (exec (run_call env c) s)).
Proof.
  destruct c as [h conn|msg conn|h conn|id|t|]; cbn [run_call].
  - destruct (place_hold_hold_state h conn s) as (_ & -> & _).
    apply alarm_queue_evolves_refl.
  - apply queue_block_for_processing_alarm_queue.
  - apply cancel_hold_timeout_alarm_queue.
  - apply fire_alarm_alarm_queue.
  - unfold clock_advance. mred.
    destruct (Qle_bool (now s) t); apply alarm_queue_evolves_refl.
  - apply alarm_queue_evolves_refl.
Qed.

Lemma run_calls_alarm_queue (cs : list ServiceCall) (s : NodeState) :
  alarm_queue_evolves (alarm_queue s) (alarm_queue (run_calls env cs s)).
Proof.
  revert s. induction cs as [|c cs IH]; intros s; [apply alarm_queue_evolves_refl|].
  eapply alarm_queue_evolves_trans; [apply run_call_alarm_queue|apply IH].
Qed.

Lemma place_holds_hold_state (h : N) (conns : list Connection) (s : NodeState) :
  hold_inv s →
  hold_inv (place_holds env h conns s) ∧
  propagated (place_holds env h conns s) = propagated s.
Proof.
  unfold place_holds. revert s.
  induction conns as [|c conns IH]; intros s Hinv; [done|].
  cbn [fmap list_fmap run_calls foldl run_call].
  destruct (IH (exec (place_hold env h c) s)) as [Hinv' Hp].
  { by apply place_hold_hold_inv. }
  split; [exact Hinv'|]. unfold run_calls in Hp. rewrite Hp.
  by destruct (place_hold_hold_state h c s) as (_ & _ & -> & _).
Qed.


End HoldInvariant.

(** A node that holds [block0] for the gateway peer's announcement, with
    the hold-timeout alarm pending, satisfies the invariant. *)
Lemma reference_held_hold_inv :
  hold_inv
    (run_calls Reference.env0
       [call_place_hold (block_hash_of Reference.block0) Reference.gateway_conn;
        call_queue_block_for_processing Reference.block0 Reference.blockchain_conn]
       initial_state).
Proof. apply run_calls_hold_inv; [by repeat constructor|apply hold_inv_initial]. Qed.



(* ================================================================== *)
(** * The relay [tx] handler *)
(* ================================================================== *)

Section RelayTx.
Context `{AbstractMessageConverter}.
Variable env : NodeEnv.

(** A [tx] message on a relay connection that does not carry
    transactions is logged as an error and otherwise ignored. *)
Lemma msg_tx_not_tx_relay (self : Connection) (msg : TxMessage) (s : NodeState) :
  has_flag (CONNECTION_TYPE self) RELAY_TRANSACTION = false →
  msg_tx env self msg s = (set_effects (effects s ++ [Log ERROR None]) s, Ok tt).
Proof. intros Hflag. unfold msg_tx. rewrite Hflag. cbn [negb]. by mred. Qed.

(** C5 (amended).  On a relay connection whose type includes
    RELAY_TRANSACTION, a [tx] message without short id ([None] or 0)
    whose hash already has a short id and contents in the transaction
    service is recorded as a duplicate and the handler returns: no short
    id is assigned, no contents are stored, nothing is forwarded to the
    blockchain node and no other store of the node changes. *)
Theorem C5_msg_tx_duplicate (self : Connection) (msg : TxMessage) (s : NodeState) :
  has_flag (CONNECTION_TYPE self) RELAY_TRANSACTION = true →
  short_id_absent (tx_short_id msg) = true →
  has_transaction_short_id (tx_service s) (tx_hash msg) = true →
  has_transaction_contents (tx_service s) (tx_hash msg) = true →
  let s' := exec (msg_tx env self msg) s in
  msg_tx env self msg s = (s', Ok tt) ∧
  effects s' = effects s ++
    [GatewayTxStat log_duplicate_transaction_from_relay;
     TxStat (tx_hash msg) TX_RECEIVED_BY_GATEWAY_FROM_PEER_IGNORE_SEEN;
     Log TRACE (Some (tx_hash msg))] ∧
  duplicates_from_relay s' = S (duplicates_from_relay s) ∧
  tx_service s' = tx_service s ∧
  sent_to_node s' = sent_to_node s ∧
  same_stores s s'.
Proof.
  intros Hflag Habs Hsid Hcontents. cbv zeta. unfold msg_tx.
  rewrite Hflag. cbn [negb]. mred. rewrite Habs, Hsid, Hcontents. cbn [andb]. mred.
  repeat split.
  - by rewrite <- !app_assoc.
  - unfold duplicates_from_relay. sred. rewrite !filter_app, !length_app. simpl. lia.
  - frame_effects.
Qed.

End RelayTx.

Lemma C5_msg_tx_duplicate_witness :
  let s' := exec (msg_tx Reference.env0 Reference.relay_conn Reference.tx0_msg)
              overflow_state in
  msg_tx Reference.env0 Reference.relay_conn Reference.tx0_msg overflow_state =
    (s', Ok tt) ∧
  effects s' = effects overflow_state ++
    [GatewayTxStat log_duplicate_transaction_from_relay;
     TxStat (tx_hash Reference.tx0_msg) TX_RECEIVED_BY_GATEWAY_FROM_PEER_IGNORE_SEEN;
     Log TRACE (Some (tx_hash Reference.tx0_msg))] ∧
  duplicates_from_relay s' = S (duplicates_from_relay overflow_state) ∧
  tx_service s' = tx_service overflow_state ∧
  sent_to_node s' = sent_to_node overflow_state ∧
  same_stores overflow_state s'.
Proof.
  apply (C5_msg_tx_duplicate Reference.env0 Reference.relay_conn Reference.tx0_msg
           overflow_state); by vm_compute.
Defined.

(** C5 as stated fails: the same duplicate message arriving on a relay
    connection that carries blocks only is logged as an error; no
    duplicate is recorded. *)
Lemma C5_counterexample :
  ¬ msg_tx_duplicate_claim Reference.env0 Reference.block_relay_conn Reference.tx0_msg
      overflow_state.
Proof.
  intros Hclaim. destruct Hclaim as (Hdup & _); [by vm_compute..|].
  vm_compute in Hdup. discriminate Hdup.
Qed.

(* ================================================================== *)
(** * The Ethereum discovery connection *)
(* ================================================================== *)

(** C8.  The discovery connection is constructed with a ping signed
    with the node's private key, enqueues it and arms the pong-timeout
    alarm (DISCOVERY_PONG_TIMEOUT_SEC).  A pong records the remote public
    key on the node, after which the connection is closed, and marks the
    pong as received, so that the timeout alarm then fires to no effect.
    Without a pong the alarm logs the timeout warning and marks the
    connection for close, and no remote public key is recorded. *)
Theorem C8_discovery_ping_pong_timeout (node_private_key : bytes)
  (external_ip external_port peer_ip peer_port : N) (time : Q)
  (pong : EthDiscovery.PongEthDiscoveryMessage) :
  let s0 := EthDiscovery.init node_private_key external_ip external_port
              peer_ip peer_port time in
  let ping :=
    {| EthDiscovery.ping_private_key := node_private_key;
       EthDiscovery.ping_version := P2P_PROTOCOL_VERSION;
       EthDiscovery.ping_listen_address := (external_ip, external_port, external_port);
       EthDiscovery.ping_remote_address := (peer_ip, peer_port, peer_port);
       EthDiscovery.ping_expiration := (Qfloor time + 60)%Z |} in
  let s1 := EthDiscovery.msg_pong pong s0 in
  let s2 := EthDiscovery.fire_alarm 0 s1 in
  let s3 := EthDiscovery.fire_alarm 0 s0 in
  (EthDiscovery.enqueued s0 = [ping] ∧
   EthDiscovery.alarms s0 =
     [(DISCOVERY_PONG_TIMEOUT_SEC, EthDiscovery.pong_timeout_fn, Pending)] ∧
   EthDiscovery.marked_for_close s0 = false ∧
   EthDiscovery.remote_public_key s0 = None) ∧
  (EthDiscovery.remote_public_key s1 = Some (EthDiscovery.pong_public_key pong) ∧
   EthDiscovery._pong_received s1 = true ∧
   EthDiscovery.marked_for_close s1 = true ∧
   EthDiscovery.warnings s1 = 0) ∧
  (EthDiscovery.warnings s2 = 0 ∧
   EthDiscovery.remote_public_key s2 = Some (EthDiscovery.pong_public_key pong) ∧
   EthDiscovery.marked_for_close s2 = true) ∧
  (EthDiscovery.warnings s3 = 1 ∧
   EthDiscovery.marked_for_close s3 = true ∧
   EthDiscovery.remote_public_key s3 = None ∧
   EthDiscovery.fire_alarm 0 s3 = s3).
Proof. cbv zeta. repeat split. Qed.

(* ================================================================== *)
(** * What handlers preserve *)
(* ================================================================== *)

#[global] Instance keeps_preorder {A} (obs : NodeState → A) : PreOrder (keeps obs).
Proof.
  split; [intros s; by unfold keeps|intros s1 s2 s3; unfold keeps; congruence].
Qed.

#[global] Instance maintains_preorder (I : NodeState → Prop) : PreOrder (maintains I).
Proof.
  split; [intros s; by unfold maintains|intros s1 s2 s3; unfold maintains; auto].
Qed.

#[global] Instance alarms_evolve_preorder : PreOrder alarms_evolve.
Proof.
  split; [intros s; apply alarm_queue_evolves_refl|].
  intros s1 s2 s3. apply alarm_queue_evolves_trans.
Qed.

#[global] Instance effects_grow_preorder : PreOrder effects_grow.
Proof.
  split; [intros s; exists []; by rewrite app_nil_r|].
  intros s1 s2 s3 [n1 Hn1] [n2 Hn2]. exists (n1 ++ n2). by rewrite Hn2, Hn1, app_assoc.
Qed.

#[global] Instance bdn_frame_preorder : PreOrder bdn_frame.
Proof.
  split.
  - intros s. unfold bdn_frame. split_and!; try done.
    + apply alarm_queue_evolves_refl.
    + exists []. by rewrite app_nil_r.
  - intros s1 s2 s3 (?&?&?&Ha&[n1 Hn1]&?) (?&?&?&Hb&[n2 Hn2]&?).
    unfold bdn_frame. split_and!; try congruence.
    + by eapply alarm_queue_evolves_trans.
    + exists (n1 ++ n2). by rewrite Hn2, Hn1, app_assoc.
    + auto.
Qed.

Section Preserves.
Context (R : relation NodeState) `{!PreOrder R}.

Lemma preserves_ret {A} (a : A) : preserves R (ret a).
Proof using Type*. intros s. reflexivity. Qed.

Lemma preserves_pass : preserves R pass.
Proof using Type*. intros s. reflexivity. Qed.

Lemma preserves_gets {A} (f : NodeState → A) : preserves R (gets f).
Proof using Type*. intros s. reflexivity. Qed.

Lemma preserves_raise {A} (e : exn) : preserves R (raise (A:=A) e).
Proof using Type*. intros s. reflexivity. Qed.

Lemma preserves_lift {A} (r : result A) : preserves R (lift r).
Proof using Type*. intros s. reflexivity. Qed.

Lemma preserves_modify (f : NodeState → NodeState) :
  (∀ s, R s (f s)) → preserves R (modify f).
Proof using Type*. intros Hf s. apply Hf. Qed.

Lemma preserves_bind {A B} (f : A → M B) (m : M A) :
  preserves R m → (∀ a, preserves R (f a)) → preserves R (m ≫= f).
Proof using Type*.
  intros Hm Hf s. unfold mbind, M_bind. specialize (Hm s).
  destruct (m s) as [s1 [a|e]]; cbn [fst] in *; [|done].
  etransitivity; [exact Hm|apply Hf].
Qed.

Lemma preserves_when (b : bool) (m : M unit) : preserves R m → preserves R (when b m).
Proof using Type*. intros Hm. destruct b; [exact Hm|apply preserves_pass]. Qed.

Lemma preserves_for_each {A} (l : list A) (body : A → M unit) :
  (∀ x, preserves R (body x)) → preserves R (for_each l body).
Proof using Type*.
  intros Hb. induction l as [|x l IH]; cbn [for_each]; [apply preserves_pass|].
  apply preserves_bind; [apply Hb|intros _; exact IH].
Qed.

End Preserves.

(** The node's primitive operations, unfolded down to [gets] and
    [modify]. *)
Create HintDb prims.

#[global] Hint Unfold emit time_time register_alarm register_approx_alarm
  unregister_alarm holds_add update_hold add_ciphertext add_key modify_tx_service
  modify_recovery recovery_add_block cancel_recovery_for_block set_recovery_attempts
  clean_up_recovered_blocks queuing_push update_recovered_block queuing_remove
  track_block_from_bdn_handling_started track_block_from_bdn_handling_ended
  node_broadcast send_msg_to_node _on_block_decompressed check_missing_sid
  check_missing_tx_hash decrypt_ciphertext decrypt_and_get_payload decrypt_with : prims.

Create HintDb preserves.

(** A handler is taken apart along its binds and branches; [leaf] settles
    the state updates and the handlers it calls are looked up among the
    lemmas already proved. *)
Ltac preserves_with leaf :=
  repeat first
    [ solve [auto 1 with preserves]
    | match goal with
      | |- preserves ?R (ret _) => apply (preserves_ret R)
      | |- preserves ?R pass => apply (preserves_pass R)
      | |- preserves ?R (gets _) => apply (preserves_gets R)
      | |- preserves ?R (raise _) => apply (preserves_raise R)
      | |- preserves ?R (lift _) => apply (preserves_lift R)
      | |- preserves ?R (modify _) => apply (preserves_modify R); intros ?; leaf
      | |- preserves ?R (mbind _ _) => apply (preserves_bind R); [|intros ?]
      | |- preserves ?R (when _ _) => apply (preserves_when R)
      | |- preserves ?R (for_each _ _) => apply (preserves_for_each R); intros ?
      | |- preserves _ (if ?b then _ else _) => destruct b
      | |- preserves _ (match ?x with _ => _ end) => destruct x
      end
    | progress cbv zeta
    | progress autounfold with prims ].

Ltac keeps_leaf := unfold keeps; sred; first [reflexivity|frame_effects].

Ltac grow_leaf :=
  sred; first [by eexists|exists []; by rewrite app_nil_r].

Ltac evolve_leaf :=
  sred;
  first [ apply alarm_queue_evolves_refl | apply alarm_queue_evolves_app
        | by apply alarm_queue_evolves_settle ].

Lemma hold_inv_register_other (s : NodeState) (a : Alarm) :
  (∀ h ref, alarm_fn a ≠ holding_timeout_fn h ref) → hold_inv s →
  hold_inv (set_alarm_queue (alarm_queue s ++ [a]) s).
Proof.
  intros Hfn [Hwf Hal]. split; sred; [done|].
  intros i a' h ref Hi Hp Hf.
  apply lookup_snoc_Some in Hi as [[_ Hi]|[_ <-]]; [by eapply Hal|].
  by destruct (Hfn h ref).
Qed.

Ltac inv_leaf :=
  let Hinv := fresh "Hinv" in
  intros Hinv;
  first [ (eapply hold_inv_ext; [| | |exact Hinv]; sred; reflexivity)
        | (apply hold_inv_register_other; [done|exact Hinv]) ].

Ltac bdn_leaf :=
  unfold bdn_frame; sred;
  split; [reflexivity|];
  split; [reflexivity|];
  split; [first [reflexivity|frame_effects]|];
  split; [evolve_leaf|];
  split; [grow_leaf|inv_leaf].

Section Frames.
Context `{Crypto} `{AbstractMessageConverter}.
Variable env : NodeEnv.

Lemma cancel_hold_timeout_bdn_frame (h : N) (c : Connection) :
  preserves bdn_frame (cancel_hold_timeout h c).
Proof.
  intros s. unfold bdn_frame.
  split_and!;
    [..|apply cancel_hold_timeout_alarm_queue| |apply cancel_hold_timeout_hold_inv];
    unfold cancel_hold_timeout; mred;
    (destruct (holds s !! h) as [ref|]; mred; [|first [done|grow_leaf]]);
    (destruct (hold_objects s !! ref) as [hold|]; mred;
     [|first [done|frame_effects|grow_leaf]]);
    destruct (alarm hold); mred; first [done|frame_effects|grow_leaf].
Qed.

#[local] Hint Resolve cancel_hold_timeout_bdn_frame : preserves.

Lemma start_transaction_recovery_bdn_frame (unknown_sids : list N)
  (unknown_hashes : list N) (h : N) (c : option Connection) :
  preserves bdn_frame (start_transaction_recovery env unknown_sids unknown_hashes h c).
Proof. unfold start_transaction_recovery. preserves_with bdn_leaf. Qed.

#[local] Hint Resolve start_transaction_recovery_bdn_frame : preserves.

Lemma handle_decrypted_block_bdn_frame (bx : bytes) (c : Connection) (enc : option N)
  (recovered : bool) :
  preserves bdn_frame (_handle_decrypted_block env bx c enc recovered).
Proof. unfold _handle_decrypted_block. preserves_with bdn_leaf. Qed.

#[local] Hint Resolve handle_decrypted_block_bdn_frame : preserves.

Lemma retry_broadcast_recovered_blocks_bdn_frame (c : Connection) :
  preserves bdn_frame (retry_broadcast_recovered_blocks env c).
Proof. unfold retry_broadcast_recovered_blocks. preserves_with bdn_leaf. Qed.

Lemma schedule_recovery_retry_bdn_frame (info : BlockRecoveryInfo) :
  preserves bdn_frame (schedule_recovery_retry env info).
Proof. unfold schedule_recovery_retry. preserves_with bdn_leaf. Qed.

Lemma trigger_recovery_retry_bdn_frame (info : BlockRecoveryInfo) :
  preserves bdn_frame (_trigger_recovery_retry env info).
Proof. unfold _trigger_recovery_retry. preserves_with bdn_leaf. Qed.

#[local] Hint Resolve retry_broadcast_recovered_blocks_bdn_frame
  schedule_recovery_retry_bdn_frame trigger_recovery_retry_bdn_frame : preserves.

Lemma process_block_broadcast_bdn_frame (msg : BroadcastMessage) (c : Connection) :
  preserves bdn_frame (process_block_broadcast env msg c).
Proof. unfold process_block_broadcast. preserves_with bdn_leaf. Qed.

Lemma process_block_key_bdn_frame (msg : KeyMessage) (c : Connection) :
  preserves bdn_frame (process_block_key env msg c).
Proof. unfold process_block_key. preserves_with bdn_leaf. Qed.

#[local] Hint Resolve process_block_broadcast_bdn_frame process_block_key_bdn_frame
  : preserves.

Lemma msg_tx_bdn_frame (self : Connection) (msg : TxMessage) :
  preserves bdn_frame (msg_tx env self msg).
Proof. unfold msg_tx. preserves_with bdn_leaf. Qed.

Lemma msg_txs_bdn_frame (self : Connection) (msg : TxsMessage) :
  preserves bdn_frame (msg_txs env self msg).
Proof. unfold msg_txs. preserves_with bdn_leaf. Qed.

Lemma msg_broadcast_bdn_frame (self : Connection) (msg : BroadcastMessage) :
  preserves bdn_frame (msg_broadcast env self msg).
Proof. unfold msg_broadcast. preserves_with bdn_leaf. Qed.

Lemma msg_key_bdn_frame (self : Connection) (msg : KeyMessage) :
  preserves bdn_frame (msg_key env self msg).
Proof. unfold msg_key. preserves_with bdn_leaf. Qed.

End Frames.

#[global] Hint Resolve cancel_hold_timeout_bdn_frame start_transaction_recovery_bdn_frame
  handle_decrypted_block_bdn_frame retry_broadcast_recovered_blocks_bdn_frame
  schedule_recovery_retry_bdn_frame trigger_recovery_retry_bdn_frame
  process_block_broadcast_bdn_frame process_block_key_bdn_frame msg_tx_bdn_frame
  msg_txs_bdn_frame msg_broadcast_bdn_frame msg_key_bdn_frame : preserves.

(* ================================================================== *)
(** * The node as a whole *)
(* ================================================================== *)

Section Node.
Context `{Crypto} `{AbstractMessageConverter}.
Variable env : NodeEnv.

Lemma run_event_hold_inv (e : NodeEvent) (s : NodeState) :
  is_holds_cleanup_event e = false →
  hold_inv s → hold_inv (exec (run_event env e) s).
Proof.
  destruct e as [self h|m conn|self msg|self msg|self msg|self msg|id|t|];
    cbn [run_event is_holds_cleanup_event]; intros He; [..|done].
  - apply place_hold_hold_inv.
  - apply queue_block_for_processing_hold_inv.
  - apply (msg_broadcast_bdn_frame env self msg s).
  - apply (msg_key_bdn_frame env self msg s).
  - apply (msg_tx_bdn_frame env self msg s).
  - apply (msg_txs_bdn_frame env self msg s).
  - apply fire_alarm_hold_inv.
  - apply clock_advance_hold_inv.
Qed.

Lemma run_event_alarm_queue (e : NodeEvent) (s : NodeState) :
  alarm_queue_evolves (alarm_queue s) (alarm_queue (exec (run_event env e) s)).
Proof.
  destruct e as [self h|m conn|self msg|self msg|self msg|self msg|id|t|];
    cbn [run_event].
  - unfold msg_block_holding.
    destruct (place_hold_hold_state env h self s) as (_ & -> & _).
    apply alarm_queue_evolves_refl.
  - apply queue_block_for_processing_alarm_queue.
  - apply (msg_broadcast_bdn_frame env self msg s).
  - apply (msg_key_bdn_frame env self msg s).
  - apply (msg_tx_bdn_frame env self msg s).
  - apply (msg_txs_bdn_frame env self msg s).
  - apply fire_alarm_alarm_queue.
  - unfold clock_advance. mred.
    destruct (Qle_bool (now s) t); apply alarm_queue_evolves_refl.
  - apply alarm_queue_evolves_refl.
Qed.

Lemma run_events_hold_inv (es : list NodeEvent) (s : NodeState) :
  Forall (λ e, is_holds_cleanup_event e = false) es →
  hold_inv s → hold_inv (run_events env es s).
Proof.
  intros Hes. revert s. induction Hes as [|e es He _ IH]; intros s Hinv; [done|].
  apply IH. by apply run_event_hold_inv.
Qed.

Lemma run_events_alarm_queue (es : list NodeEvent) (s : NodeState) :
  alarm_queue_evolves (alarm_queue s) (alarm_queue (run_events env es s)).
Proof.
  revert s. induction es as [|e es IH]; intros s; [apply alarm_queue_evolves_refl|].
  eapply alarm_queue_evolves_trans; [apply run_event_alarm_queue|apply IH].
Qed.

(** The invariant of the hold protocol holds in every state the node
    reaches from its initial state through messages, blocks, alarms and
    the passing of time, as long as the sweep of the holds map has not
    run: a pending hold-timeout alarm is always the alarm of the hold
    currently stored for its block hash. *)
Theorem node_hold_inv (es : list NodeEvent) :
  Forall (λ e, is_holds_cleanup_event e = false) es →
  hold_inv (run_events env es initial_state).
Proof. intros Hes. by apply run_events_hold_inv, hold_inv_initial. Qed.

Lemma settled_after_events (es : list NodeEvent) (i : nat) (s : NodeState) :
  alarm_settled i s →
  fire_alarm env i (run_events env es s) = (run_events env es s, Ok tt).
Proof.
  intros (a & Hi & Hst).
  destruct (run_events_alarm_queue es s i a Hi) as (a' & Hi' & _ & Hst').
  apply fire_alarm_settled. intros a'' Hi''.
  assert (a'' = a') as -> by congruence. auto.
Qed.

(** An alarm that was unregistered or has fired is never armed again:
    whatever the node handles afterwards, the alarm stays settled and
    firing it changes nothing. *)
Theorem settled_alarm_stays_settled (es : list NodeEvent) (i : nat) (s : NodeState) :
  alarm_settled i s →
  let s' := run_events env es s in
  alarm_settled i s' ∧ fire_alarm env i s' = (s', Ok tt).
Proof.
  intros (a & Hi & Hst) s'.
  destruct (run_events_alarm_queue es s i a Hi) as (a' & Hi' & _ & Hst').
  fold s' in Hi'. split.
  - exists a'. auto.
  - apply fire_alarm_settled. intros a'' Hi''.
    assert (a'' = a') as -> by congruence. auto.
Qed.

Lemma hold_cancelled_ext (h : N) (s s' : NodeState) :
  holds s' = holds s → alarm_queue s' = alarm_queue s →
  hold_cancelled h s → hold_cancelled h s'.
Proof. unfold hold_cancelled, hold_alarm_of, alarm_settled. intros -> ->. done. Qed.

Lemma cancel_hold_timeout_cancels (h : N) (c : Connection) (s : NodeState) :
  hold_inv s →
  cancel_hold_timeout h c s = (exec (cancel_hold_timeout h c) s, Ok tt) ∧
  hold_cancelled h (exec (cancel_hold_timeout h c) s).
Proof.
  intros Hinv.
  pose proof (cancel_hold_timeout_settles h c s Hinv) as Hset.
  destruct (cancel_hold_timeout_hold_state h c s Hinv) as (Hr & Hh & _).
  split; [exact Hr|]. split.
  - rewrite Hh. apply lookup_delete_eq.
  - intros i (a & ref & Hi & Hfn). exists a. split; [done|]. by eapply Hset.
Qed.

(** When a block arrives from the BDN and its bx-block converts without
    a conversion error, whether or not all its transactions are known,
    the hold on its block hash is lifted: no hold remains for the hash,
    its hold-timeout alarm is settled, nothing is handed to the
    neutrality service, and whatever the node handles afterwards, that
    alarm fires to no effect, so the block held for the blockchain node
    is never compressed and propagated. *)
Theorem bdn_block_lifts_hold (bx : bytes) (conn : Connection) (enc : option N)
  (recovered : bool) (s : NodeState) (msg : option AbstractMessage) (info : BlockInfo)
  (unknown_sids unknown_hashes : list N) :
  hold_inv s →
  is_Some (node_conn env) ∨ is_Some (remote_node_conn env) →
  bx_block_to_block bx (tx_service s) = Ok (msg, info, unknown_sids, unknown_hashes) →
  let h := bi_block_hash info in
  let s' := exec (_handle_decrypted_block env bx conn enc recovered) s in
  hold_cancelled h s' ∧
  propagated s' = propagated s ∧
  (∀ es i, hold_alarm_of h i s' →
     let s'' := run_events env es s' in
     fire_alarm env i s'' = (s'', Ok tt)).
Proof.
  intros Hinv Hconn Hbx h s'.
  assert (hold_cancelled h s') as Hc.
  { subst s'. unfold _handle_decrypted_block.
    rewrite bool_decide_eq_true_2 by done. mred. rewrite Hbx. mred.
    destruct (bool_decide (is_Some enc)); mred;
      (match goal with
       | |- context [cancel_hold_timeout ?hh conn ?st] =>
         destruct (cancel_hold_timeout_cancels hh conn st) as [-> Hc];
           [eapply hold_inv_ext; [| | |exact Hinv]; sred; reflexivity|];
           set (s2 := exec (cancel_hold_timeout hh conn) st) in *
       end);
      clearbody s2; fold h in Hc;
      destruct recovered; mred;
      (case_bool_decide; mred;
       [by eapply hold_cancelled_ext; [| |exact Hc]|]);
      (destruct msg as [m|]; mred;
       [destruct (in_queuing_service _ _); mred;
        by eapply hold_cancelled_ext; [| |exact Hc]|]);
      destruct (in_queuing_service _ _); mred;
      by eapply hold_cancelled_ext; [| |exact Hc]. }
  split; [exact Hc|]. split.
  - apply (handle_decrypted_block_bdn_frame env bx conn enc recovered s).
  - intros es i Hi s''. destruct Hc as [_ Hc].
    by apply settled_after_events, Hc.
Qed.

End Node.

(* ================================================================== *)
(** * More on the hold protocol *)
(* ================================================================== *)

Section HoldMore.
Context `{AbstractMessageConverter}.
Variable env : NodeEnv.

(** The first hold announcement for a block the node has not seen creates
    the hold, stamped with the current time and the announcing
    connection and carrying neither message nor alarm, and relays a
    [BlockHoldingMessage] to the relay-block and gateway peers other than
    the announcer, without prepending it to their queues; the
    sent-to-peers event is recorded only when there is such a peer.  No
    alarm is armed and other holds are untouched. *)
Theorem place_hold_new_hold (h : N) (conn : Connection) (s : NodeState) :
  h ∉ blocks_seen s →
  holds s !! h = None →
  let s' := exec (place_hold env h conn) s in
  let peers :=
    filter (λ c, Some c ≠ Some conn ∧
                 Exists (λ f, f ∈ CONNECTION_TYPE c) [RELAY_BLOCK; GATEWAY])
           (connection_pool env) in
  place_hold env h conn s = (s', Ok tt) ∧
  lookup_hold s' h = Some (new_BlockHold (now s) conn) ∧
  (∀ h', h' ≠ h → holds s' !! h' = holds s !! h') ∧
  (∀ ref hold, hold_objects s !! ref = Some hold → hold_objects s' !! ref = Some hold) ∧
  effects s' = effects s ++
    [BlockStat h BLOCK_HOLD_REQUESTED;
     Broadcast (BlockHoldingMessage h (node_network_num env)) (Some conn) false
       [RELAY_BLOCK; GATEWAY]] ++
    (if 0 <? length peers then [BlockStat h BLOCK_HOLD_SENT_BY_GATEWAY_TO_PEERS]
     else []) ∧
  alarm_queue s' = alarm_queue s ∧
  same_stores (set_hold_objects (hold_objects s') (set_holds (holds s') s)) s'.
Proof.
  intros Hseen Hnone. cbv zeta. unfold place_hold. mred.
  rewrite bool_decide_eq_false_2 by done. mred.
  rewrite bool_decide_eq_false_2 by (rewrite Hnone; by intros [? ?]).
  cbn [negb]. mred.
  match goal with
  | |- context [if ?b then _ else _] => destruct b
  end; mred.
  - unfold lookup_hold. sred. rewrite lookup_insert_eq. cbn [mbind option_bind].
    rewrite lookup_app_r, Nat.sub_diag by done.
    split_and!; try done.
    + intros h' Hne. by rewrite lookup_insert_ne.
    + intros ref hold Ho. by apply lookup_app_l_Some.
    + by rewrite <- !app_assoc.
  - unfold lookup_hold. sred. rewrite lookup_insert_eq. cbn [mbind option_bind].
    rewrite lookup_app_r, Nat.sub_diag by done.
    split_and!; try done.
    + intros h' Hne. by rewrite lookup_insert_ne.
    + intros ref hold Ho. by apply lookup_app_l_Some.
    + by rewrite <- !app_assoc.
Qed.

(** A hold is placed once: a second [place_hold] for the same hash, from
    whatever connection, records its statistics event and changes nothing
    else, so that the hold keeps the connection of the first announcement
    and no second [BlockHoldingMessage] is broadcast. *)
Theorem place_hold_twice (h : N) (c1 c2 : Connection) (s : NodeState) :
  let s1 := exec (place_hold env h c1) s in
  let s2 := exec (place_hold env h c2) s1 in
  place_hold env h c2 s1 = (s2, Ok tt) ∧
  effects s2 = effects s1 ++ [BlockStat h BLOCK_HOLD_REQUESTED] ∧
  broadcasts s2 = broadcasts s1 ∧
  same_stores s1 s2.
Proof.
  cbv zeta.
  set (s1 := exec (place_hold env h c1) s).
  assert (h ∈ blocks_seen s1 ∨ is_Some (holds s1 !! h)) as Hdone.
  { subst s1. unfold place_hold. mred.
    case_bool_decide as Hseen; mred; [by left|].
    case_bool_decide as Hheld; cbn [negb]; mred; [by right|].
    match goal with
    | |- context [if ?b then _ else _] => destruct b
    end; mred; right; rewrite lookup_insert_eq; by eexists. }
  clearbody s1. unfold place_hold. mred.
  destruct Hdone as [Hseen|Hheld].
  - rewrite bool_decide_eq_true_2 by done. mred. repeat split. frame_effects.
  - case_bool_decide; mred; [repeat split; frame_effects|].
    rewrite bool_decide_eq_true_2 by done. cbn [negb]. mred.
    repeat split. frame_effects.
Qed.

End HoldMore.

(* ================================================================== *)
(** * Stores that handlers do not touch *)
(* ================================================================== *)

#[global] Instance hold_frame_preorder : PreOrder hold_frame.
Proof.
  split.
  - intros s. by unfold hold_frame.
  - intros s1 s2 s3 (?&?&?&?&?&?&?) (?&?&?&?&?&?&?).
    unfold hold_frame. split_and!; congruence.
Qed.

Ltac hold_leaf :=
  unfold hold_frame; sred; split_and!; first [reflexivity|frame_effects].

Section FramesMore.
Context `{Crypto} `{AbstractMessageConverter}.
Variable env : NodeEnv.

(** *** The encrypted-block cache *)

Lemma cancel_hold_timeout_keeps_in_progress (h : N) (c : Connection) :
  preserves (keeps in_progress_blocks) (cancel_hold_timeout h c).
Proof. unfold cancel_hold_timeout. preserves_with keeps_leaf. Qed.

Lemma start_transaction_recovery_keeps_in_progress (us uh : list N) (h : N)
  (c : option Connection) :
  preserves (keeps in_progress_blocks) (start_transaction_recovery env us uh h c).
Proof. unfold start_transaction_recovery. preserves_with keeps_leaf. Qed.

#[local] Hint Resolve cancel_hold_timeout_keeps_in_progress
  start_transaction_recovery_keeps_in_progress : preserves.

Lemma handle_decrypted_block_keeps_in_progress (bx : bytes) (c : Connection)
  (enc : option N) (recovered : bool) :
  preserves (keeps in_progress_blocks) (_handle_decrypted_block env bx c enc recovered).
Proof. unfold _handle_decrypted_block. preserves_with keeps_leaf. Qed.

#[local] Hint Resolve handle_decrypted_block_keeps_in_progress : preserves.

Lemma retry_broadcast_recovered_blocks_keeps_in_progress (c : Connection) :
  preserves (keeps in_progress_blocks) (retry_broadcast_recovered_blocks env c).
Proof. unfold retry_broadcast_recovered_blocks. preserves_with keeps_leaf. Qed.

Lemma schedule_recovery_retry_keeps_in_progress (info : BlockRecoveryInfo) :
  preserves (keeps in_progress_blocks) (schedule_recovery_retry env info).
Proof. unfold schedule_recovery_retry. preserves_with keeps_leaf. Qed.

#[local] Hint Resolve retry_broadcast_recovered_blocks_keeps_in_progress
  schedule_recovery_retry_keeps_in_progress : preserves.

Lemma msg_tx_keeps_in_progress (self : Connection) (msg : TxMessage) :
  preserves (keeps in_progress_blocks) (msg_tx env self msg).
Proof. unfold msg_tx. preserves_with keeps_leaf. Qed.

Lemma msg_txs_keeps_in_progress (self : Connection) (msg : TxsMessage) :
  preserves (keeps in_progress_blocks) (msg_txs env self msg).
Proof. unfold msg_txs. preserves_with keeps_leaf. Qed.

(** *** Messages to the blockchain node *)

Lemma cancel_hold_timeout_keeps_sent (h : N) (c : Connection) :
  preserves (keeps sent_to_node) (cancel_hold_timeout h c).
Proof. unfold cancel_hold_timeout. preserves_with keeps_leaf. Qed.

Lemma start_transaction_recovery_keeps_sent (us uh : list N) (h : N)
  (c : option Connection) :
  preserves (keeps sent_to_node) (start_transaction_recovery env us uh h c).
Proof. unfold start_transaction_recovery. preserves_with keeps_leaf. Qed.

#[local] Hint Resolve cancel_hold_timeout_keeps_sent
  start_transaction_recovery_keeps_sent : preserves.

Lemma handle_decrypted_block_keeps_sent (bx : bytes) (c : Connection)
  (enc : option N) (recovered : bool) :
  preserves (keeps sent_to_node) (_handle_decrypted_block env bx c enc recovered).
Proof. unfold _handle_decrypted_block. preserves_with keeps_leaf. Qed.

#[local] Hint Resolve handle_decrypted_block_keeps_sent : preserves.

Lemma retry_broadcast_recovered_blocks_keeps_sent (c : Connection) :
  preserves (keeps sent_to_node) (retry_broadcast_recovered_blocks env c).
Proof. unfold retry_broadcast_recovered_blocks. preserves_with keeps_leaf. Qed.

Lemma schedule_recovery_retry_keeps_sent (info : BlockRecoveryInfo) :
  preserves (keeps sent_to_node) (schedule_recovery_retry env info).
Proof. unfold schedule_recovery_retry. preserves_with keeps_leaf. Qed.

#[local] Hint Resolve retry_broadcast_recovered_blocks_keeps_sent
  schedule_recovery_retry_keeps_sent : preserves.

Lemma process_block_broadcast_keeps_sent (msg : BroadcastMessage) (c : Connection) :
  preserves (keeps sent_to_node) (process_block_broadcast env msg c).
Proof. unfold process_block_broadcast. preserves_with keeps_leaf. Qed.

Lemma process_block_key_keeps_sent (msg : KeyMessage) (c : Connection) :
  preserves (keeps sent_to_node) (process_block_key env msg c).
Proof. unfold process_block_key. preserves_with keeps_leaf. Qed.

#[local] Hint Resolve process_block_broadcast_keeps_sent process_block_key_keeps_sent
  : preserves.

Lemma msg_txs_keeps_sent (self : Connection) (msg : TxsMessage) :
  preserves (keeps sent_to_node) (msg_txs env self msg).
Proof. unfold msg_txs. preserves_with keeps_leaf. Qed.

Lemma msg_broadcast_keeps_sent (self : Connection) (msg : BroadcastMessage) :
  preserves (keeps sent_to_node) (msg_broadcast env self msg).
Proof. unfold msg_broadcast. preserves_with keeps_leaf. Qed.

Lemma msg_key_keeps_sent (self : Connection) (msg : KeyMessage) :
  preserves (keeps sent_to_node) (msg_key env self msg).
Proof. unfold msg_key. preserves_with keeps_leaf. Qed.

(** *** The hold protocol *)

Lemma place_hold_hold_frame (h : N) (c : Connection) :
  preserves hold_frame (place_hold env h c).
Proof. unfold place_hold. preserves_with hold_leaf. Qed.

Lemma cancel_hold_timeout_hold_frame (h : N) (c : Connection) :
  preserves hold_frame (cancel_hold_timeout h c).
Proof. unfold cancel_hold_timeout. preserves_with hold_leaf. Qed.

Lemma process_and_broadcast_block_hold_frame (m : AbstractMessage) (c : Connection) :
  preserves hold_frame (_process_and_broadcast_block env m c).
Proof.
  unfold _process_and_broadcast_block, _process_and_broadcast_compressed_block.
  preserves_with hold_leaf.
Qed.

#[local] Hint Resolve process_and_broadcast_block_hold_frame : preserves.

Lemma queue_block_for_processing_hold_frame (m : AbstractMessage) (c : Connection) :
  preserves hold_frame (queue_block_for_processing env m c).
Proof. unfold queue_block_for_processing. preserves_with hold_leaf. Qed.

Lemma holding_timeout_hold_frame (h : N) (ref : nat) :
  preserves hold_frame (_holding_timeout env h ref).
Proof. unfold _holding_timeout. preserves_with hold_leaf. Qed.

End FramesMore.

#[global] Hint Resolve cancel_hold_timeout_keeps_in_progress
  start_transaction_recovery_keeps_in_progress handle_decrypted_block_keeps_in_progress
  retry_broadcast_recovered_blocks_keeps_in_progress
  schedule_recovery_retry_keeps_in_progress msg_tx_keeps_in_progress
  msg_txs_keeps_in_progress cancel_hold_timeout_keeps_sent
  start_transaction_recovery_keeps_sent handle_decrypted_block_keeps_sent
  retry_broadcast_recovered_blocks_keeps_sent schedule_recovery_retry_keeps_sent
  process_block_broadcast_keeps_sent process_block_key_keeps_sent msg_txs_keeps_sent
  msg_broadcast_keeps_sent msg_key_keeps_sent place_hold_hold_frame
  cancel_hold_timeout_hold_frame process_and_broadcast_block_hold_frame
  queue_block_for_processing_hold_frame holding_timeout_hold_frame : preserves.

(* ================================================================== *)
(** * Blocks, keys and transactions from the BDN *)
(* ================================================================== *)

Section Bdn.
Context `{Crypto} `{AbstractMessageConverter}.
Variable env : NodeEnv.


(** The transaction handlers [msg_tx] and [msg_txs] never touch the
    encrypted-block cache, never hand a block to the neutrality service
    and keep the clock and the hold objects; their effects are appended
    to those already recorded. *)
Theorem relay_tx_handlers_frame (self : Connection) (s : NodeState) :
  (∀ msg, let s' := exec (msg_tx env self msg) s in
          in_progress_blocks s' = in_progress_blocks s ∧
          propagated s' = propagated s ∧ hold_objects s' = hold_objects s ∧
          now s' = now s ∧ ∃ new, effects s' = effects s ++ new) ∧
  (∀ msg, let s' := exec (msg_txs env self msg) s in
          in_progress_blocks s' = in_progress_blocks s ∧
          propagated s' = propagated s ∧ hold_objects s' = hold_objects s ∧
          now s' = now s ∧ ∃ new, effects s' = effects s ++ new).
Proof.
  split; intros msg s'; subst s'.
  - split; [apply (msg_tx_keeps_in_progress env self msg s)|].
    destruct (msg_tx_bdn_frame env self msg s) as (?&?&?&_&?&_). done.
  - split; [apply (msg_txs_keeps_in_progress env self msg s)|].
    destruct (msg_txs_bdn_frame env self msg s) as (?&?&?&_&?&_). done.
Qed.

(** Without a connection to a blockchain node (neither [node_conn] nor
    [remote_node_conn]) a decrypted block is discarded: the bx-block is
    not even converted, and only a warning is logged. *)
Theorem handle_decrypted_block_no_node (bx : bytes) (conn : Connection)
  (enc : option N) (recovered : bool) (s : NodeState) :
  node_conn env = None → remote_node_conn env = None →
  _handle_decrypted_block env bx conn enc recovered s =
  (set_effects (effects s ++ [Log WARNING None]) s, Ok tt).
Proof.
  intros Hn Hr. unfold _handle_decrypted_block.
  rewrite bool_decide_eq_false_2; [by mred|].
  rewrite Hn, Hr. by intros [[? ?]|[? ?]].
Qed.

(** Only [MessageConversionError] is caught around the conversion: any
    other exception raised by the converter (an out-of-range read while
    walking the body, a malformed header) escapes the handler, and the
    node's state, transaction service included, is left as it was. *)
Theorem handle_decrypted_block_exception_escapes (bx : bytes) (conn : Connection)
  (enc : option N) (recovered : bool) (s : NodeState) (e : exn) :
  is_Some (node_conn env) ∨ is_Some (remote_node_conn env) →
  bx_block_to_block bx (tx_service s) = Raise e →
  (∀ h ct, e ≠ MessageConversionError h ct) →
  _handle_decrypted_block env bx conn enc recovered s = (s, Raise e).
Proof.
  intros Hconn Hbx Hne. unfold _handle_decrypted_block.
  rewrite bool_decide_eq_true_2 by done. mred. rewrite Hbx.
  destruct e; mred; try done. by destruct (Hne msg_hash conversion_type).
Qed.

(** Ciphertext first, key second.  An encrypted broadcast whose hash
    matches its ciphertext, arriving for a hash with no in-progress
    entry, is stored; when the key message for that hash follows and the
    key decrypts the ciphertext, the entry is consumed and the plaintext
    is handed to [_handle_decrypted_block], after which the key is
    forwarded to the gateway peers other than the sender.  The entry is
    gone at the end. *)
Theorem ciphertext_then_key (bmsg : BroadcastMessage) (kmsg : KeyMessage)
  (c1 c2 : Connection) (s : NodeState) (payload : bytes) :
  bm_is_encrypted bmsg = true →
  bm_block_hash bmsg = crypto_double_sha256 (bm_blob bmsg) →
  km_block_hash kmsg = bm_block_hash bmsg →
  in_progress_blocks s !! bm_block_hash bmsg = None →
  symmetric_decrypt (km_key kmsg) (bm_blob bmsg) = Some payload →
  let h := bm_block_hash bmsg in
  let s1 := exec (process_block_broadcast env bmsg c1) s in
  let s2 :=
    set_effects
      (effects s1 ++ [BlockStat h ENC_BLOCK_KEY_RECEIVED_BY_GATEWAY_FROM_NETWORK;
                      Log TRACE (Some h); BlockStat h ENC_BLOCK_DECRYPTED_SUCCESS])
      (set_in_progress_blocks (delete h (in_progress_blocks s1)) s1) in
  in_progress_blocks s1 !! h =
    Some {| ciphertext := Some (bm_blob bmsg); key := None |} ∧
  process_block_key env kmsg c2 s1 =
    (_handle_decrypted_block env payload c2 (Some h) false;;
     conns ← node_broadcast env (KeyMsg kmsg) (Some c2) false [GATEWAY];
     when (0 <? length conns)
          (emit (BlockStat h ENC_BLOCK_KEY_SENT_BY_GATEWAY_TO_PEERS))) s2 ∧
  in_progress_blocks (exec (process_block_key env kmsg c2) s1) !! h = None.
Proof.
  intros Henc Hhash Hk Hnone Hdec h s1 s2.
  assert (in_progress_blocks s1 !! h =
            Some {| ciphertext := Some (bm_blob bmsg); key := None |}) as Hs1.
  { subst s1. unfold process_block_broadcast. rewrite Henc. cbn [negb]. mred.
    rewrite <- Hhash, N.eqb_refl. cbn [negb]. mred.
    unfold has_encryption_key_for_hash. sred. rewrite Hnone. mred.
    rewrite Hnone. cbn [mbind option_bind]. fold h. by rewrite lookup_insert_eq. }
  assert (process_block_key env kmsg c2 s1 =
    (_handle_decrypted_block env payload c2 (Some h) false;;
     conns ← node_broadcast env (KeyMsg kmsg) (Some c2) false [GATEWAY];
     when (0 <? length conns)
          (emit (BlockStat h ENC_BLOCK_KEY_SENT_BY_GATEWAY_TO_PEERS))) s2) as Hrun.
  { subst s2. clearbody s1. unfold process_block_key. rewrite Hk. fold h. mred.
    unfold has_encryption_key_for_hash, has_ciphertext_for_hash. sred. rewrite Hs1.
    cbn [key ciphertext]. rewrite bool_decide_eq_false_2 by (by intros [? ?]).
    mred. rewrite Hs1. cbn [ciphertext]. rewrite bool_decide_eq_true_2 by eauto.
    unfold decrypt_and_get_payload, decrypt_with. mred. rewrite Hs1.
    cbn [from_option key ciphertext]. rewrite Hdec. mred.
    rewrite <- !app_assoc. reflexivity. }
  split; [exact Hs1|]. split; [exact Hrun|].
  unfold exec. rewrite Hrun.
  set (rest := mbind _ _).
  assert (preserves (keeps in_progress_blocks) rest) as Hkeep.
  { subst rest. preserves_with keeps_leaf. }
  rewrite (Hkeep s2). subst s2. sred. apply lookup_delete_eq.
Qed.

End Bdn.

(* ================================================================== *)
(** * The relay connection's handlers *)
(* ================================================================== *)

Lemma has_transaction_contents_assign_short_id (ts : TransactionService)
  (tx_hash : Sha256Hash) (sid : N) :
  has_transaction_contents (assign_short_id ts tx_hash sid) tx_hash =
  has_transaction_contents ts tx_hash.
Proof. unfold assign_short_id. by destruct (decide (sid = NULL_TX_SID)). Qed.

Section Relay.
Context `{Crypto} `{AbstractMessageConverter}.
Variable env : NodeEnv.

(** A broadcast or key message that arrives on a relay connection whose
    type lacks RELAY_BLOCK is logged as an error and ignored: the block
    processing service is not called. *)
Theorem relay_block_role_gate (self : Connection) (s : NodeState) :
  has_flag (CONNECTION_TYPE self) RELAY_BLOCK = false →
  (∀ msg, msg_broadcast env self msg s =
          (set_effects (effects s ++ [Log ERROR None]) s, Ok tt)) ∧
  (∀ msg, msg_key env self msg s =
          (set_effects (effects s ++ [Log ERROR None]) s, Ok tt)).
Proof.
  intros Hflag. split; intros msg.
  - unfold msg_broadcast. rewrite Hflag. by mred.
  - unfold msg_key. rewrite Hflag. by mred.
Qed.

(** A [txs] message that arrives on a relay connection whose type lacks
    RELAY_TRANSACTION is logged as an error and ignored: no short id or
    contents are stored, no recovery is retried or scheduled. *)
Theorem relay_txs_role_gate (self : Connection) (msg : TxsMessage) (s : NodeState) :
  has_flag (CONNECTION_TYPE self) RELAY_TRANSACTION = false →
  msg_txs env self msg s = (set_effects (effects s ++ [Log ERROR None]) s, Ok tt).
Proof. intros Hflag. unfold msg_txs. rewrite Hflag. cbn [negb]. by mred. Qed.

(** A key message for a hash without an in-progress entry: the key is
    stored for the ciphertext to come, and the key message is forwarded
    to the gateway peers other than the sender; the sent-to-peers event
    is recorded only when there is such a peer.  Nothing is decrypted. *)
Theorem process_block_key_stores_key (msg : KeyMessage) (conn : Connection)
  (s : NodeState) :
  in_progress_blocks s !! km_block_hash msg = None →
  let h := km_block_hash msg in
  let s' := exec (process_block_key env msg conn) s in
  let peers :=
    filter (λ c, Some c ≠ Some conn ∧ Exists (λ f, f ∈ CONNECTION_TYPE c) [GATEWAY])
           (connection_pool env) in
  process_block_key env msg conn s = (s', Ok tt) ∧
  in_progress_blocks s' =
    <[h := {| ciphertext := None; key := Some (km_key msg) |}]> (in_progress_blocks s) ∧
  effects s' = effects s ++
    [BlockStat h ENC_BLOCK_KEY_RECEIVED_BY_GATEWAY_FROM_NETWORK;
     Log TRACE (Some h);
     Broadcast (KeyMsg msg) (Some conn) false [GATEWAY]] ++
    (if 0 <? length peers then [BlockStat h ENC_BLOCK_KEY_SENT_BY_GATEWAY_TO_PEERS]
     else []) ∧
  same_stores (set_in_progress_blocks (in_progress_blocks s') s) s'.
Proof.
  intros Hnone. cbv zeta. unfold process_block_key. mred.
  unfold has_encryption_key_for_hash, has_ciphertext_for_hash. sred.
  rewrite Hnone. mred. rewrite Hnone. cbn [mbind option_bind].
  match goal with
  | |- context [if ?b then _ else _] => destruct b
  end; mred; split_and!; try done; try (by rewrite <- !app_assoc);
    by rewrite Hnone.
Qed.

(** A [tx] message that brings a new transaction, short id and contents,
    while no block is being recovered: the short id is assigned, the
    contents are stored, and the transaction, converted by [bx_tx_to_tx],
    is forwarded to the blockchain node when the node is connected.  The
    recovery service is left alone and no alarm is touched. *)
Theorem msg_tx_new_transaction (self : Connection) (msg : TxMessage) (sid : N)
  (s : NodeState) :
  has_flag (CONNECTION_TYPE self) RELAY_TRANSACTION = true →
  tx_short_id msg = Some sid → sid ≠ 0%N →
  tx_val msg ≠ EMPTY_TX_VAL →
  has_transaction_contents (tx_service s) (tx_hash msg) = false →
  recovery_records (block_recovery_service s) = ∅ →
  let h := tx_hash msg in
  let s' := exec (msg_tx env self msg) s in
  msg_tx env self msg s = (s', Ok tt) ∧
  tx_service s' =
    set_transaction_contents (assign_short_id (tx_service s) h sid) h (tx_val msg) ∧
  effects s' = effects s ++
    [TxStat h TX_RECEIVED_BY_GATEWAY_FROM_PEER;
     GatewayTxStat (log_transaction_from_relay h true false);
     TxStat h TX_SHORT_ID_STORED_BY_GATEWAY;
     Log TRACE (Some h)] ++
    (if bool_decide (is_Some (node_conn env)) then [SendMsgToNode (bx_tx_to_tx msg)]
     else []) ++
    [TxStat h TX_SENT_FROM_GATEWAY_TO_BLOCKCHAIN_NODE] ∧
  block_recovery_service s' = block_recovery_service s ∧
  alarm_queue s' = alarm_queue s ∧
  block_queuing_service s' = block_queuing_service s.
Proof.
  intros Hflag Hsid Hnz Hval Hnew Hrec. cbv zeta.
  unfold msg_tx. rewrite Hflag, Hsid. cbn [negb short_id_absent].
  rewrite (proj2 (N.eqb_neq sid 0) Hnz). cbn [andb default].
  rewrite (bool_decide_eq_false_2 (tx_val msg = EMPTY_TX_VAL)) by done.
  rewrite (bool_decide_eq_true_2 (is_Some (Some sid))) by eauto.
  unfold check_missing_sid, check_missing_tx_hash.
  repeat first
    [ progress mred
    | rewrite Hrec
    | rewrite map_to_list_empty
    | progress cbn [filter list_filter foldl negb orb default id]
    | rewrite has_transaction_contents_assign_short_id
    | rewrite Hnew
    | rewrite (bool_decide_eq_false_2 ([] ≠ [])) by (intros Hc; by apply Hc) ].
  destruct (bool_decide (is_Some (node_conn env))); mred;
    split_and!; try done; try (by rewrite <- !app_assoc).
Qed.

End Relay.

(* ================================================================== *)
(** * The node-level properties on the reference node *)
(* ================================================================== *)

Lemma node_hold_inv_witness :
  let es := [ev_block_holding Reference.gateway_conn (block_hash_of Reference.block0);
             ev_clock_advance (1 # 10);
             ev_block_from_node Reference.block0 Reference.blockchain_conn;
             ev_alarm 0] in
  Forall (λ e, is_holds_cleanup_event e = false) es ∧
  hold_inv (run_events Reference.env0 es initial_state).
Proof.
  assert (Forall (λ e, is_holds_cleanup_event e = false)
            [ev_block_holding Reference.gateway_conn (block_hash_of Reference.block0);
             ev_clock_advance (1 # 10);
             ev_block_from_node Reference.block0 Reference.blockchain_conn;
             ev_alarm 0]) as Hes by (repeat constructor).
  exact (conj Hes (node_hold_inv Reference.env0 _ Hes)).
Defined.

Lemma cancelled_hold_alarm_settled : alarm_settled 0 cancelled_hold_state.
Proof. eexists. split; [vm_compute; reflexivity|]. vm_compute. discriminate. Qed.

Lemma settled_alarm_stays_settled_witness :
  let es := [ev_block_holding Reference.gateway_conn (block_hash_of Reference.block0);
             ev_block_from_node Reference.block0 Reference.blockchain_conn] in
  let s' := run_events Reference.env0 es cancelled_hold_state in
  alarm_settled 0 cancelled_hold_state ∧
  alarm_settled 0 s' ∧ fire_alarm Reference.env0 0 s' = (s', Ok tt).
Proof.
  exact (conj cancelled_hold_alarm_settled
           (settled_alarm_stays_settled Reference.env0 _ 0 cancelled_hold_state
              cancelled_hold_alarm_settled)).
Defined.

Lemma held_known_hold_inv : hold_inv held_known_state.
Proof.
  apply run_calls_hold_inv; [by repeat constructor|].
  eapply hold_inv_ext; [| | |apply hold_inv_initial]; reflexivity.
Qed.

Lemma bdn_block_lifts_hold_witness :
  ∃ msg info,
    bx_block_to_block bx_block0 (tx_service held_known_state) = Ok (msg, info, [], []) ∧
    hold_inv held_known_state ∧
    let h := bi_block_hash info in
    let s' := exec (_handle_decrypted_block Reference.env0 bx_block0 Reference.relay_conn
                      None false) held_known_state in
    hold_cancelled h s' ∧
    propagated s' = propagated held_known_state ∧
    (∀ es i, hold_alarm_of h i s' →
       let s'' := run_events Reference.env0 es s' in
       fire_alarm Reference.env0 i s'' = (s'', Ok tt)).
Proof.
  destruct (bx_block_to_block bx_block0 (tx_service held_known_state))
    as [[[[msg info] us] uh]|e] eqn:Hbx; [|by vm_compute in Hbx].
  assert (us = [] ∧ uh = []) as [-> ->].
  { vm_compute in Hbx. by injection Hbx as _ _ <- <-. }
  exists msg, info. split; [reflexivity|]. split; [exact held_known_hold_inv|].
  exact (bdn_block_lifts_hold Reference.env0 bx_block0 Reference.relay_conn None false
           held_known_state msg info [] [] held_known_hold_inv
           (or_introl (ex_intro _ Reference.blockchain_conn eq_refl)) Hbx).
Defined.

Lemma place_hold_new_hold_witness :
  let s' := exec (place_hold Reference.env0 7%N Reference.gateway_conn) initial_state in
  (7%N ∉ blocks_seen initial_state) ∧
  holds initial_state !! 7%N = None ∧
  place_hold Reference.env0 7%N Reference.gateway_conn initial_state = (s', Ok tt) ∧
  lookup_hold s' 7%N = Some (new_BlockHold (now initial_state) Reference.gateway_conn) ∧
  alarm_queue s' = alarm_queue initial_state.
Proof.
  assert (7%N ∉ blocks_seen initial_state) as Hseen by apply not_elem_of_empty.
  assert (holds initial_state !! 7%N = None) as Hnone by reflexivity.
  pose proof (place_hold_new_hold Reference.env0 7%N Reference.gateway_conn initial_state
                Hseen Hnone) as (Hrun & Hhold & _ & _ & _ & Hq & _).
  exact (conj Hseen (conj Hnone (conj Hrun (conj Hhold Hq)))).
Defined.

Lemma handle_decrypted_block_no_node_witness :
  node_conn env_no_node = None ∧ remote_node_conn env_no_node = None ∧
  _handle_decrypted_block env_no_node bx_block0 Reference.relay_conn None false
    initial_state =
  (set_effects (effects initial_state ++ [Log WARNING None]) initial_state, Ok tt).
Proof.
  exact (conj eq_refl (conj eq_refl
           (handle_decrypted_block_no_node env_no_node bx_block0 Reference.relay_conn
              None false initial_state eq_refl eq_refl))).
Defined.

Lemma empty_bx_block_struct_error :
  bx_block_to_block [] (tx_service initial_state) = Raise StructError.
Proof. by vm_compute. Qed.

Lemma handle_decrypted_block_exception_escapes_witness :
  bx_block_to_block [] (tx_service initial_state) = Raise StructError ∧
  _handle_decrypted_block Reference.env0 [] Reference.relay_conn None false
    initial_state = (initial_state, Raise StructError).
Proof.
  split; [exact empty_bx_block_struct_error|].
  apply (handle_decrypted_block_exception_escapes Reference.env0 [] Reference.relay_conn
           None false initial_state StructError).
  - left. by eexists.
  - exact empty_bx_block_struct_error.
  - intros h ct. discriminate.
Defined.

Lemma ciphertext_then_key_witness :
  let h := bm_block_hash matching_msg in
  let s1 := exec (process_block_broadcast Reference.env0 matching_msg
                    Reference.relay_conn) initial_state in
  symmetric_decrypt (km_key Reference.key0_msg) (bm_blob matching_msg) =
    Some [Byte.x07] ∧
  in_progress_blocks s1 !! h =
    Some {| ciphertext := Some (bm_blob matching_msg); key := None |} ∧
  in_progress_blocks
    (exec (process_block_key Reference.env0 Reference.key0_msg Reference.relay_conn) s1)
    !! h = None.
Proof.
  assert (symmetric_decrypt (km_key Reference.key0_msg) (bm_blob matching_msg) =
          Some [Byte.x07]) as Hdec by reflexivity.
  pose proof (ciphertext_then_key Reference.env0 matching_msg Reference.key0_msg
                Reference.relay_conn Reference.relay_conn initial_state [Byte.x07]
                eq_refl eq_refl eq_refl eq_refl Hdec) as (Hs1 & _ & Hgone).
  exact (conj Hdec (conj Hs1 Hgone)).
Defined.

Lemma btc_round_trip_buffer_witness :
  ∃ bx info info',
    @short_ids_serializer_spec Reference.wire ∧
    well_formed_block Reference.block0 ∧
    Forall (tx_known Reference.ts_known) (msg_txns Reference.block0) ∧
    btc_block_to_bx_block Reference.block0 Reference.ts_known = Ok (bx, info) ∧
    btc_bx_block_to_block bx Reference.ts_known =
      Ok (Some {| buf := buf Reference.block0 ++ replicate 8 Byte.x00 |}, info', [], []).
Proof.
  destruct (btc_block_to_bx_block Reference.block0 Reference.ts_known)
    as [[bx info]|e] eqn:Hc; [|by vm_compute in Hc].
  destruct (btc_round_trip_buffer Reference.ts_known Reference.block0 bx info
              reference_serializer_spec reference_block0_well_formed
              reference_tx0_known Hc) as [info' Hd].
  exists bx, info, info'.
  exact (conj reference_serializer_spec
           (conj reference_block0_well_formed
              (conj reference_tx0_known (conj eq_refl Hd)))).
Defined.

Lemma relay_block_role_gate_witness :
  has_flag (CONNECTION_TYPE Reference.gateway_conn) RELAY_BLOCK = false ∧
  (∀ msg, msg_broadcast Reference.env0 Reference.gateway_conn msg initial_state =
          (set_effects (effects initial_state ++ [Log ERROR None]) initial_state,
           Ok tt)) ∧
  (∀ msg, msg_key Reference.env0 Reference.gateway_conn msg initial_state =
          (set_effects (effects initial_state ++ [Log ERROR None]) initial_state,
           Ok tt)).
Proof.
  exact (conj eq_refl
           (relay_block_role_gate Reference.env0 Reference.gateway_conn initial_state
              eq_refl)).
Defined.

Lemma relay_txs_role_gate_witness :
  has_flag (CONNECTION_TYPE Reference.block_relay_conn) RELAY_TRANSACTION = false ∧
  msg_txs Reference.env0 Reference.block_relay_conn txs9_msg initial_state =
  (set_effects (effects initial_state ++ [Log ERROR None]) initial_state, Ok tt).
Proof.
  exact (conj eq_refl
           (relay_txs_role_gate Reference.env0 Reference.block_relay_conn txs9_msg
              initial_state eq_refl)).
Defined.

Lemma process_block_key_stores_key_witness :
  let s' := exec (process_block_key Reference.env0 Reference.key0_msg
                    Reference.relay_conn) initial_state in
  in_progress_blocks initial_state !! km_block_hash Reference.key0_msg = None ∧
  process_block_key Reference.env0 Reference.key0_msg Reference.relay_conn
    initial_state = (s', Ok tt) ∧
  in_progress_blocks s' =
    <[km_block_hash Reference.key0_msg :=
        {| ciphertext := None; key := Some (km_key Reference.key0_msg) |}]>
      (in_progress_blocks initial_state).
Proof.
  pose proof (process_block_key_stores_key Reference.env0 Reference.key0_msg
                Reference.relay_conn initial_state eq_refl) as (Hrun & Hstore & _).
  exact (conj eq_refl (conj Hrun Hstore)).
Defined.

Lemma msg_tx_new_transaction_witness :
  let s' := exec (msg_tx Reference.env0 Reference.relay_conn tx9_msg) initial_state in
  has_flag (CONNECTION_TYPE Reference.relay_conn) RELAY_TRANSACTION = true ∧
  tx_short_id tx9_msg = Some 9%N ∧
  has_transaction_contents (tx_service initial_state) (tx_hash tx9_msg) = false ∧
  msg_tx Reference.env0 Reference.relay_conn tx9_msg initial_state = (s', Ok tt) ∧
  tx_service s' =
    set_transaction_contents
      (assign_short_id (tx_service initial_state) (tx_hash tx9_msg) 9)
      (tx_hash tx9_msg) (tx_val tx9_msg) ∧
  sent_to_node s' = [bx_tx_to_tx tx9_msg].
Proof.
  assert (has_flag (CONNECTION_TYPE Reference.relay_conn) RELAY_TRANSACTION = true)
    as Hflag by (by vm_compute).
  assert (has_transaction_contents (tx_service initial_state) (tx_hash tx9_msg) = false)
    as Hnew by (by vm_compute).
  pose proof (msg_tx_new_transaction Reference.env0 Reference.relay_conn tx9_msg 9
                initial_state Hflag eq_refl ltac:(discriminate) ltac:(discriminate)
                Hnew eq_refl) as (Hrun & Hts & Heff & _).
  split; [exact Hflag|]. split; [reflexivity|]. split; [exact Hnew|].
  split; [exact Hrun|]. split; [exact Hts|].
  unfold sent_to_node. rewrite Heff. reflexivity.
Defined.
